(** * Symbolic mapping variables of the tracer (torch/_dynamo/variables/dicts.py)

    A shallow embedding of the dictionary-like variable trackers: key
    normalisation ([get_key], [is_valid_key]), the method dispatch of
    [ConstDictVariable] and [DefaultDictVariable], the construction of
    [DataClassVariable] and the [sys.modules] special case.

    Variable trackers are Python objects: they live in a store indexed by
    address, refer to their children by address, and are created by
    allocation.  The tracer [tx] is the state threaded through every call. *)

From Stdlib Require Import ZArith.
From stdpp Require Import gmap strings list countable.

Local Open Scope Z_scope.
Local Open Scope string_scope.
Local Open Scope list_scope.

(** ** Host values *)

(** The builtin functions and types of the host: [list], [tuple] and [dict],
    which this file names, and the others. *)
Inductive Builtin : Type := builtin_list | builtin_tuple | builtin_dict | builtin_other (n : nat).

#[global] Instance Builtin_eq_dec : EqDecision Builtin.
Proof. solve_decision. Defined.

Definition Builtin_code (b : Builtin) : nat :=
  match b with
  | builtin_list => 0
  | builtin_tuple => 1
  | builtin_dict => 2
  | builtin_other n => S (S (S n))
  end.
Definition Builtin_of_code (c : nat) : Builtin :=
  match c with
  | 0 => builtin_list
  | 1 => builtin_tuple
  | 2 => builtin_dict
  | S (S (S n)) => builtin_other n
  end%nat.

(** The run-time values that occur as dictionary keys and as constants.
    Tensors, modules and other objects are known by identity only; a
    builtin is the host function or type itself. *)
#[local] Unset Elimination Schemes.
Inductive PyValue : Type :=
| PyNone
| PyBool (b : bool)
| PyInt (z : Z)
| PyStr (s : string)
| PyDtype (name : string)
| PyTensor (id : nat)
| PyModule (id : nat)
| PyObject (id : nat)
| PyBuiltin (fn : Builtin)
| PyTuple (elts : list PyValue)
| PyDict (entries : list (PyValue * PyValue)).
#[local] Set Elimination Schemes.

Section PyValue_induction.
Variable P : PyValue → Prop.
Hypothesis HNone : P PyNone.
Hypothesis HBool : ∀ b, P (PyBool b).
Hypothesis HInt : ∀ z, P (PyInt z).
Hypothesis HStr : ∀ s, P (PyStr s).
Hypothesis HDtype : ∀ s, P (PyDtype s).
Hypothesis HTensor : ∀ n, P (PyTensor n).
Hypothesis HModule : ∀ n, P (PyModule n).
Hypothesis HObject : ∀ n, P (PyObject n).
Hypothesis HBuiltin : ∀ b, P (PyBuiltin b).
Hypothesis HTuple : ∀ vs, Forall P vs → P (PyTuple vs).
Hypothesis HDict : ∀ es, Forall (λ e, P e.1 ∧ P e.2) es → P (PyDict es).

Fixpoint PyValue_nested_ind (v : PyValue) : P v :=
  match v with
  | PyNone => HNone
  | PyBool b => HBool b
  | PyInt z => HInt z
  | PyStr s => HStr s
  | PyDtype s => HDtype s
  | PyTensor n => HTensor n
  | PyModule n => HModule n
  | PyObject n => HObject n
  | PyBuiltin b => HBuiltin b
  | PyTuple vs =>
      HTuple vs
        ((fix go (l : list PyValue) : Forall P l :=
            match l with
            | [] => Forall_nil_2 P
            | x :: l' => Forall_cons_2 P x l' (PyValue_nested_ind x) (go l')
            end) vs)
  | PyDict es =>
      HDict es
        ((fix go (l : list (PyValue * PyValue)) : Forall (λ e, P e.1 ∧ P e.2) l :=
            match l with
            | [] => Forall_nil_2 _
            | (k, x) :: l' =>
                Forall_cons_2 (λ e, P e.1 ∧ P e.2) (k, x) l'
                  (conj (PyValue_nested_ind k) (PyValue_nested_ind x)) (go l')
            end) es)
  end.
End PyValue_induction.

(** Values are countable: they are encoded as finitely branching trees. *)
Definition PyLeaf : Type := bool + Z + string + nat.

Fixpoint PyValue_enc (v : PyValue) : gen_tree PyLeaf :=
  match v with
  | PyNone => GenNode 0 []
  | PyBool b => GenNode 1 [GenLeaf (inl (inl (inl b)))]
  | PyInt z => GenNode 2 [GenLeaf (inl (inl (inr z)))]
  | PyStr s => GenNode 3 [GenLeaf (inl (inr s))]
  | PyDtype s => GenNode 4 [GenLeaf (inl (inr s))]
  | PyTensor n => GenNode 5 [GenLeaf (inr n)]
  | PyModule n => GenNode 6 [GenLeaf (inr n)]
  | PyObject n => GenNode 7 [GenLeaf (inr n)]
  | PyBuiltin b => GenNode 11 [GenLeaf (inr (Builtin_code b))]
  | PyTuple vs => GenNode 8 (map PyValue_enc vs)
  | PyDict es =>
      GenNode 9 (map (λ e, match e with
                           | (k, x) => GenNode 10 [PyValue_enc k; PyValue_enc x]
                           end) es)
  end.

Fixpoint PyValue_dec (t : gen_tree PyLeaf) : option PyValue :=
  match t with
  | GenNode 0 [] => Some PyNone
  | GenNode 1 [GenLeaf (inl (inl (inl b)))] => Some (PyBool b)
  | GenNode 2 [GenLeaf (inl (inl (inr z)))] => Some (PyInt z)
  | GenNode 3 [GenLeaf (inl (inr s))] => Some (PyStr s)
  | GenNode 4 [GenLeaf (inl (inr s))] => Some (PyDtype s)
  | GenNode 5 [GenLeaf (inr n)] => Some (PyTensor n)
  | GenNode 6 [GenLeaf (inr n)] => Some (PyModule n)
  | GenNode 7 [GenLeaf (inr n)] => Some (PyObject n)
  | GenNode 11 [GenLeaf (inr c)] => Some (PyBuiltin (Builtin_of_code c))
  | GenNode 8 ts => PyTuple <$> mapM PyValue_dec ts
  | GenNode 9 ts =>
      PyDict <$> mapM (λ t, match t with
                            | GenNode 10 [tk; tx] =>
                                k ← PyValue_dec tk; x ← PyValue_dec tx; Some (k, x)
                            | _ => None
                            end) ts
  | _ => None
  end.

Lemma PyValue_dec_enc (v : PyValue) : PyValue_dec (PyValue_enc v) = Some v.
Proof.
  induction v using PyValue_nested_ind; try reflexivity.
  - by destruct b.
  - cbn [PyValue_enc PyValue_dec].
    assert (mapM PyValue_dec (map PyValue_enc vs) = Some vs) as ->; [|done].
    induction H as [|x l Hx Hl IH]; [done|].
    cbn. rewrite Hx. cbn. rewrite IH. done.
  - cbn [PyValue_enc PyValue_dec].
    match goal with
    | |- PyDict <$> ?m = _ => assert (m = Some es) as ->; [|done]
    end.
    induction H as [|[k x] l [Hk Hx] Hl IH]; [done|].
    cbn in *. rewrite Hk, Hx. cbn. rewrite IH. done.
Qed.

#[global] Instance PyValue_enc_inj : Inj (=) (=) PyValue_enc.
Proof.
  intros x y Hxy. apply (inj Some).
  by rewrite <- (PyValue_dec_enc x), <- (PyValue_dec_enc y), Hxy.
Qed.

#[global] Instance PyValue_eq_dec : EqDecision PyValue.
Proof.
  intros x y.
  destruct (decide (PyValue_enc x = PyValue_enc y)) as [Heq|Hne].
  - left. by apply (inj PyValue_enc).
  - right. intros ->. by apply Hne.
Defined.

#[global] Instance PyValue_countable : Countable PyValue.
Proof. exact (inj_countable PyValue_enc PyValue_dec PyValue_dec_enc). Defined.

(** Python compares dictionary keys with [==]: [True == 1] and
    [False == 0], tuples are compared element by element, tensors, modules
    and other objects by identity. *)
Fixpoint py_eqb (x y : PyValue) : bool :=
  match x, y with
  | PyNone, PyNone => true
  | PyBool a, PyBool b => bool_decide (a = b)
  | PyBool a, PyInt z => bool_decide (Z.b2z a = z)
  | PyInt z, PyBool a => bool_decide (z = Z.b2z a)
  | PyInt a, PyInt b => bool_decide (a = b)
  | PyStr a, PyStr b => bool_decide (a = b)
  | PyDtype a, PyDtype b => bool_decide (a = b)
  | PyTensor a, PyTensor b => bool_decide (a = b)
  | PyModule a, PyModule b => bool_decide (a = b)
  | PyObject a, PyObject b => bool_decide (a = b)
  | PyBuiltin a, PyBuiltin b => bool_decide (a = b)
  | PyTuple xs, PyTuple ys =>
      (fix go (l1 l2 : list PyValue) : bool :=
         match l1, l2 with
         | [], [] => true
         | a :: l1', b :: l2' => py_eqb a b && go l1' l2'
         | _, _ => false
         end) xs ys
  | _, _ => false
  end.

(** Dictionaries are not hashable, a tuple is when all its elements are. *)
Fixpoint hashable (v : PyValue) : bool :=
  match v with
  | PyDict _ => false
  | PyTuple vs => forallb hashable vs
  | _ => true
  end.

(** [bool(v)] for the values that occur here. *)
Definition truthy_items {V} (items : list (PyValue * V)) : bool :=
  match items with [] => false | _ => true end.

(** ** Exceptions *)

Inductive Exn : Type :=
| Unsupported (msg : string)       (* raised by [unimplemented] *)
| KeyError (key : PyValue)
| TypeError (msg : string)
| IndexError
| AssertionError
| AttributeError (attr : string)
| NotImplementedError
| RecursionError
| SystemError.                     (* a reference to no object: never in a run *)

#[global] Instance Exn_eq_dec : EqDecision Exn.
Proof. solve_decision. Defined.

Inductive Res (A : Type) : Type :=
| Ok (a : A)
| Err (e : Exn).
Arguments Ok {A} a.
Arguments Err {A} e.

#[global] Instance Res_ret : MRet Res := @Ok.
#[global] Instance Res_bind : MBind Res := λ A B f r,
  match r with
  | Ok a => f a
  | Err e => Err e
  end.
#[global] Instance Res_fmap : FMap Res := λ A B f r,
  match r with
  | Ok a => Ok (f a)
  | Err e => Err e
  end.

Definition is_Ok {A} (r : Res A) : Prop := ∃ a, r = Ok a.

(** [[f(x) for x in l]], stopping at the first exception. *)
Fixpoint res_mapM {A B} (f : A → Res B) (l : list A) : Res (list B) :=
  match l with
  | [] => Ok []
  | x :: l' => y ← f x; ys ← res_mapM f l'; Ok (y :: ys)
  end.

(** ** Ordered dictionaries

    [collections.OrderedDict] (and [dict], which keeps insertion order): an
    association list in insertion order, without duplicate keys. *)
Module OrderedDict.
Definition t (V : Type) : Type := list (PyValue * V).

Fixpoint find {V} (k : PyValue) (d : t V) : option V :=
  match d with
  | [] => None
  | (k', x) :: d' => if py_eqb k' k then Some x else find k d'
  end.

Definition unhashable {A} : Res A := Err (TypeError "unhashable type").

(** [k in d] *)
Definition contains {V} (k : PyValue) (d : t V) : Res bool :=
  if hashable k then Ok (bool_decide (is_Some (find k d))) else unhashable.

(** [d[k]] *)
Definition getitem {V} (d : t V) (k : PyValue) : Res V :=
  if hashable k then
    match find k d with
    | Some x => Ok x
    | None => Err (KeyError k)
    end
  else unhashable.

(** [d[k] = x] on a hashable key: an existing entry keeps its place and
    its key object, a new one goes last. *)
Fixpoint set {V} (k : PyValue) (x : V) (d : t V) : t V :=
  match d with
  | [] => [(k, x)]
  | (k', y) :: d' => if py_eqb k' k then (k', x) :: d' else (k', y) :: set k x d'
  end.

Definition setitem {V} (d : t V) (k : PyValue) (x : V) : Res (t V) :=
  if hashable k then Ok (set k x d) else unhashable.

Fixpoint remove {V} (k : PyValue) (d : t V) : t V :=
  match d with
  | [] => []
  | (k', y) :: d' => if py_eqb k' k then d' else (k', y) :: remove k d'
  end.

(** [d.pop(k)] *)
Definition pop {V} (d : t V) (k : PyValue) : Res (V * t V) :=
  if hashable k then
    match find k d with
    | Some x => Ok (x, remove k d)
    | None => Err (KeyError k)
    end
  else unhashable.

(** [d.update(other)] *)
Definition update {V} (d other : t V) : t V :=
  fold_left (λ acc e, set e.1 e.2 acc) other d.

Definition values {V} (d : t V) : list V := map snd d.
Definition keys {V} (d : t V) : list PyValue := map fst d.
End OrderedDict.

(** ** Sources and guards *)

(** Where a value was reached from (the classes of [..source]). *)
Inductive Source : Type :=
| LocalSource (local_name : string)
| AttrSource (base : Source) (member : string)
| GetItemSource (base : Source) (index : PyValue)
| GlobalWeakRefSource (global_name : string).

Fixpoint Source_enc (src : Source) : gen_tree (string + PyValue) :=
  match src with
  | LocalSource n => GenNode 0 [GenLeaf (inl n)]
  | AttrSource b m => GenNode 1 [Source_enc b; GenLeaf (inl m)]
  | GetItemSource b i => GenNode 2 [Source_enc b; GenLeaf (inr i)]
  | GlobalWeakRefSource n => GenNode 3 [GenLeaf (inl n)]
  end.

Fixpoint Source_dec (t : gen_tree (string + PyValue)) : option Source :=
  match t with
  | GenNode 0 [GenLeaf (inl n)] => Some (LocalSource n)
  | GenNode 1 [tb; GenLeaf (inl m)] => b ← Source_dec tb; Some (AttrSource b m)
  | GenNode 2 [tb; GenLeaf (inr i)] => b ← Source_dec tb; Some (GetItemSource b i)
  | GenNode 3 [GenLeaf (inl n)] => Some (GlobalWeakRefSource n)
  | _ => None
  end.

Lemma Source_dec_enc (src : Source) : Source_dec (Source_enc src) = Some src.
Proof. induction src as [|b IH m|b IH i|]; cbn; rewrite ?IH; done. Qed.

#[global] Instance Source_eq_dec : EqDecision Source.
Proof. solve_decision. Defined.

#[global] Instance Source_countable : Countable Source.
Proof. exact (inj_countable Source_enc Source_dec Source_dec_enc). Defined.

(** A guard is a predicate on the live program that the guard runtime checks
    later; here it is only collected.  [DICT_CONTAINS] is the one guard this
    file builds itself, [OtherGuard] stands for the guards made elsewhere. *)
Inductive Guard : Type :=
| DICT_CONTAINS (originating_source : Source) (key : PyValue) (invert : bool)
| OtherGuard (n : nat).

#[global] Instance Guard_eq_dec : EqDecision Guard.
Proof. solve_decision. Defined.

#[global] Instance Guard_countable : Countable Guard.
Proof.
  refine (inj_countable'
            (λ g, match g with
                  | DICT_CONTAINS src k i => inl (src, k, i)
                  | OtherGuard n => inr n
                  end)
            (λ x, match x with
                  | inl (src, k, i) => DICT_CONTAINS src k i
                  | inr n => OtherGuard n
                  end) _).
  by intros [].
Defined.

(** ** Variable trackers *)

(** Addresses of variable-tracker objects, and [MutableLocal] tokens: a
    [MutableLocal()] is an object compared and hashed by identity. *)
Abbreviation loc := nat (only parsing).
Abbreviation MutableLocal := nat (only parsing).

(** The host classes a mapping variable stands for ([user_cls]).  A user
    class is known by its dataclass fields, each with its default when it
    has one, and by whether it derives from [ModelOutput]. *)
Record ClassDef : Type := mkClassDef {
  cls_name : string;
  cls_fields : list (string * option PyValue);
  cls_is_model_output : bool;
}.

Inductive UserCls : Type :=
| dict_cls
| OrderedDict_cls
| defaultdict_cls
| user_defined_cls (c : ClassDef).

#[global] Instance ClassDef_eq_dec : EqDecision ClassDef.
Proof. solve_decision. Defined.
#[global] Instance UserCls_eq_dec : EqDecision UserCls.
Proof. solve_decision. Defined.

(** The [default_factory] attribute holds whatever the constructor was
    given: [None], a variable tracker, or (as [is_python_constant] allows
    for) a host type itself. *)
Inductive Factory : Type :=
| FactoryNone
| FactoryVar (f : loc)
| FactoryType (b : Builtin).

#[global] Instance Factory_eq_dec : EqDecision Factory.
Proof. solve_decision. Defined.

(** The classes of variable trackers, with the attributes each adds.  The
    classes defined in this file are [ConstDictVariable],
    [DefaultDictVariable], [DataClassVariable] and
    [PythonSysModulesVariable]; the others are the collaborators it names,
    and [OtherVariable] any further class. *)
Inductive VarClass : Type :=
| ConstantVariable (value : PyValue)
| TensorVariable (specialized_value : option PyValue)
| NNModuleVariable (module_key : string)
| TupleVariable (elems : list loc)
| SetVariable (elems : list loc)
| ConstDictVariable (items : OrderedDict.t loc) (user_cls : UserCls)
| DefaultDictVariable (items : OrderedDict.t loc) (user_cls : UserCls)
    (default_factory : Factory)
| DataClassVariable (items : OrderedDict.t loc) (user_cls : UserCls)
| PythonSysModulesVariable
| BuiltinVariable (fn : Builtin)
| OtherVariable (n : nat).

#[global] Instance VarClass_eq_dec : EqDecision VarClass.
Proof. solve_decision. Defined.

(** The attributes of every variable tracker ([VariableTracker.__init__]). *)
Record VarObj : Type := mkVar {
  cls : VarClass;
  guards : gset Guard;
  source : option Source;
  mutable_local : option MutableLocal;
  recursively_contains : gset MutableLocal;
}.

#[global] Instance VarObj_eq_dec : EqDecision VarObj.
Proof. solve_decision. Defined.

Definition set_guards (g : gset Guard) (o : VarObj) : VarObj :=
  mkVar (cls o) g (source o) (mutable_local o) (recursively_contains o).
Definition set_mutable_local (m : option MutableLocal) (o : VarObj) : VarObj :=
  mkVar (cls o) (guards o) (source o) m (recursively_contains o).

(** [self.items] of a mapping variable. *)
Definition class_items (c : VarClass) : Res (OrderedDict.t loc) :=
  match c with
  | ConstDictVariable items _
  | DefaultDictVariable items _ _
  | DataClassVariable items _ => Ok items
  | _ => Err (AttributeError "items")
  end.
Definition items_of (o : VarObj) : Res (OrderedDict.t loc) := class_items (cls o).

Definition with_items (items : OrderedDict.t loc) (c : VarClass) : VarClass :=
  match c with
  | ConstDictVariable _ u => ConstDictVariable items u
  | DefaultDictVariable _ u f => DefaultDictVariable items u f
  | DataClassVariable _ u => DataClassVariable items u
  | c => c
  end.

Definition isinstance_TensorVariable (o : VarObj) : bool :=
  match cls o with TensorVariable _ => true | _ => false end.
Definition is_ConstDictVariable (c : VarClass) : bool :=
  match c with
  | ConstDictVariable _ _ | DefaultDictVariable _ _ _ | DataClassVariable _ _ => true
  | _ => false
  end.
Definition isinstance_ConstDictVariable (o : VarObj) : bool :=
  is_ConstDictVariable (cls o).
Definition isinstance_TupleVariable (o : VarObj) : bool :=
  match cls o with TupleVariable _ => true | _ => false end.

(** ** The tracer state and its monad *)

(** What a call reads and changes: the store of variable-tracker objects,
    the tracer's live-variable table, [tx.output.nn_modules], the weak
    references stored under global names, the host's [sys.modules], the
    [MutableLocal] objects made so far, the symbolic calls made so far, and
    the interpreter's recursion limit. *)
Record Tx : Type := mkTx {
  heap : list VarObj;
  stack : list loc;
  nn_modules : gmap string PyValue;
  global_weakrefs : list (string * PyValue);
  sys_modules : OrderedDict.t PyValue;
  next_mutable_local : MutableLocal;
  calls : list loc;
  recursion_limit : nat;
}.

Definition set_heap (h : list VarObj) (s : Tx) : Tx :=
  mkTx h (stack s) (nn_modules s) (global_weakrefs s) (sys_modules s)
    (next_mutable_local s) (calls s) (recursion_limit s).
Definition set_stack (st : list loc) (s : Tx) : Tx :=
  mkTx (heap s) st (nn_modules s) (global_weakrefs s) (sys_modules s)
    (next_mutable_local s) (calls s) (recursion_limit s).
Definition set_global_weakrefs (w : list (string * PyValue)) (s : Tx) : Tx :=
  mkTx (heap s) (stack s) (nn_modules s) w (sys_modules s)
    (next_mutable_local s) (calls s) (recursion_limit s).
Definition set_next_mutable_local (n : MutableLocal) (s : Tx) : Tx :=
  mkTx (heap s) (stack s) (nn_modules s) (global_weakrefs s) (sys_modules s)
    n (calls s) (recursion_limit s).
Definition set_calls (c : list loc) (s : Tx) : Tx :=
  mkTx (heap s) (stack s) (nn_modules s) (global_weakrefs s) (sys_modules s)
    (next_mutable_local s) c (recursion_limit s).

(** A computation returns a value or raises, and leaves a state either way. *)
Definition M (A : Type) : Type := Tx → Res A * Tx.

Definition ret {A} (a : A) : M A := λ s, (Ok a, s).
Definition raise {A} (e : Exn) : M A := λ s, (Err e, s).
Definition bind {A B} (m : M A) (f : A → M B) : M B := λ s,
  match m s with
  | (Ok a, s') => f a s'
  | (Err e, s') => (Err e, s')
  end.
(** A computation that only reads the state. *)
Definition read {A} (f : Tx → Res A) : M A := λ s, (f s, s).
Definition lift {A} (r : Res A) : M A := λ s, (r, s).

Declare Scope tx_scope.
Delimit Scope tx_scope with tx.
Notation "'let*' x := m 'in' k" := (bind m (λ x, k))
  (at level 10, x pattern, m at level 100, k at level 200) : tx_scope.
Notation "m ;; k" := (bind m (λ _, k))
  (at level 100, k at level 200, right associativity) : tx_scope.

(** [assert c] *)
Definition assert {A} (c : bool) (k : M A) : M A :=
  if c then k else raise AssertionError.
Definition res_assert {A} (c : bool) (k : Res A) : Res A :=
  if c then k else Err AssertionError.

(** [unimplemented(msg)] of [..exc]: always raises. *)
Definition unimplemented {A} (msg : string) : M A := raise (Unsupported msg).

(** The object at an address. *)
Definition deref_in (h : list VarObj) (l : loc) : Res VarObj :=
  match h !! l with
  | Some o => Ok o
  | None => Err SystemError
  end.
Definition deref (l : loc) : M VarObj := read (λ s, deref_in (heap s) l).

(** A new object; its address is the next free one. *)
Definition alloc (o : VarObj) : M loc := λ s,
  (Ok (length (heap s)), set_heap (heap s ++ [o]) s).

(** [MutableLocal()] *)
Definition new_MutableLocal : M MutableLocal := λ s,
  (Ok (next_mutable_local s), set_next_mutable_local (S (next_mutable_local s)) s).

(** [args[i]] *)
Definition index {A} (l : list A) (i : nat) : Res A :=
  match l !! i with
  | Some x => Ok x
  | None => Err IndexError
  end.

(** ** The base class, as this file uses it *)

(** Modelled from the spec: [VariableTracker.propagate] of [.base], which is
    not in this file.  The guard ledger is accumulate-only: a derived
    variable carries the union of the guards of all the variables that
    contributed to it. *)
Definition propagate_in (h : list VarObj) (vars : list loc) : Res (gset Guard) :=
  gs ← res_mapM (λ l, guards <$> deref_in h l) vars; Ok (⋃ gs).
Definition propagate (vars : list loc) : M (gset Guard) :=
  read (λ s, propagate_in (heap s) vars).

(** The variables held directly by a variable. *)
Definition children (c : VarClass) : list loc :=
  match c with
  | TupleVariable es | SetVariable es => es
  | ConstDictVariable items _
  | DefaultDictVariable items _ _
  | DataClassVariable items _ => OrderedDict.values items
  | _ => []
  end.

(** Modelled from the spec: the default of [recursively_contains] in
    [VariableTracker.__init__] of [.base], used when [None] is passed.  It
    is the set of mutable-local identities reachable through the variable's
    values: those of each child, and each child's own when it is mutable. *)
Definition contribution (o : VarObj) : gset MutableLocal :=
  recursively_contains o ∪
  match mutable_local o with Some m => {[m]} | None => ∅ end.
Definition reachable_in (h : list VarObj) (c : VarClass) : Res (gset MutableLocal) :=
  cs ← res_mapM (λ l, contribution <$> deref_in h l) (children c); Ok (⋃ cs).

(** [DataClassVariable.is_matching_cls]: a subclass of [ModelOutput]. *)
Definition is_matching_cls (u : UserCls) : bool :=
  match u with
  | user_defined_cls c => cls_is_model_output c
  | _ => false
  end.

(** Calling a class on its attributes: the constructors.  [VariableTracker.__init__] stores the
    common attributes; [ConstDictVariable.__init__] adds the guards of the
    values of [items]; [DefaultDictVariable.__init__] and
    [DataClassVariable.__init__] check [user_cls]. *)
Definition construct_in (h : list VarObj) (c : VarClass) (g : gset Guard)
    (src : option Source) (ml : option MutableLocal)
    (rc : option (gset MutableLocal)) : Res VarObj :=
  rc' ← match rc with
        | Some r => Ok r
        | None => reachable_in h c
        end;
  match c with
  | ConstDictVariable items _ =>
      gi ← propagate_in h (OrderedDict.values items);
      Ok (mkVar c (g ∪ gi) src ml rc')
  | DefaultDictVariable items u _ =>
      gi ← propagate_in h (OrderedDict.values items);
      res_assert (bool_decide (u = defaultdict_cls)) (Ok (mkVar c (g ∪ gi) src ml rc'))
  | DataClassVariable items u =>
      gi ← propagate_in h (OrderedDict.values items);
      res_assert (is_matching_cls u) (Ok (mkVar c (g ∪ gi) src ml rc'))
  | _ => Ok (mkVar c g src ml rc')
  end.
Definition construct (c : VarClass) (g : gset Guard) (src : option Source)
    (ml : option MutableLocal) (rc : option (gset MutableLocal)) : M loc :=
  (let* o := read (λ s, construct_in (heap s) c g src ml rc) in alloc o)%tx.

(** Modelled from the spec: [VariableTracker.add_options] and [add_guards]
    of [.base].  The result is a copy of the variable whose guards are
    joined with those given. *)
Definition add_guards (self : loc) (g : gset Guard) : M loc :=
  (let* o := deref self in
   construct (cls o) (guards o ∪ g) (source o) (mutable_local o)
     (Some (recursively_contains o)))%tx.
Definition add_options (self : loc) (options : gset Guard) : M loc :=
  add_guards self options.

(** Modelled from the spec: [tx.replace_all] of the tracer.  Every reference
    to the old variable in the live tracer state is replaced by the new
    variable, which is returned. *)
Definition replace_all (oldvar newvar : loc) : M loc := λ s,
  (Ok newvar,
   set_stack ((λ l, if bool_decide (l = oldvar) then newvar else l) <$> stack s) s).

(** Modelled from the spec: [tx.store_global_weakref] (and [tx.store_dict_key],
    the name one call site uses): registers a weak external reference to a
    live value under a name.  The registration is idempotent: what is
    registered already is not registered again. *)
Definition register_weakref (name : string) (value : PyValue) (s : Tx) : Tx :=
  if bool_decide ((name, value) ∈ global_weakrefs s) then s
  else set_global_weakrefs (global_weakrefs s ++ [(name, value)]) s.
Definition store_global_weakref (name : string) (value : PyValue) : M unit := λ s,
  (Ok (), register_weakref name value s).
Definition store_dict_key (name : string) (value : PyValue) : M unit :=
  store_global_weakref name value.

(** ** Key normalisation *)

(** [as_python_constant].  [ConstDictVariable] (and its subclasses) give the
    dictionary of the constants of their values; the base class raises
    [NotImplementedError].  The recursion goes through the store; [depth]
    is the number of nested calls the interpreter's recursion limit still
    allows.

    Modelled from the spec: the methods of [ConstantVariable],
    [TupleVariable] and [BuiltinVariable], which are not in this file.  A
    constant is its value; a sequence is reducible to a constant when every
    child is; a builtin is the host function [fn] it stands for. *)
Fixpoint as_python_constant_in (depth : nat) (h : list VarObj) (l : loc) : Res PyValue :=
  let child (c : loc) : Res PyValue :=
    match depth with
    | O => Err RecursionError
    | S d => as_python_constant_in d h c
    end in
  o ← deref_in h l;
  match cls o with
  | ConstantVariable v => Ok v
  | TupleVariable es => PyTuple <$> res_mapM child es
  | ConstDictVariable items _
  | DefaultDictVariable items _ _
  | DataClassVariable items _ =>
      PyDict <$> res_mapM (λ e, x ← child e.2; Ok (e.1, x)) items
  | BuiltinVariable fn => Ok (PyBuiltin fn)
  | _ => Err NotImplementedError
  end.
Definition as_python_constant (l : loc) (s : Tx) : Res PyValue :=
  as_python_constant_in (recursion_limit s) (heap s) l.

(** [x in [list, tuple, dict]] *)
Definition in_list_tuple_dict (f : Factory) : bool :=
  match f with
  | FactoryType (builtin_list | builtin_tuple | builtin_dict) => true
  | _ => false
  end.

(** Modelled from the spec: [VariableTracker.is_python_constant] of [.base],
    reached through [super()] and by the classes that do not override it.
    It is the boolean reading of [as_python_constant]: true when the
    variable reduces to a constant, false when the reduction is not
    implemented; any other exception passes through. *)
Definition VariableTracker_is_python_constant (l : loc) (s : Tx) : Res bool :=
  match as_python_constant l s with
  | Ok _ => Ok true
  | Err NotImplementedError => Ok false
  | Err e => Err e
  end.

(** [is_python_constant]: [DefaultDictVariable.is_python_constant] answers
    [False] for unsupported defaults, the other classes use the base class. *)
Definition is_python_constant (l : loc) (s : Tx) : Res bool :=
  o ← deref_in (heap s) l;
  match cls o with
  | DefaultDictVariable items _ default_factory =>
      if negb (in_list_tuple_dict default_factory) && negb (truthy_items items)
      then Ok false
      else VariableTracker_is_python_constant l s
  | _ => VariableTracker_is_python_constant l s
  end.

(** The actual arguments of a call of [get_key]: the tracer or a variable. *)
Inductive PyArg : Type :=
| ArgTx
| ArgVar (l : loc).

(** [ConstDictVariable.get_key(cls, tx, arg)] *)
Definition get_key (tx arg : PyArg) (s : Tx) : Res PyValue :=
  match arg with
  | ArgTx => Err (AttributeError "as_python_constant")
  | ArgVar a =>
      o ← deref_in (heap s) a;
      match cls o with
      | TensorVariable (Some v) => Ok v
      | NNModuleVariable key =>
          match tx with
          | ArgTx =>
              match nn_modules s !! key with
              | Some m => Ok m
              | None => Err (KeyError (PyStr key))
              end
          | ArgVar _ => Err (AttributeError "output")
          end
      | _ => as_python_constant a s
      end
  end.

(** A call [ConstDictVariable.get_key(...)] binds its actual arguments to
    the two parameters [tx] and [arg]; any other number is a [TypeError]. *)
Definition call_get_key (actuals : list PyArg) (s : Tx) : Res PyValue :=
  match actuals with
  | [tx; arg] => get_key tx arg s
  | [] | [_] => Err (TypeError "get_key() missing required positional argument")
  | _ => Err (TypeError "get_key() takes 3 positional arguments")
  end.

(** [ConstDictVariable.is_valid_key(cls, key)] *)
Definition is_valid_key (key : loc) (s : Tx) : Res bool :=
  o ← deref_in (heap s) key;
  c ← is_python_constant key s;
  Ok (c
      || match cls o with TensorVariable (Some _) => true | _ => false end
      || match cls o with ConstantVariable (PyDtype _) => true | _ => false end
      || match cls o with NNModuleVariable _ => true | _ => false end).

(** [is_valid_global_ref_key(key)] *)
Definition is_valid_global_ref_key (key : PyValue) : bool :=
  match key with
  | PyTensor _ => true
  | PyModule _ | PyTuple _ => true
  | _ => false
  end.

(** Modelled from the spec: [ConstantVariable.is_literal] and
    [ConstantVariable.create] of [.constant]: a literal is a value
    reproducible by a constant load, and [create] makes the constant
    variable of a value with the given guards. *)
Fixpoint is_literal (v : PyValue) : bool :=
  match v with
  | PyNone | PyBool _ | PyInt _ | PyStr _ => true
  | PyTuple vs => forallb is_literal vs
  | _ => false
  end.
Definition ConstantVariable_create (v : PyValue) (g : gset Guard) : M loc :=
  construct (ConstantVariable v) g None None None.

(** [for x in l], collecting the results. *)
Fixpoint tx_mapM {A B} (f : A → M B) (l : list A) : M (list B) :=
  match l with
  | [] => ret []
  | x :: l' => (let* y := f x in let* ys := tx_mapM f l' in ret (y :: ys))%tx
  end.

(** The branches of an [if] / [elif] chain: the conditions are evaluated in
    order, the first that holds selects the body. *)
Fixpoint elif_chain {A} (branches : list (M bool * M A)) (otherwise : M A) : M A :=
  match branches with
  | [] => otherwise
  | (cond, body) :: rest =>
      (let* c := cond in if c : bool then body else elif_chain rest otherwise)%tx
  end.

(** [a and m]: [m] is evaluated only when [a] holds. *)
Definition and_then (a : bool) (m : M bool) : M bool := if a then m else ret false.
Infix "&&&" := and_then (at level 40, left associativity, only parsing).

(** ** The mapping variables *)

Section Dicts.

(** The collaborators of this file that are used as oracles:
    [global_key_name] of [..utils] names the weak reference of a key;
    [VariableBuilder] of [.builder] wraps a live value reached from a source;
    [call_function] is the symbolic call, without arguments, of a function
    variable, given the [MutableLocal] its result may take;
    [format] is the text of a value in an f-string. *)
Variable global_key_name : PyValue → string.
Variable VariableBuilder : Source → PyValue → VarObj.
Variable call_function : VarObj → MutableLocal → Res VarObj.
Variable format : PyValue → string.

Local Open Scope tx_scope.

(** Modelled from the spec: [VariableBuilder(tx, source)(value)], the
    value-wrapping entry point: a live value becomes a new variable. *)
Definition wrap (src : Source) (value : PyValue) : M loc :=
  alloc (VariableBuilder src value).

(** Modelled from the spec: [VariableTracker.call_method] of [.base], reached
    through [super()]: names that are not supported fall through to the
    generic unsupported-operation signal. *)
Definition VariableTracker_call_method (self : loc) (name : string)
    (args : list loc) (kwargs : list (string * loc)) : M loc :=
  unimplemented "call_method".

(** [ConstDictVariable.modifed]: a copy of self with different items. *)
Definition modifed (self : loc) (items : OrderedDict.t loc)
    (recursively_contains : option (gset MutableLocal)) (options : gset Guard) : M loc :=
  let* o := deref self in
  construct (with_items items (cls o)) options (source o) (mutable_local o)
    recursively_contains.

(** [ConstDictVariable.getitem_const] *)
Definition getitem_const (self : loc) (arg : loc) : M loc :=
  let* o := deref self in
  let* items := lift (items_of o) in
  let* k := read (call_get_key [ArgTx; ArgVar arg]) in
  let* x := lift (OrderedDict.getitem items k) in
  let* g := propagate [self; arg] in
  add_options x g.

(** [ConstDictVariable._key_to_var] *)
Definition _key_to_var (key : PyValue) (options : gset Guard) : M loc :=
  if is_valid_global_ref_key key then
    wrap (GlobalWeakRefSource (global_key_name key)) key
  else
    assert (is_literal key) (ConstantVariable_create key options).

(** [args and ConstDictVariable.is_valid_key(args[0])] *)
Definition args_and_is_valid_key (args : list loc) : M bool :=
  match args with
  | [] => ret false
  | a :: _ => read (is_valid_key a)
  end.

(** [args and isinstance(args[0], ConstDictVariable)] *)
Definition args_and_isinstance_ConstDictVariable (args : list loc) : M bool :=
  match args with
  | [] => ret false
  | a :: _ => let* oa := deref a in ret (isinstance_ConstDictVariable oa)
  end.

(** [ConstDictVariable.get_key(tx, args[0]) in self.items] *)
Definition key_in_items (args : list loc) (items : OrderedDict.t loc) : M bool :=
  let* a := lift (index args 0) in
  let* k := read (call_get_key [ArgTx; ArgVar a]) in
  lift (OrderedDict.contains k items).

(** The body shared by the two [__setitem__] branches, after the key is
    stored: the new items, the new [recursively_contains], and the
    replacement of [self] by the modified copy. *)
Definition setitem_body (self : loc) (val : OrderedDict.t loc) (k : PyValue)
    (args : list loc) (options : gset Guard) : M loc :=
  let* a1 := lift (index args 1) in
  let* newval := lift (OrderedDict.setitem val k a1) in
  let* o := deref self in
  let* o1 := deref a1 in
  let new_rec_contains := recursively_contains o ∪ recursively_contains o1 in
  let new_rec_contains :=
    match mutable_local o1 with
    | Some m => new_rec_contains ∪ {[m]}
    | None => new_rec_contains
    end in
  let* new := modifed self newval (Some new_rec_contains) options in
  replace_all self new.

(** [ConstDictVariable.call_method] *)
Definition ConstDictVariable_call_method (self : loc) (name : string)
    (args : list loc) (kwargs : list (string * loc)) : M loc :=
  let* options := propagate (self :: args ++ kwargs.*2) in
  let* o := deref self in
  let* val := lift (items_of o) in
  let no_args := bool_decide (args = []) && bool_decide (kwargs = []) in
  elif_chain
    [ (ret (String.eqb name "__getitem__"),
       let* a0 := lift (index args 0) in
       getitem_const self a0);
      (ret (String.eqb name "items"),
       assert no_args
         (let* pairs := tx_mapM (λ e,
                          let* kv := _key_to_var e.1 options in
                          construct (TupleVariable [kv; e.2]) options None None None) val in
          construct (TupleVariable pairs) options None None None));
      (ret (String.eqb name "keys"),
       assert no_args
         (let* ks := tx_mapM (λ k, _key_to_var k options) (OrderedDict.keys val) in
          let* m := new_MutableLocal in
          construct (SetVariable ks) options None (Some m) None));
      (ret (String.eqb name "values"),
       assert no_args
         (construct (TupleVariable (OrderedDict.values val)) options None None None));
      (ret (String.eqb name "__len__"),
       assert no_args
         (ConstantVariable_create (PyInt (Z.of_nat (length val))) options));
      (String.eqb name "__setitem__" &&&
         (let* v := args_and_is_valid_key args in
          ret (v && bool_decide (is_Some (mutable_local o)))),
       assert (bool_decide (kwargs = []) && bool_decide (length args = 2%nat))
         (let* a0 := lift (index args 0) in
          let* k := read (call_get_key [ArgTx; ArgVar a0]) in
          (if is_valid_global_ref_key k
           then store_global_weakref (global_key_name k) k
           else ret ());;
          setitem_body self val k args options));
      ((String.eqb name "pop" || String.eqb name "get") &&&
         (let* v := args_and_is_valid_key args in
          v &&&
            (let* present := key_in_items args val in
             ret (negb present && bool_decide (length args = 2%nat)))),
       (* missing item, return the default value *)
       let* a1 := lift (index args 1) in
       add_options a1 options);
      (String.eqb name "pop" &&&
         (let* v := args_and_is_valid_key args in
          ret (v && bool_decide (is_Some (mutable_local o)))),
       let* a0 := lift (index args 0) in
       let* k := read (call_get_key [ArgTx; ArgVar a0]) in
       let* popped := lift (OrderedDict.pop val k) in
       let '(result, newval) := popped in
       let* new := modifed self newval None options in
       replace_all self new;;
       add_options result options);
      (String.eqb name "update" &&&
         (let* d := args_and_isinstance_ConstDictVariable args in
          ret (d && bool_decide (is_Some (mutable_local o)))),
       let* a0 := lift (index args 0) in
       let* o0 := deref a0 in
       let* other := lift (items_of o0) in
       let newval := OrderedDict.update val other in
       let new_rec_contains := recursively_contains o ∪ recursively_contains o0 in
       let* result := modifed self newval (Some new_rec_contains) options in
       replace_all self result);
      ((String.eqb name "get" || String.eqb name "__getattr__") &&&
         (let* v := args_and_is_valid_key args in
          v &&& key_in_items args val),
       let* a0 := lift (index args 0) in
       let* k := read (call_get_key [ArgTx; ArgVar a0]) in
       let* result := lift (OrderedDict.getitem val k) in
       add_options result options);
      (String.eqb name "__contains__" &&& args_and_is_valid_key args,
       let* a0 := lift (index args 0) in
       let* k := read (call_get_key [ArgVar a0]) in
       let* present := lift (OrderedDict.contains k val) in
       ConstantVariable_create (PyBool present) options);
      (ret (String.eqb name "__contains__"),
       let* content := lift (index args 0) in
       unimplemented "NYI - __contains__");
      (String.eqb name "__setitem__" &&& args_and_is_valid_key args,
       let* m := new_MutableLocal in
       (λ s, (Ok (), set_heap (alter (set_mutable_local (Some m)) self (heap s)) s));;
       assert (bool_decide (kwargs = []) && bool_decide (length args = 2%nat))
         (let* a0 := lift (index args 0) in
          let* k := read (call_get_key [ArgTx; ArgVar a0]) in
          (if is_valid_global_ref_key k
           then store_dict_key (global_key_name k) k
           else ret ());;
          setitem_body self val k args options)) ]
    (VariableTracker_call_method self name args kwargs).

(** Modelled from the spec: [self.default_factory.call_function(tx, [], {})],
    the symbolic call of the factory: it produces a value variable, which is
    a new object, and the call is recorded. *)
Definition call_default_factory (f : Factory) : M loc :=
  match f with
  | FactoryVar fl =>
      let* fo := deref fl in
      let* m := new_MutableLocal in
      (λ s, (Ok (), set_calls (calls s ++ [fl]) s));;
      let* r := lift (call_function fo m) in
      alloc r
  | _ => raise (AttributeError "call_function")
  end.

(** [self.default_factory] *)
Definition default_factory_of (o : VarObj) : Res Factory :=
  match cls o with
  | DefaultDictVariable _ _ f => Ok f
  | _ => Err (AttributeError "default_factory")
  end.

(** [DefaultDictVariable.call_method] *)
Definition DefaultDictVariable_call_method (self : loc) (name : string)
    (args : list loc) (kwargs : list (string * loc)) : M loc :=
  let* options := propagate (self :: args ++ kwargs.*2) in
  if String.eqb name "__getitem__" then
    let* a0 := lift (index args 0) in
    let* k := read (call_get_key [ArgTx; ArgVar a0]) in
    let* o := deref self in
    let* items := lift (items_of o) in
    let* present := lift (OrderedDict.contains k items) in
    if present then getitem_const self a0
    else
      let* factory := lift (default_factory_of o) in
      if bool_decide (factory = FactoryNone) then raise (KeyError (PyStr (format k)))
      else
        (if is_valid_global_ref_key k
         then store_global_weakref (global_key_name k) k
         else ret ());;
        let* default_var := call_default_factory factory in
        let* new_val := lift (OrderedDict.setitem items k default_var) in
        let* od := deref default_var in
        let new_rec_contains := recursively_contains o ∪ recursively_contains od in
        let new_rec_contains :=
          match mutable_local od with
          | Some m => new_rec_contains ∪ {[m]}
          | None => new_rec_contains
          end in
        let* new := modifed self new_val (Some new_rec_contains) options in
        replace_all self new;;
        ret default_var
  else ConstDictVariable_call_method self name args kwargs.

(** ** Record variables *)

(** What a parameter is bound to after [bind] and [apply_defaults]: an
    argument of the call, which is a variable, or the default of the field. *)
Inductive BoundValue : Type :=
| BoundVar (l : loc)
| BoundDefault (v : PyValue).

Fixpoint lookup_kwarg (n : string) (kwargs : list (string * loc)) : option loc :=
  match kwargs with
  | [] => None
  | (n', a) :: rest => if String.eqb n' n then Some a else lookup_kwarg n rest
  end.
Definition remove_kwarg (n : string) (kwargs : list (string * loc)) : list (string * loc) :=
  filter (λ e, e.1 ≠ n) kwargs.

(** Modelled from the spec: [inspect.signature(user_cls).bind] on the arguments of the call,
    followed by [apply_defaults()], for a dataclass whose parameters are its
    fields: positional and keyword arguments are bound against the fields,
    the defaults fill the rest, and any mismatch is an error. *)
Fixpoint bind_signature (params : list (string * option PyValue)) (args : list loc)
    (kwargs : list (string * loc)) : Res (list (string * BoundValue)) :=
  match params with
  | [] =>
      match args, kwargs with
      | [], [] => Ok []
      | _ :: _, _ => Err (TypeError "too many positional arguments")
      | [], _ :: _ => Err (TypeError "got an unexpected keyword argument")
      end
  | (n, d) :: ps =>
      match args with
      | a :: args' =>
          match lookup_kwarg n kwargs with
          | Some _ => Err (TypeError "multiple values for argument")
          | None => rest ← bind_signature ps args' kwargs; Ok ((n, BoundVar a) :: rest)
          end
      | [] =>
          match lookup_kwarg n kwargs with
          | Some a =>
              rest ← bind_signature ps [] (remove_kwarg n kwargs);
              Ok ((n, BoundVar a) :: rest)
          | None =>
              match d with
              | Some v => rest ← bind_signature ps [] kwargs; Ok ((n, BoundDefault v) :: rest)
              | None => Err (TypeError "missing a required argument")
              end
          end
      end
  end.

(** [bound.arguments[key]] *)
Fixpoint bound_argument (key : string) (bound : list (string * BoundValue)) : Res BoundValue :=
  match bound with
  | [] => Err (KeyError (PyStr key))
  | (n, b) :: rest => if String.eqb n key then Ok b else bound_argument key rest
  end.

(** The class attribute [DataClassVariable.include_none]: [ModelOutput]
    excludes [None]. *)
Definition include_none : bool := false.

(** The loop of [DataClassVariable.create] that fills [items]. *)
Fixpoint create_items (keys : list string) (bound : list (string * BoundValue))
    (items : OrderedDict.t loc) : M (OrderedDict.t loc) :=
  match keys with
  | [] => ret items
  | key :: keys' =>
      let* val := lift (bound_argument key bound) in
      let* items' :=
        match val with
        | BoundVar l => lift (OrderedDict.setitem items (PyStr key) l)
        | BoundDefault v =>
            if include_none then
              assert (is_literal v)
                (let* c := ConstantVariable_create v ∅ in
                 lift (OrderedDict.setitem items (PyStr key) c))
            else
              assert (bool_decide (v = PyNone)) (ret items)
        end in
      create_items keys' bound items'
  end.

(** The keyword options that a caller passes on to a constructor
    ([VariableTracker.__init__]): the guards, the source, the
    [MutableLocal] and the [recursively_contains] set, each when given.  No
    options at all is written [∅]. *)
Record Options : Type := mkOptions {
  opt_guards : gset Guard;
  opt_source : option Source;
  opt_mutable_local : option MutableLocal;
  opt_recursively_contains : option (gset MutableLocal);
}.
#[global] Instance Options_empty : Empty Options := mkOptions ∅ None None None.

(** [DataClassVariable.create].  The calls of [_patch_once] and [skip_code]
    only mark code objects as skipped and are left out. *)
Definition DataClassVariable_create (user_cls : UserCls) (args : list loc)
    (kwargs : list (string * loc)) (options : Options) : M loc :=
  match user_cls with
  | user_defined_cls c =>
      let keys := (cls_fields c).*1 in
      let* bound := lift (bind_signature (cls_fields c) args kwargs) in
      assert (bool_decide (list_to_set (bound.*1) =@{gset string} list_to_set keys))
        (let* items := create_items keys bound [] in
         let* unsupported :=
           bool_decide (length items = 1%nat) &&&
             (let* k0 := lift (index keys 0) in
              let* x := lift (OrderedDict.getitem items (PyStr k0)) in
              let* ox := deref x in
              ret (negb (isinstance_TensorVariable ox))) in
         if unsupported : bool then unimplemented "DataClassVariable iterator constructor"
         else construct (DataClassVariable items user_cls) (opt_guards options)
                (opt_source options) (opt_mutable_local options)
                (opt_recursively_contains options))
  | _ => raise (TypeError "must be called with a dataclass type or instance")
  end.

(** ** The special case for [sys.modules] *)

(** Modelled from the spec: [VariableTracker.make_guard] of [.base], for the
    membership guard: a guard on the source of the variable. *)
Definition make_DICT_CONTAINS_guard (self : loc) (k : PyValue) (invert : bool) : M Guard :=
  let* o := deref self in
  match source o with
  | Some src => ret (DICT_CONTAINS src k invert)
  | None => raise NotImplementedError
  end.

(** [PythonSysModulesVariable._contains_helper] *)
Definition _contains_helper (self : loc) (key : loc) : M (PyValue * bool * gset Guard) :=
  let* k := read (call_get_key [ArgVar key]) in
  let* has_key := read (λ s, OrderedDict.contains k (sys_modules s)) in
  let* guard := make_DICT_CONTAINS_guard self k (negb has_key) in
  let* o := deref self in
  let guards := guards o ∪ {[guard]} in
  ret (k, has_key, guards).

(** [PythonSysModulesVariable.call_contains] *)
Definition call_contains (self : loc) (key : loc) : M loc :=
  let* khg := _contains_helper self key in
  let '(k, has_key, guards) := khg in
  ConstantVariable_create (PyBool has_key) guards.

(** [VariableBuilder(tx, GetItemSource(self.source, k))(sys.modules[k])] *)
Definition wrap_module (self : loc) (k : PyValue) : M loc :=
  let* o := deref self in
  let* m := read (λ s, OrderedDict.getitem (sys_modules s) k) in
  match source o with
  | Some src => wrap (GetItemSource src k) m
  | None => raise (AttributeError "name")
  end.

(** [PythonSysModulesVariable.call_get] *)
Definition call_get (self : loc) (key : loc) (default : option loc) : M loc :=
  let* khg := _contains_helper self key in
  let '(k, has_key, guards) := khg in
  if has_key : bool then
    let* x := wrap_module self k in
    add_guards x guards
  else
    match default with
    | Some d => add_guards d guards
    | None => ConstantVariable_create PyNone guards
    end.

(** [PythonSysModulesVariable.call_getitem] *)
Definition call_getitem (self : loc) (key : loc) : M loc :=
  let* khg := _contains_helper self key in
  let '(k, has_key, guards) := khg in
  let* x := wrap_module self k in
  add_guards x guards.

(** [PythonSysModulesVariable.call_method], for positional arguments. *)
Definition PythonSysModulesVariable_call_method (self : loc) (name : string)
    (args : list loc) (kwargs : list (string * loc)) : M loc :=
  if String.eqb name "__getitem__" then
    match args, kwargs with
    | [key], [] => call_getitem self key
    | _, _ => raise (TypeError "call_getitem() arguments")
    end
  else if String.eqb name "get" then
    match args, kwargs with
    | [key], [] => call_get self key None
    | [key; default], [] => call_get self key (Some default)
    | _, _ => raise (TypeError "call_get() arguments")
    end
  else if String.eqb name "__contains__" then
    match args, kwargs with
    | [key], [] => call_contains self key
    | _, _ => raise (TypeError "call_contains() arguments")
    end
  else
    (* Fallback to dict implementation *)
    let* o := deref self in
    match source o with
    | Some src =>
        let* sys := read (λ s, Ok (PyDict (sys_modules s))) in
        let* real_dict := wrap src sys in
        let* od := deref real_dict in
        match cls od with
        | DefaultDictVariable _ _ _ =>
            DefaultDictVariable_call_method real_dict name args kwargs
        | ConstDictVariable _ _ =>
            ConstDictVariable_call_method real_dict name args kwargs
        | _ => VariableTracker_call_method real_dict name args kwargs
        end
    | None => raise (AttributeError "source")
    end.

End Dicts.

(** ** More methods of the mapping variables *)

Section MoreDicts.

Variable global_key_name : PyValue → string.
Variable VariableBuilder : Source → PyValue → VarObj.
Local Open Scope tx_scope.

(** [ConstDictVariable.unpack_var_sequence]: the variables of the keys. *)
Definition unpack_var_sequence (self : loc) : M (list loc) :=
  let* options := propagate [self] in
  let* o := deref self in
  let* val := lift (items_of o) in
  tx_mapM (λ k, _key_to_var global_key_name VariableBuilder k options) (OrderedDict.keys val).

(** [TupleVariable.call_method] of [.lists], which is not in this file, is
    used as an oracle. *)
Variable TupleVariable_call_method :
  loc → string → list loc → list (string * loc) → M loc.

(** The branch [to_tuple] of [DataClassVariable.call_method]. *)
Definition to_tuple (self : loc) (args : list loc) (kwargs : list (string * loc))
    (options : gset Guard) : M loc :=
  assert (bool_decide (args = []) && bool_decide (kwargs = []))
    (let* o := deref self in
     let* items := lift (items_of o) in
     construct (TupleVariable (OrderedDict.values items)) options None None None).

(** [DataClassVariable.call_method].  An index that is no string goes
    through [to_tuple] and the tuple's own [__getitem__]; [__setattr__] is
    passed on as [__setitem__]. *)
Definition DataClassVariable_call_method (self : loc) (name : string)
    (args : list loc) (kwargs : list (string * loc)) : M loc :=
  let* options := propagate (self :: args ++ kwargs.*2) in
  if String.eqb name "__getitem__" then
    assert (bool_decide (kwargs = []) && bool_decide (length args = 1%nat))
      (let* a0 := lift (index args 0) in
       let* index := read (as_python_constant a0) in
       match index with
       | PyStr _ =>
           let* o := deref self in
           let* items := lift (items_of o) in
           let* x := lift (OrderedDict.getitem items index) in
           add_options x options
       | _ =>
           let* t := (let* options' := propagate [self] in to_tuple self [] [] options') in
           let* r := TupleVariable_call_method t "__getitem__" args kwargs in
           add_options r options
       end)
  else if String.eqb name "to_tuple" then to_tuple self args kwargs options
  else
    let name := if String.eqb name "__setattr__" then "__setitem__" else name in
    ConstDictVariable_call_method global_key_name VariableBuilder self name args kwargs.
End MoreDicts.

(** * Properties *)

#[local] Set Warnings "-clear-no-such-hyp".

(** ** Keys and ordered dictionaries *)

Lemma py_eqb_refl (k : PyValue) : hashable k = true → py_eqb k k = true.
Proof.
  induction k as [| | | | | | | | |vs IH|es IH] using PyValue_nested_ind;
    cbn; intros Hh; try (by apply bool_decide_eq_true_2); try done.
  induction IH as [|x l Hx Hl IHl]; [done|].
  cbn in Hh. apply andb_prop in Hh as [Hhx Hhl].
  rewrite (Hx Hhx). cbn. by apply IHl.
Qed.

Lemma find_set_eq {V} (k : PyValue) (x : V) (d : OrderedDict.t V) :
  hashable k = true → OrderedDict.find k (OrderedDict.set k x d) = Some x.
Proof.
  intros Hk. induction d as [|[k' y] d IH]; cbn.
  - by rewrite py_eqb_refl.
  - destruct (py_eqb k' k) eqn:E; cbn; rewrite E; [done|apply IH].
Qed.

Lemma getitem_setitem {V} (k : PyValue) (x : V) (d d' : OrderedDict.t V) :
  OrderedDict.setitem d k x = Ok d' → OrderedDict.getitem d' k = Ok x.
Proof.
  unfold OrderedDict.setitem, OrderedDict.getitem.
  destruct (hashable k) eqn:Hk; [|done].
  intros [= <-]. by rewrite find_set_eq.
Qed.

Lemma set_absent {V} (k : PyValue) (x : V) (d : OrderedDict.t V) :
  OrderedDict.find k d = None → OrderedDict.set k x d = d ++ [(k, x)].
Proof.
  induction d as [|[k' y] d IH]; cbn; [done|].
  destruct (py_eqb k' k); [done|]. intros H. by rewrite IH.
Qed.

Lemma values_set_subseteq {V} (k : PyValue) (x : V) (d : OrderedDict.t V) :
  OrderedDict.values (OrderedDict.set k x d) ⊆ x :: OrderedDict.values d.
Proof.
  induction d as [|[k' y] d IH]; cbn.
  - set_solver.
  - destruct (py_eqb k' k); cbn; set_solver.
Qed.

Lemma values_remove_subseteq {V} (k : PyValue) (d : OrderedDict.t V) :
  OrderedDict.values (OrderedDict.remove k d) ⊆ OrderedDict.values d.
Proof.
  induction d as [|[k' y] d IH]; cbn; [done|].
  destruct (py_eqb k' k); cbn; set_solver.
Qed.

Lemma values_update_subseteq {V} (d other : OrderedDict.t V) :
  OrderedDict.values (OrderedDict.update d other)
    ⊆ OrderedDict.values d ++ OrderedDict.values other.
Proof.
  unfold OrderedDict.update. revert d.
  induction other as [|[k x] other IH]; intros d; cbn.
  - set_solver.
  - etrans; [apply IH|]. pose proof (values_set_subseteq k x d). set_solver.
Qed.

(** ** The monad *)

Lemma bind_Ok {A B} (m : M A) (f : A → M B) (s s' : Tx) (a : A) :
  m s = (Ok a, s') → bind m f s = f a s'.
Proof. unfold bind. by intros ->. Qed.

Lemma bind_Err {A B} (m : M A) (f : A → M B) (s s' : Tx) (e : Exn) :
  m s = (Err e, s') → bind m f s = (Err e, s').
Proof. unfold bind. by intros ->. Qed.

Lemma deref_in_Some (h : list VarObj) (l : loc) (o : VarObj) :
  h !! l = Some o → deref_in h l = Ok o.
Proof. unfold deref_in. by intros ->. Qed.

Lemma deref_Some (s : Tx) (l : loc) (o : VarObj) :
  heap s !! l = Some o → deref l s = (Ok o, s).
Proof. unfold deref, read. intros H. by rewrite (deref_in_Some _ _ _ H). Qed.

Lemma bind_ret {A B} (a : A) (f : A → M B) (s : Tx) : bind (ret a) f s = f a s.
Proof. reflexivity. Qed.

Lemma bind_lift {A B} (r : Res A) (f : A → M B) (s : Tx) (a : A) :
  r = Ok a → bind (lift r) f s = f a s.
Proof. by intros ->. Qed.

Lemma bind_read {A B} (g : Tx → Res A) (f : A → M B) (s : Tx) (a : A) :
  g s = Ok a → bind (read g) f s = f a s.
Proof. unfold bind, read. by intros ->. Qed.

Lemma bind_deref {B} (l : loc) (f : VarObj → M B) (s : Tx) (o : VarObj) :
  heap s !! l = Some o → bind (deref l) f s = f o s.
Proof. intros H. by rewrite (bind_Ok _ _ _ _ _ (deref_Some _ _ _ H)). Qed.

(** ** The store *)

Definition allocated (h : list VarObj) (l : loc) : Prop := is_Some (h !! l).

Definition guards_at (h : list VarObj) (l : loc) : gset Guard :=
  from_option guards ∅ (h !! l).
Definition contribution_at (h : list VarObj) (l : loc) : gset MutableLocal :=
  from_option contribution ∅ (h !! l).

Lemma res_mapM_deref {A} (f : VarObj → A) (g : loc → A) (h : list VarObj) (ls : list loc) :
  (∀ l o, h !! l = Some o → g l = f o) →
  Forall (allocated h) ls →
  res_mapM (λ l, f <$> deref_in h l) ls = Ok (g <$> ls).
Proof.
  intros Hg. induction 1 as [|l ls [o Ho] _ IH]; [done|].
  cbn. rewrite (deref_in_Some _ _ _ Ho). cbn. rewrite IH. cbn.
  by rewrite (Hg _ _ Ho).
Qed.

Lemma propagate_in_allocated (h : list VarObj) (ls : list loc) :
  Forall (allocated h) ls → propagate_in h ls = Ok (⋃ (guards_at h <$> ls)).
Proof.
  intros H. unfold propagate_in.
  rewrite (res_mapM_deref guards (guards_at h)); [done| |done].
  intros l o Ho. unfold guards_at. by rewrite Ho.
Qed.

Lemma reachable_in_allocated (h : list VarObj) (c : VarClass) :
  Forall (allocated h) (children c) →
  reachable_in h c = Ok (⋃ (contribution_at h <$> children c)).
Proof.
  intros H. unfold reachable_in.
  rewrite (res_mapM_deref contribution (contribution_at h)); [done| |done].
  intros l o Ho. unfold contribution_at. by rewrite Ho.
Qed.

Lemma propagate_allocated (s : Tx) (ls : list loc) :
  Forall (allocated (heap s)) ls →
  propagate ls s = (Ok (⋃ (guards_at (heap s) <$> ls)), s).
Proof. intros H. unfold propagate, read. by rewrite propagate_in_allocated. Qed.

Lemma allocated_Some (h : list VarObj) (l : loc) (o : VarObj) :
  h !! l = Some o → allocated h l.
Proof. by exists o. Qed.

Lemma allocated_app (h h' : list VarObj) (l : loc) :
  allocated h l → allocated (h ++ h') l.
Proof. intros [o Ho]. exists o. by apply lookup_app_l_Some. Qed.

Lemma allocated_lt (h : list VarObj) (l : loc) : allocated h l → (l < length h)%nat.
Proof. intros [o Ho]. by eapply lookup_lt_Some. Qed.

Lemma bind_assoc {A B C} (m : M A) (f : A → M B) (g : B → M C) (s : Tx) :
  bind (bind m f) g s = bind m (λ a, bind (f a) g) s.
Proof. unfold bind. destruct (m s) as [[a|e] s']; [|done]. done. Qed.

(** ** Construction *)

(** The checks of the constructors on [user_cls]. *)
Definition class_ok (c : VarClass) : bool :=
  match c with
  | DefaultDictVariable _ u _ => bool_decide (u = defaultdict_cls)
  | DataClassVariable _ u => is_matching_cls u
  | _ => true
  end.

(** A variable is well formed in a store when the variables it holds are in
    the store and its class passes the checks of its constructor. *)
Definition wf_var (h : list VarObj) (o : VarObj) : Prop :=
  Forall (allocated h) (children (cls o)) ∧ class_ok (cls o) = true.

(** The object that a constructor makes. *)
Definition constructed (h : list VarObj) (c : VarClass) (g : gset Guard)
    (src : option Source) (ml : option MutableLocal)
    (rc : option (gset MutableLocal)) : VarObj :=
  mkVar c
    (match c with
     | ConstDictVariable items _
     | DefaultDictVariable items _ _
     | DataClassVariable items _ => g ∪ ⋃ (guards_at h <$> OrderedDict.values items)
     | _ => g
     end)
    src ml
    (match rc with
     | Some r => r
     | None => ⋃ (contribution_at h <$> children c)
     end).

Lemma construct_in_constructed h c g src ml rc :
  Forall (allocated h) (children c) → class_ok c = true →
  construct_in h c g src ml rc = Ok (constructed h c g src ml rc).
Proof.
  intros Hch Hok. unfold construct_in, constructed.
  assert ((match rc with
           | Some r => Ok r
           | None => reachable_in h c
           end) = Ok (match rc with
                      | Some r => r
                      | None => ⋃ (contribution_at h <$> children c)
                      end)) as ->.
  { destruct rc; [done|]. by apply reachable_in_allocated. }
  cbn. destruct c; cbn in *; try done;
    rewrite (propagate_in_allocated _ _ Hch); cbn; try done;
    by rewrite Hok.
Qed.

Lemma construct_spec s c g src ml rc :
  Forall (allocated (heap s)) (children c) → class_ok c = true →
  construct c g src ml rc s =
    (Ok (length (heap s)),
     set_heap (heap s ++ [constructed (heap s) c g src ml rc]) s).
Proof.
  intros Hch Hok. unfold construct.
  rewrite (bind_read _ _ _ (constructed (heap s) c g src ml rc));
    [done|by apply construct_in_constructed].
Qed.

(** The copy that [add_guards] makes. *)
Definition with_guards (h : list VarObj) (o : VarObj) (g : gset Guard) : VarObj :=
  constructed h (cls o) (guards o ∪ g) (source o) (mutable_local o)
    (Some (recursively_contains o)).

Lemma add_guards_spec s l o g :
  heap s !! l = Some o → wf_var (heap s) o →
  add_guards l g s =
    (Ok (length (heap s)), set_heap (heap s ++ [with_guards (heap s) o g]) s).
Proof.
  intros Hl [Hch Hok]. unfold add_guards.
  rewrite (bind_deref _ _ _ _ Hl). by apply construct_spec.
Qed.

Lemma with_guards_same h o g :
  cls (with_guards h o g) = cls o ∧
  source (with_guards h o g) = source o ∧
  mutable_local (with_guards h o g) = mutable_local o ∧
  recursively_contains (with_guards h o g) = recursively_contains o ∧
  guards o ∪ g ⊆ guards (with_guards h o g).
Proof.
  unfold with_guards, constructed. cbn. repeat split.
  destruct (cls o); set_solver.
Qed.

(** [with_items] on the classes that have items. *)
Lemma children_with_items items c :
  is_ConstDictVariable c = true →
  children (with_items items c) = OrderedDict.values items.
Proof. by destruct c. Qed.

Lemma class_ok_with_items items c : class_ok (with_items items c) = class_ok c.
Proof. by destruct c. Qed.

Lemma class_items_with_items items c :
  is_ConstDictVariable c = true →
  class_items (with_items items c) = Ok items.
Proof. by destruct c. Qed.

Lemma class_items_children c items :
  class_items c = Ok items → children c = OrderedDict.values items.
Proof. destruct c; cbn; congruence. Qed.

Lemma class_items_is_ConstDictVariable c items :
  class_items c = Ok items → is_ConstDictVariable c = true.
Proof. by destruct c. Qed.

(** ** Reading through a changed store *)

(** [h'] keeps the objects of [h] and their classes: it may hold more
    objects, and attributes other than the class may differ. *)
Definition heap_agree (h h' : list VarObj) : Prop :=
  ∀ l o, h !! l = Some o → ∃ o', h' !! l = Some o' ∧ cls o' = cls o.

Lemma heap_agree_app h ext : heap_agree h (h ++ ext).
Proof. intros l o Ho. exists o. split; [by apply lookup_app_l_Some|done]. Qed.

Lemma heap_agree_alter_mutable_local h v m :
  heap_agree h (alter (set_mutable_local m) v h).
Proof.
  intros l o Ho. destruct (decide (l = v)) as [->|Hne].
  - exists (set_mutable_local m o). split; [|done].
    rewrite list_lookup_alter_eq, Ho. done.
  - exists o. split; [|done]. by rewrite list_lookup_alter_ne.
Qed.

Lemma heap_agree_trans h1 h2 h3 :
  heap_agree h1 h2 → heap_agree h2 h3 → heap_agree h1 h3.
Proof.
  intros H12 H23 l o Ho.
  destruct (H12 _ _ Ho) as (o2 & Ho2 & Hc2).
  destruct (H23 _ _ Ho2) as (o3 & Ho3 & Hc3).
  exists o3. split; [done|congruence].
Qed.

Lemma res_mapM_impl {A B} (f g : A → Res B) (l : list A) (ys : list B) :
  (∀ x y, f x = Ok y → g x = Ok y) →
  res_mapM f l = Ok ys → res_mapM g l = Ok ys.
Proof.
  intros Hfg. revert ys. induction l as [|x l IH]; intros ys; cbn; [done|].
  destruct (f x) as [y|e] eqn:Hx; [|done]. cbn.
  destruct (res_mapM f l) as [ys'|e] eqn:Hl; [|done]. cbn.
  intros [= <-]. rewrite (Hfg _ _ Hx). cbn. by rewrite (IH ys').
Qed.

Lemma as_python_constant_in_agree depth h h' l v :
  heap_agree h h' →
  as_python_constant_in depth h l = Ok v →
  as_python_constant_in depth h' l = Ok v.
Proof.
  intros Hag. revert l v.
  assert (∀ (child child' : loc → Res PyValue) l v,
            (∀ c x, child c = Ok x → child' c = Ok x) →
            (o ← deref_in h l;
             match cls o with
             | ConstantVariable v => Ok v
             | TupleVariable es => PyTuple <$> res_mapM child es
             | ConstDictVariable items _
             | DefaultDictVariable items _ _
             | DataClassVariable items _ =>
                 PyDict <$> res_mapM (λ e, x ← child e.2; Ok (e.1, x)) items
             | BuiltinVariable fn => Ok (PyBuiltin fn)
             | _ => Err NotImplementedError
             end) = Ok v →
            (o ← deref_in h' l;
             match cls o with
             | ConstantVariable v => Ok v
             | TupleVariable es => PyTuple <$> res_mapM child' es
             | ConstDictVariable items _
             | DefaultDictVariable items _ _
             | DataClassVariable items _ =>
                 PyDict <$> res_mapM (λ e, x ← child' e.2; Ok (e.1, x)) items
             | BuiltinVariable fn => Ok (PyBuiltin fn)
             | _ => Err NotImplementedError
             end) = Ok v) as Hstep.
  { intros child child' l v Hc. unfold deref_in.
    destruct (h !! l) as [o|] eqn:Ho; [|done].
    destruct (Hag _ _ Ho) as (o' & -> & Hcls). cbn. rewrite Hcls.
    assert (∀ items ys,
              res_mapM (λ e : PyValue * loc, x ← child e.2; Ok (e.1, x)) items = Ok ys →
              res_mapM (λ e : PyValue * loc, x ← child' e.2; Ok (e.1, x)) items = Ok ys)
      as Hitems.
    { intros items ys. apply res_mapM_impl. intros e y.
      destruct (child e.2) as [x|] eqn:Hx; [|done]. cbn. intros [= <-].
      by rewrite (Hc _ _ Hx). }
    destruct (cls o) as [| | |es| |items u|items u f|items u| | |]; try done.
    - destruct (res_mapM child es) as [ys|] eqn:Hes; [|done].
      by rewrite (res_mapM_impl _ _ _ _ Hc Hes).
    - destruct (res_mapM _ items) as [ys|] eqn:Hes; [|done].
      by rewrite (Hitems _ _ Hes).
    - destruct (res_mapM _ items) as [ys|] eqn:Hes; [|done].
      by rewrite (Hitems _ _ Hes).
    - destruct (res_mapM _ items) as [ys|] eqn:Hes; [|done].
      by rewrite (Hitems _ _ Hes). }
  induction depth as [|d IH]; intros l v; cbn [as_python_constant_in].
  - apply Hstep. done.
  - apply Hstep. exact IH.
Qed.

Lemma call_get_key_agree s s' k nk :
  heap_agree (heap s) (heap s') →
  nn_modules s' = nn_modules s →
  recursion_limit s' = recursion_limit s →
  call_get_key [ArgTx; ArgVar k] s = Ok nk →
  call_get_key [ArgTx; ArgVar k] s' = Ok nk.
Proof.
  intros Hag Hnn Hrl. cbn. unfold deref_in.
  destruct (heap s !! k) as [o|] eqn:Ho; [|done].
  destruct (Hag _ _ Ho) as (o' & -> & Hcls). cbn. rewrite Hcls.
  unfold as_python_constant. rewrite Hnn, Hrl.
  destruct (cls o) as [|[sv|]|key| | | | | | | |]; try done;
    by apply as_python_constant_in_agree.
Qed.

Lemma is_valid_key_allocated s k b : is_valid_key k s = Ok b → allocated (heap s) k.
Proof.
  unfold is_valid_key, deref_in, allocated.
  destruct (heap s !! k); [by eexists|done].
Qed.

(** ** The identity of mutable variables *)

(** [MutableLocal()] makes an identity that no variable holds.  The store
    keeps this as an invariant of the counter of the tracer: every
    [MutableLocal] that an object holds, as its own or in its
    [recursively_contains], was made before, so it is below the counter. *)
Definition tokens_below (n : MutableLocal) (o : VarObj) : Prop :=
  ∀ m, m ∈ contribution o → (m < n)%nat.
Definition tokens_fresh (s : Tx) : Prop :=
  Forall (tokens_below (next_mutable_local s)) (heap s).

(** No object of the store holds [m], neither as its own [MutableLocal] nor
    in its [recursively_contains]. *)
Definition unused (h : list VarObj) (m : MutableLocal) : Prop :=
  ∀ l o, h !! l = Some o → mutable_local o ≠ Some m ∧ m ∉ recursively_contains o.

(** The executable check of the invariant. *)
Definition check_tokens (s : Tx) : bool :=
  forallb (λ o, forallb (λ m, bool_decide (m < next_mutable_local s)%nat)
                  (elements (contribution o)))
    (heap s).

Lemma check_tokens_sound s : check_tokens s = true → tokens_fresh s.
Proof.
  unfold check_tokens, tokens_fresh. intros Hc.
  apply list.Forall_forall. intros o Ho m Hm.
  rewrite forallb_forall in Hc. apply list_elem_of_In in Ho.
  specialize (Hc _ Ho). rewrite forallb_forall in Hc.
  apply elem_of_elements, list_elem_of_In in Hm.
  specialize (Hc _ Hm). by apply bool_decide_eq_true_1 in Hc.
Qed.

Lemma tokens_below_lookup n (h : list VarObj) l o :
  Forall (tokens_below n) h → h !! l = Some o → tokens_below n o.
Proof.
  intros Hf Hl. eapply list.Forall_forall; [exact Hf|].
  by eapply list_elem_of_lookup_2.
Qed.

Lemma tokens_below_mono n n' o : (n ≤ n')%nat → tokens_below n o → tokens_below n' o.
Proof. intros Hle Hb m Hm. specialize (Hb m Hm). lia. Qed.

Lemma tokens_below_own n o m : tokens_below n o → mutable_local o = Some m → (m < n)%nat.
Proof.
  intros Hb Hm. apply Hb. unfold contribution. rewrite Hm.
  apply elem_of_union. right. by apply elem_of_singleton.
Qed.

Lemma tokens_below_contained n o m :
  tokens_below n o → m ∈ recursively_contains o → (m < n)%nat.
Proof. intros Hb Hm. apply Hb. unfold contribution. apply elem_of_union. by left. Qed.

Lemma tokens_below_intro n o :
  (∀ m, mutable_local o = Some m → (m < n)%nat) →
  (∀ m, m ∈ recursively_contains o → (m < n)%nat) →
  tokens_below n o.
Proof.
  intros Hown Hrc m Hm. unfold contribution in Hm.
  apply elem_of_union in Hm as [Hm|Hm]; [by apply Hrc|].
  destruct (mutable_local o) as [m'|].
  - apply elem_of_singleton in Hm as ->. by apply Hown.
  - by apply elem_of_empty in Hm.
Qed.

(** The counter is not the [MutableLocal] of any object. *)
Lemma tokens_fresh_unused s : tokens_fresh s → unused (heap s) (next_mutable_local s).
Proof.
  intros Hf l o Ho. pose proof (tokens_below_lookup _ _ _ _ Hf Ho) as Hb. split.
  - intros Hm. pose proof (tokens_below_own _ _ _ Hb Hm). lia.
  - intros Hm. pose proof (tokens_below_contained _ _ _ Hb Hm). lia.
Qed.

Lemma tokens_below_set_mutable_local n o :
  tokens_below n o → tokens_below (S n) (set_mutable_local (Some n) o).
Proof.
  intros Hb. apply tokens_below_intro; cbn.
  - intros m [= <-]. lia.
  - intros m Hm. pose proof (tokens_below_contained _ _ _ Hb Hm). lia.
Qed.

Lemma tokens_below_alter n (h : list VarObj) v o :
  Forall (tokens_below n) h → h !! v = Some o →
  Forall (tokens_below (S n)) (alter (set_mutable_local (Some n)) v h).
Proof.
  intros Hf Hv. apply list.Forall_forall. intros o1 Ho1.
  apply list_elem_of_lookup_1 in Ho1 as [l Hl].
  destruct (decide (l = v)) as [->|Hne].
  - rewrite list_lookup_alter_eq, Hv in Hl. injection Hl as <-.
    apply tokens_below_set_mutable_local. by eapply tokens_below_lookup.
  - rewrite list_lookup_alter_ne in Hl by done.
    eapply (tokens_below_mono n); [lia|]. by eapply tokens_below_lookup.
Qed.

Lemma tokens_below_snoc n (h : list VarObj) o :
  Forall (tokens_below n) h → tokens_below n o → Forall (tokens_below n) (h ++ [o]).
Proof. intros Hf Ho. apply Forall_app_2; [done|]. by apply Forall_cons_2. Qed.

(** The union of what the objects at [ls] contribute is below the counter. *)
Lemma tokens_below_contribution_at n (h : list VarObj) (ls : list loc) m :
  Forall (tokens_below n) h → m ∈ ⋃ (contribution_at h <$> ls) → (m < n)%nat.
Proof.
  intros Hf Hm. apply elem_of_union_list in Hm as (X & HX & Hm).
  apply list_elem_of_fmap in HX as (l & -> & _).
  unfold contribution_at in Hm. destruct (h !! l) as [o|] eqn:Hl; cbn in Hm.
  - by apply (tokens_below_lookup _ _ _ _ Hf Hl).
  - by apply elem_of_empty in Hm.
Qed.

(** ** What the method calls compute *)

Section Verification.

Variable global_key_name : PyValue → string.
Variable VariableBuilder : Source → PyValue → VarObj.
Variable call_function : VarObj → MutableLocal → Res VarObj.
Variable format : PyValue → string.

Local Open Scope tx_scope.

(** The substitution that [replace_all] applies to the live table. *)
Definition subst_loc (old new : loc) (l : loc) : loc :=
  if bool_decide (l = old) then new else l.

Lemma replace_all_spec old new s :
  replace_all old new s = (Ok new, set_stack (subst_loc old new <$> stack s) s).
Proof. reflexivity. Qed.

Lemma modifed_spec s v o items rc options :
  heap s !! v = Some o →
  is_ConstDictVariable (cls o) = true → class_ok (cls o) = true →
  Forall (allocated (heap s)) (OrderedDict.values items) →
  modifed v items rc options s =
    (Ok (length (heap s)),
     set_heap (heap s ++ [constructed (heap s) (with_items items (cls o)) options
                            (source o) (mutable_local o) rc]) s).
Proof.
  intros Hv Hd Hok Hch. unfold modifed.
  rewrite (bind_deref _ _ _ _ Hv).
  apply construct_spec.
  - by rewrite children_with_items.
  - by rewrite class_ok_with_items.
Qed.

(** The [recursively_contains] that the insertion of [ox] into [o] gives. *)
Definition new_rec_contains (o ox : VarObj) : gset MutableLocal :=
  match mutable_local ox with
  | Some m => recursively_contains o ∪ recursively_contains ox ∪ {[m]}
  | None => recursively_contains o ∪ recursively_contains ox
  end.

Lemma new_rec_contains_contribution o ox :
  new_rec_contains o ox = recursively_contains o ∪ contribution ox.
Proof.
  unfold new_rec_contains, contribution.
  destruct (mutable_local ox).
  - by rewrite (assoc_L (∪)).
  - by rewrite (right_id_L ∅ (∪)).
Qed.

(** The copy of [o] that the insertion of [ox] produces. *)
Definition setitem_result (h : list VarObj) (o ox : VarObj) (newval : OrderedDict.t loc)
    (options : gset Guard) : VarObj :=
  constructed h (with_items newval (cls o)) options (source o) (mutable_local o)
    (Some (new_rec_contains o ox)).

Lemma setitem_body_spec s v k x o ox val nk options :
  heap s !! v = Some o → heap s !! x = Some ox →
  is_ConstDictVariable (cls o) = true → class_ok (cls o) = true →
  hashable nk = true →
  Forall (allocated (heap s)) (OrderedDict.values val) →
  setitem_body v val nk [k; x] options s =
    (Ok (length (heap s)),
     set_stack (subst_loc v (length (heap s)) <$> stack s)
       (set_heap (heap s ++ [setitem_result (heap s) o ox (OrderedDict.set nk x val)
                               options]) s)).
Proof.
  intros Hv Hx Hd Hok Hh Hval.
  unfold setitem_body.
  rewrite (bind_lift _ _ _ x) by done.
  unfold OrderedDict.setitem. rewrite Hh.
  rewrite (bind_lift _ _ _ _ eq_refl).
  rewrite (bind_deref _ _ _ _ Hv), (bind_deref _ _ _ _ Hx).
  erewrite bind_Ok; [|apply (modifed_spec _ _ o); try done].
  - done.
  - apply list.Forall_forall. intros c Hc.
    apply values_set_subseteq in Hc. apply elem_of_cons in Hc as [->|Hc].
    + by exists ox.
    + by eapply list.Forall_forall in Hval.
Qed.

(** The state after the weak reference of a key is stored, when the key
    needs one. *)
Definition store_key (nk : PyValue) (s : Tx) : Tx :=
  if is_valid_global_ref_key nk
  then register_weakref (global_key_name nk) nk s
  else s.

Lemma heap_store_key nk s : heap (store_key nk s) = heap s.
Proof.
  unfold store_key, register_weakref.
  destruct (is_valid_global_ref_key nk); [|done]. by destruct (bool_decide _).
Qed.
Lemma stack_store_key nk s : stack (store_key nk s) = stack s.
Proof.
  unfold store_key, register_weakref.
  destruct (is_valid_global_ref_key nk); [|done]. by destruct (bool_decide _).
Qed.
Lemma calls_store_key nk s : calls (store_key nk s) = calls s.
Proof.
  unfold store_key, register_weakref.
  destruct (is_valid_global_ref_key nk); [|done]. by destruct (bool_decide _).
Qed.
Lemma next_mutable_local_store_key nk s :
  next_mutable_local (store_key nk s) = next_mutable_local s.
Proof.
  unfold store_key, register_weakref.
  destruct (is_valid_global_ref_key nk); [|done]. by destruct (bool_decide _).
Qed.

Lemma store_global_weakref_spec {B} nk (f : unit → M B) s :
  bind (if is_valid_global_ref_key nk
        then store_global_weakref (global_key_name nk) nk
        else ret ()) f s = f () (store_key nk s).
Proof. unfold store_key. by destruct (is_valid_global_ref_key nk). Qed.

Lemma store_dict_key_spec {B} nk (f : unit → M B) s :
  bind (if is_valid_global_ref_key nk
        then store_dict_key (global_key_name nk) nk
        else ret ()) f s = f () (store_key nk s).
Proof. unfold store_key. by destruct (is_valid_global_ref_key nk). Qed.

(** The tests on the method name are decided by computation. *)
Ltac name_dispatch :=
  cbn [elif_chain String.eqb Ascii.eqb Bool.eqb and_then orb andb];
  rewrite ?bind_ret; cbv beta iota.

(** The start of [ConstDictVariable.call_method]: the options, and the
    items of [self]. *)
Ltac prelude Hv Hitems :=
  unfold ConstDictVariable_call_method;
  erewrite bind_Ok;
    [|apply propagate_allocated;
      repeat first [apply Forall_nil_2 | apply Forall_cons_2];
      by eauto using allocated_Some];
  rewrite (bind_deref _ _ _ _ Hv);
  rewrite (bind_lift _ _ _ _ Hitems);
  name_dispatch.

(** [__setitem__] on a mutable variable. *)
Lemma setitem_mutable_spec s v k x o ox items nk :
  heap s !! v = Some o → heap s !! x = Some ox →
  class_items (cls o) = Ok items → class_ok (cls o) = true →
  is_Some (mutable_local o) →
  Forall (allocated (heap s)) (OrderedDict.values items) →
  is_valid_key k s = Ok true →
  call_get_key [ArgTx; ArgVar k] s = Ok nk →
  hashable nk = true →
  ConstDictVariable_call_method global_key_name VariableBuilder v "__setitem__" [k; x] [] s =
    (Ok (length (heap s)),
     set_stack (subst_loc v (length (heap s)) <$> stack s)
       (set_heap (heap s ++ [setitem_result (heap s) o ox (OrderedDict.set nk x items)
                               (⋃ (guards_at (heap s) <$> [v; k; x]))])
          (store_key nk s))).
Proof.
  intros Hv Hx Hitems Hok Hm Hch Hvalid Hkey Hh.
  pose proof (is_valid_key_allocated _ _ _ Hvalid) as Hk.
  prelude Hv Hitems.
  rewrite bind_assoc. unfold args_and_is_valid_key.
  rewrite (bind_read _ _ _ true) by done. rewrite bind_ret.
  rewrite (bool_decide_eq_true_2 _ Hm). cbn [andb].
  unfold assert.
  rewrite !bool_decide_eq_true_2 by done. cbn [andb].
  rewrite (bind_lift _ _ _ k) by done.
  rewrite (bind_read _ _ _ nk) by done.
  rewrite store_global_weakref_spec.
  rewrite (setitem_body_spec _ _ _ _ o ox);
    rewrite ?heap_store_key, ?stack_store_key; try done.
  by eapply class_items_is_ConstDictVariable.
Qed.

Lemma allocated_alter (h : list VarObj) (f : VarObj → VarObj) (v l : loc) :
  allocated (alter f v h) l ↔ allocated h l.
Proof.
  unfold allocated. rewrite !lookup_lt_is_Some. by rewrite length_alter.
Qed.

Lemma guards_at_alter_mutable_local h v m l :
  guards_at (alter (set_mutable_local m) v h) l = guards_at h l.
Proof.
  unfold guards_at. destruct (decide (l = v)) as [->|Hne].
  - rewrite list_lookup_alter_eq. by destruct (h !! v).
  - by rewrite list_lookup_alter_ne.
Qed.

(** [__setitem__] on a variable that is not mutable: it is first given a
    new [MutableLocal], in place. *)
Lemma setitem_immutable_spec s v k x o ox1 items nk :
  let m := next_mutable_local s in
  let h1 := alter (set_mutable_local (Some m)) v (heap s) in
  let s1 := store_key nk (set_heap h1 (set_next_mutable_local (S m) s)) in
  heap s !! v = Some o → h1 !! x = Some ox1 →
  class_items (cls o) = Ok items → class_ok (cls o) = true →
  mutable_local o = None →
  Forall (allocated (heap s)) (OrderedDict.values items) →
  is_valid_key k s = Ok true →
  call_get_key [ArgTx; ArgVar k] s = Ok nk →
  hashable nk = true →
  ConstDictVariable_call_method global_key_name VariableBuilder v "__setitem__" [k; x] [] s =
    (Ok (length (heap s)),
     set_stack (subst_loc v (length (heap s)) <$> stack s)
       (set_heap (h1 ++ [setitem_result h1 (set_mutable_local (Some m) o) ox1
                           (OrderedDict.set nk x items)
                           (⋃ (guards_at (heap s) <$> [v; k; x]))])
          s1)).
Proof.
  intros m h1 s1 Hv Hx Hitems Hok Hm Hch Hvalid Hkey Hh.
  pose proof (is_valid_key_allocated _ _ _ Hvalid) as Hk.
  assert (allocated (heap s) x) as Hxa.
  { eapply allocated_alter. by eexists. }
  prelude Hv Hitems.
  rewrite bind_assoc. unfold args_and_is_valid_key.
  rewrite (bind_read _ _ _ true) by done. rewrite bind_ret.
  rewrite Hm. rewrite bool_decide_eq_false_2 by (by intros [? ?]).
  cbn [andb]. name_dispatch.
  rewrite (bind_read _ _ _ true) by done.
  unfold new_MutableLocal at 1.
  unfold bind at 1. cbv beta iota. fold m.
  unfold bind at 1. cbv beta iota.
  unfold assert.
  rewrite !bool_decide_eq_true_2 by done. cbn [andb].
  rewrite (bind_lift _ _ _ k) by done.
  assert (heap (set_heap (alter (set_mutable_local (Some m)) v
                 (heap (set_next_mutable_local (S m) s)))
                 (set_next_mutable_local (S m) s)) = h1) as Hh1 by done.
  erewrite bind_read; last first.
  { eapply (call_get_key_agree s); [|done|done|exact Hkey].
    rewrite Hh1. apply heap_agree_alter_mutable_local. }
  rewrite store_dict_key_spec.
  match goal with
  | |- context [store_key nk ?z] => change (store_key nk z) with s1
  end.
  assert (heap s1 = h1) as Hs1 by (unfold s1; by rewrite heap_store_key).
  assert (stack s1 = stack s) as Hst by (unfold s1; by rewrite stack_store_key).
  rewrite (setitem_body_spec _ _ _ _ (set_mutable_local (Some m) o) ox1);
    rewrite ?Hs1, ?Hst; try done.
  - unfold h1. by rewrite length_alter.
  - unfold h1. by rewrite list_lookup_alter_eq, Hv.
  - cbn. by eapply class_items_is_ConstDictVariable.
  - eapply list.Forall_impl; [exact Hch|]. intros c Hc. by apply allocated_alter.
Qed.


Lemma propagate_call s (v : loc) (args : list loc) :
  Forall (allocated (heap s)) (v :: args) →
  propagate (v :: args ++ (@nil (string * loc)).*2) s =
    (Ok (⋃ (guards_at (heap s) <$> v :: args)), s).
Proof.
  intros Hall. cbn [fmap list_fmap]. rewrite app_nil_r.
  by apply propagate_allocated.
Qed.

Ltac prelude_with Hall Hv Hitems :=
  unfold ConstDictVariable_call_method;
  rewrite (bind_Ok _ _ _ _ _ (propagate_call _ _ _ Hall));
  rewrite (bind_deref _ _ _ _ Hv);
  rewrite (bind_lift _ _ _ _ Hitems);
  name_dispatch.

Lemma Forall_allocated_args s (v : loc) (args : list loc) (o : VarObj) :
  heap s !! v = Some o →
  Forall (allocated (heap s)) args →
  Forall (allocated (heap s)) (v :: args).
Proof. intros Hv Hargs. apply Forall_cons_2; [by eexists|done]. Qed.

(** [pop(k)] and [pop(k, default)] of a present key on a mutable variable. *)
Lemma pop_present_mutable_spec s v k rest o r or items nk :
  let options := ⋃ (guards_at (heap s) <$> v :: k :: rest) in
  let o2 := constructed (heap s) (with_items (OrderedDict.remove nk items) (cls o))
              options (source o) (mutable_local o) None in
  let s2 := set_stack (subst_loc v (length (heap s)) <$> stack s)
              (set_heap (heap s ++ [o2]) s) in
  heap s !! v = Some o → heap s !! r = Some or →
  Forall (allocated (heap s)) rest →
  class_items (cls o) = Ok items → class_ok (cls o) = true →
  is_Some (mutable_local o) →
  Forall (allocated (heap s)) (OrderedDict.values items) →
  wf_var (heap s) or →
  is_valid_key k s = Ok true →
  call_get_key [ArgTx; ArgVar k] s = Ok nk →
  hashable nk = true →
  OrderedDict.find nk items = Some r →
  ConstDictVariable_call_method global_key_name VariableBuilder v "pop" (k :: rest) [] s =
    (Ok (S (length (heap s))),
     set_heap (heap s2 ++ [with_guards (heap s2) or options]) s2).
Proof.
  intros options o2 s2 Hv Hr Hrest Hitems Hok Hm Hch Hwf Hvalid Hkey Hh Hfind.
  pose proof (is_valid_key_allocated _ _ _ Hvalid) as Hk.
  assert (Forall (allocated (heap s)) (v :: k :: rest)) as Hall.
  { eapply Forall_allocated_args; [done|]. by apply Forall_cons_2. }
  prelude_with Hall Hv Hitems. fold options.
  rewrite bind_assoc. unfold args_and_is_valid_key.
  rewrite (bind_read _ _ _ true) by done.
  cbn [and_then]. rewrite bind_assoc. unfold key_in_items.
  rewrite !bind_assoc, (bind_lift _ _ _ k) by done.
  rewrite !bind_assoc, (bind_read _ _ _ nk) by done.
  rewrite (bind_lift _ _ _ true); last first.
  { unfold OrderedDict.contains. rewrite Hh, Hfind.
    by rewrite bool_decide_eq_true_2. }
  rewrite bind_ret. cbn [negb andb]. name_dispatch.
  rewrite bind_assoc, (bind_read _ _ _ true) by done.
  rewrite bind_ret, (bool_decide_eq_true_2 _ Hm). cbn [andb].
  rewrite (bind_lift _ _ _ k) by done.
  rewrite (bind_read _ _ _ nk) by done.
  rewrite (bind_lift _ _ _ (r, OrderedDict.remove nk items)); last first.
  { unfold OrderedDict.pop. by rewrite Hh, Hfind. }
  erewrite bind_Ok; last first.
  { apply (modifed_spec _ _ o); try done.
    - by eapply class_items_is_ConstDictVariable.
    - apply list.Forall_forall. intros c Hc.
      apply values_remove_subseteq in Hc.
      by eapply list.Forall_forall in Hch. }
  fold o2. rewrite (bind_Ok _ _ _ _ _ (replace_all_spec _ _ _)).
  change (set_stack _ _) with s2.
  unfold add_options. rewrite (add_guards_spec _ _ or).
  - do 2 f_equal. unfold s2. cbn. rewrite length_app. cbn. lia.
  - unfold s2. cbn. by apply lookup_app_l_Some.
  - destruct Hwf as [Hc Hcls]. split; [|done].
    eapply list.Forall_impl; [exact Hc|]. intros c. unfold s2. cbn.
    apply allocated_app.
Qed.

(** [update(other)] on a mutable variable. *)
Lemma update_mutable_spec s v other rest o oo items oitems :
  let options := ⋃ (guards_at (heap s) <$> v :: other :: rest) in
  let o2 := constructed (heap s) (with_items (OrderedDict.update items oitems) (cls o))
              options (source o) (mutable_local o)
              (Some (recursively_contains o ∪ recursively_contains oo)) in
  heap s !! v = Some o → heap s !! other = Some oo →
  Forall (allocated (heap s)) rest →
  class_items (cls o) = Ok items → class_ok (cls o) = true →
  class_items (cls oo) = Ok oitems →
  is_Some (mutable_local o) →
  Forall (allocated (heap s)) (OrderedDict.values items) →
  Forall (allocated (heap s)) (OrderedDict.values oitems) →
  ConstDictVariable_call_method global_key_name VariableBuilder v "update"
      (other :: rest) [] s =
    (Ok (length (heap s)),
     set_stack (subst_loc v (length (heap s)) <$> stack s)
       (set_heap (heap s ++ [o2]) s)).
Proof.
  intros options o2 Hv Ho Hrest Hitems Hok Hoitems Hm Hch Hoch.
  assert (Forall (allocated (heap s)) (v :: other :: rest)) as Hall.
  { eapply Forall_allocated_args; [done|]. apply Forall_cons_2; [by eexists|done]. }
  prelude_with Hall Hv Hitems. fold options.
  rewrite bind_assoc. unfold args_and_isinstance_ConstDictVariable.
  rewrite bind_assoc, (bind_deref _ _ _ _ Ho), !bind_ret.
  unfold isinstance_ConstDictVariable.
  rewrite (class_items_is_ConstDictVariable _ _ Hoitems).
  rewrite (bool_decide_eq_true_2 _ Hm). cbn [andb].
  rewrite (bind_lift _ _ _ other) by done.
  rewrite (bind_deref _ _ _ _ Ho).
  rewrite (bind_lift _ _ _ oitems) by done.
  erewrite bind_Ok; last first.
  { apply (modifed_spec _ _ o); try done.
    - by eapply class_items_is_ConstDictVariable.
    - apply list.Forall_forall. intros c Hc.
      apply values_update_subseteq in Hc. apply elem_of_app in Hc as [Hc|Hc].
      + by eapply list.Forall_forall in Hch.
      + by eapply list.Forall_forall in Hoch. }
  done.
Qed.

(** Without a [MutableLocal], [pop] of a present key falls through to the
    base class. *)
Lemma pop_present_immutable_spec s v k rest o items nk :
  heap s !! v = Some o →
  Forall (allocated (heap s)) rest →
  class_items (cls o) = Ok items →
  mutable_local o = None →
  is_valid_key k s = Ok true →
  call_get_key [ArgTx; ArgVar k] s = Ok nk →
  OrderedDict.contains nk items = Ok true →
  ConstDictVariable_call_method global_key_name VariableBuilder v "pop" (k :: rest) [] s =
    (Err (Unsupported "call_method"), s).
Proof.
  intros Hv Hrest Hitems Hm Hvalid Hkey Hpresent.
  pose proof (is_valid_key_allocated _ _ _ Hvalid) as Hk.
  assert (Forall (allocated (heap s)) (v :: k :: rest)) as Hall.
  { eapply Forall_allocated_args; [done|]. by apply Forall_cons_2. }
  prelude_with Hall Hv Hitems.
  rewrite bind_assoc. unfold args_and_is_valid_key.
  rewrite (bind_read _ _ _ true) by done.
  cbn [and_then]. rewrite bind_assoc. unfold key_in_items.
  rewrite !bind_assoc, (bind_lift _ _ _ k) by done.
  rewrite !bind_assoc, (bind_read _ _ _ nk) by done.
  rewrite (bind_lift _ _ _ true) by done.
  rewrite bind_ret. cbn [negb andb]. name_dispatch.
  rewrite bind_assoc, (bind_read _ _ _ true) by done.
  rewrite bind_ret, Hm.
  rewrite bool_decide_eq_false_2 by (by intros [? ?]).
  cbn [andb]. name_dispatch. done.
Qed.

(** Without a [MutableLocal], [update] falls through to the base class. *)
Lemma update_immutable_spec s v args o items :
  heap s !! v = Some o →
  Forall (allocated (heap s)) args →
  class_items (cls o) = Ok items →
  mutable_local o = None →
  ConstDictVariable_call_method global_key_name VariableBuilder v "update" args [] s =
    (Err (Unsupported "call_method"), s).
Proof.
  intros Hv Hargs Hitems Hm.
  assert (Forall (allocated (heap s)) (v :: args)) as Hall.
  { by eapply Forall_allocated_args. }
  prelude_with Hall Hv Hitems.
  rewrite Hm. rewrite bool_decide_eq_false_2 by (by intros [? ?]).
  rewrite bind_assoc. unfold args_and_isinstance_ConstDictVariable.
  destruct Hargs as [|a args [oa Ha] Hargs].
  - rewrite !bind_ret. name_dispatch. done.
  - rewrite bind_assoc, (bind_deref _ _ _ _ Ha), !bind_ret.
    rewrite andb_false_r. name_dispatch. done.
Qed.

Lemma call_get_key_allocated s k nk :
  call_get_key [ArgTx; ArgVar k] s = Ok nk → allocated (heap s) k.
Proof.
  cbn. unfold deref_in, allocated.
  destruct (heap s !! k); [by eexists|done].
Qed.

Ltac default_prelude Hall :=
  unfold DefaultDictVariable_call_method;
  rewrite (bind_Ok _ _ _ _ _ (propagate_call _ _ _ Hall));
  cbn [String.eqb Ascii.eqb Bool.eqb].

(** [__getitem__] of a missing key, when no factory is configured. *)
Lemma getitem_no_factory_spec s v k rest o items u nk :
  heap s !! v = Some o →
  Forall (allocated (heap s)) rest →
  cls o = DefaultDictVariable items u FactoryNone →
  call_get_key [ArgTx; ArgVar k] s = Ok nk →
  OrderedDict.contains nk items = Ok false →
  DefaultDictVariable_call_method global_key_name VariableBuilder call_function format
      v "__getitem__" (k :: rest) [] s =
    (Err (KeyError (PyStr (format nk))), s).
Proof.
  intros Hv Hrest Hcls Hkey Habsent.
  pose proof (call_get_key_allocated _ _ _ Hkey) as Hk.
  assert (Forall (allocated (heap s)) (v :: k :: rest)) as Hall.
  { eapply Forall_allocated_args; [done|]. by apply Forall_cons_2. }
  default_prelude Hall.
  rewrite (bind_lift _ _ _ k) by done.
  rewrite (bind_read _ _ _ nk) by done.
  rewrite (bind_deref _ _ _ _ Hv).
  rewrite (bind_lift _ _ _ items) by (unfold items_of; by rewrite Hcls).
  rewrite (bind_lift _ _ _ false) by done.
  rewrite (bind_lift _ _ _ FactoryNone) by (unfold default_factory_of; by rewrite Hcls).
  done.
Qed.

(** [__getitem__] of a present key: the hit path. *)
Lemma getitem_hit_spec s v k rest o d od items nk :
  heap s !! v = Some o → heap s !! d = Some od →
  Forall (allocated (heap s)) rest →
  class_items (cls o) = Ok items →
  wf_var (heap s) od →
  call_get_key [ArgTx; ArgVar k] s = Ok nk →
  hashable nk = true →
  OrderedDict.find nk items = Some d →
  DefaultDictVariable_call_method global_key_name VariableBuilder call_function format
      v "__getitem__" (k :: rest) [] s =
    (Ok (length (heap s)),
     set_heap (heap s ++ [with_guards (heap s) od (⋃ (guards_at (heap s) <$> [v; k]))]) s).
Proof.
  intros Hv Hd Hrest Hitems Hwf Hkey Hh Hfind.
  pose proof (call_get_key_allocated _ _ _ Hkey) as Hk.
  assert (Forall (allocated (heap s)) (v :: k :: rest)) as Hall.
  { eapply Forall_allocated_args; [done|]. by apply Forall_cons_2. }
  default_prelude Hall.
  rewrite (bind_lift _ _ _ k) by done.
  rewrite (bind_read _ _ _ nk) by done.
  rewrite (bind_deref _ _ _ _ Hv).
  rewrite (bind_lift _ _ _ items) by done.
  rewrite (bind_lift _ _ _ true); last first.
  { unfold OrderedDict.contains. rewrite Hh, Hfind.
    by rewrite bool_decide_eq_true_2. }
  unfold getitem_const.
  rewrite (bind_deref _ _ _ _ Hv).
  rewrite (bind_lift _ _ _ items) by done.
  rewrite (bind_read _ _ _ nk) by done.
  rewrite (bind_lift _ _ _ d) by (unfold OrderedDict.getitem; by rewrite Hh, Hfind).
  erewrite bind_Ok; last first.
  { apply propagate_allocated.
    repeat first [apply Forall_nil_2 | apply Forall_cons_2]; by eauto using allocated_Some. }
  by apply add_guards_spec.
Qed.

(** [__getitem__] of a missing key, when a factory variable is configured:
    the state after the factory is called, and the final result. *)
Lemma getitem_factory_spec s v k rest o items u f fo dobj nk :
  let m := next_mutable_local s in
  let d := length (heap s) in
  let sa := set_heap (heap s ++ [dobj])
              (set_calls (calls s ++ [f])
                 (set_next_mutable_local (S m) (store_key nk s))) in
  let options := ⋃ (guards_at (heap s) <$> v :: k :: rest) in
  let o2 := constructed (heap sa) (with_items (OrderedDict.set nk d items) (cls o))
              options (source o) (mutable_local o)
              (Some (new_rec_contains o dobj)) in
  heap s !! v = Some o → heap s !! f = Some fo →
  Forall (allocated (heap s)) rest →
  cls o = DefaultDictVariable items u (FactoryVar f) →
  u = defaultdict_cls →
  Forall (allocated (heap s)) (OrderedDict.values items) →
  call_function fo m = Ok dobj →
  call_get_key [ArgTx; ArgVar k] s = Ok nk →
  hashable nk = true →
  OrderedDict.find nk items = None →
  DefaultDictVariable_call_method global_key_name VariableBuilder call_function format
      v "__getitem__" (k :: rest) [] s =
    (Ok d,
     set_stack (subst_loc v (S d) <$> stack s) (set_heap (heap sa ++ [o2]) sa)).
Proof.
  intros m d sa options o2 Hv Hf Hrest Hcls Hu Hch Hcall Hkey Hh Hfind.
  pose proof (call_get_key_allocated _ _ _ Hkey) as Hk.
  assert (Forall (allocated (heap s)) (v :: k :: rest)) as Hall.
  { eapply Forall_allocated_args; [done|]. by apply Forall_cons_2. }
  assert (class_items (cls o) = Ok items) as Hitems by (by rewrite Hcls).
  default_prelude Hall. fold options.
  rewrite (bind_lift _ _ _ k) by done.
  rewrite (bind_read _ _ _ nk) by done.
  rewrite (bind_deref _ _ _ _ Hv).
  rewrite (bind_lift _ _ _ items) by done.
  rewrite (bind_lift _ _ _ false); last first.
  { unfold OrderedDict.contains. rewrite Hh, Hfind.
    rewrite bool_decide_eq_false_2; [done|]. by intros [? ?]. }
  rewrite (bind_lift _ _ _ (FactoryVar f)) by (unfold default_factory_of; by rewrite Hcls).
  rewrite bool_decide_eq_false_2 by done.
  rewrite store_global_weakref_spec.
  unfold call_default_factory.
  rewrite bind_assoc, (bind_deref _ _ _ fo) by (by rewrite heap_store_key).
  rewrite bind_assoc. unfold new_MutableLocal at 1. unfold bind at 1. cbv beta iota.
  rewrite next_mutable_local_store_key. fold m.
  rewrite bind_assoc. unfold bind at 1. cbv beta iota.
  rewrite bind_assoc, (bind_lift _ _ _ dobj) by done.
  unfold alloc at 1. unfold bind at 1. cbv beta iota.
  cbn [heap calls set_calls set_next_mutable_local].
  rewrite !heap_store_key, !calls_store_key. fold d. fold sa.
  assert (heap sa = heap s ++ [dobj]) as Hsa by done.
  assert (stack sa = stack s) as Hst.
  { unfold sa. cbn. by rewrite stack_store_key. }
  rewrite (bind_lift _ _ _ (OrderedDict.set nk d items))
    by (unfold OrderedDict.setitem; by rewrite Hh).
  assert (heap sa !! d = Some dobj) as Hd.
  { rewrite Hsa. unfold d. by rewrite list_lookup_middle. }
  assert (heap sa !! v = Some o) as Hv'.
  { rewrite Hsa. by apply lookup_app_l_Some. }
  rewrite (bind_deref _ _ _ _ Hd).
  change (match mutable_local dobj with
          | Some m0 => recursively_contains o ∪ recursively_contains dobj ∪ {[m0]}
          | None => recursively_contains o ∪ recursively_contains dobj
          end) with (new_rec_contains o dobj).
  erewrite bind_Ok; last first.
  { apply (modifed_spec _ _ o); try done.
    - by rewrite Hcls.
    - rewrite Hcls. cbn. by rewrite Hu, bool_decide_eq_true_2.
    - apply list.Forall_forall. intros c Hc.
      apply values_set_subseteq in Hc. apply elem_of_cons in Hc as [->|Hc].
      + by exists dobj.
      + rewrite Hsa. apply allocated_app. by eapply list.Forall_forall in Hch. }
  fold o2. rewrite (bind_Ok _ _ _ _ _ (replace_all_spec _ _ _)).
  unfold ret. cbn [stack set_heap]. rewrite Hst.
  do 4 f_equal. rewrite Hsa, length_app. cbn. unfold d. lia.
Qed.

(** ** Copy on write *)

(** A call made [v2] a new version of [v]: [v2] was not an object before the
    call, it is a mapping variable with the given items after it, it replaces
    [v] in the live table of the tracer. *)
Definition new_version (s s' : Tx) (v v2 : loc) (newitems : OrderedDict.t loc) : Prop :=
  heap s !! v2 = None ∧
  (∃ o2, heap s' !! v2 = Some o2 ∧ items_of o2 = Ok newitems) ∧
  stack s' = subst_loc v v2 <$> stack s.

(** No object of the store was changed by the call. *)
Definition old_objects_kept (s s' : Tx) : Prop :=
  ∀ l o, heap s !! l = Some o → heap s' !! l = Some o.

Lemma lookup_length_None (h : list VarObj) : h !! length h = None.
Proof. by apply lookup_ge_None_2. Qed.

Lemma lookup_snoc (h : list VarObj) (o : VarObj) : (h ++ [o]) !! length h = Some o.
Proof. by apply list_lookup_middle. Qed.

Lemma items_of_constructed h c items g src ml rc :
  is_ConstDictVariable c = true →
  items_of (constructed h (with_items items c) g src ml rc) = Ok items.
Proof. intros Hc. unfold items_of, constructed. cbn. by apply class_items_with_items. Qed.

Lemma new_version_snoc s s' v h1 o2 items :
  heap s' = h1 ++ [o2] →
  length h1 = length (heap s) →
  items_of o2 = Ok items →
  stack s' = subst_loc v (length (heap s)) <$> stack s →
  new_version s s' v (length (heap s)) items.
Proof.
  intros Hh Hlen Hi Hs. split; [apply lookup_length_None|]. split; [|done].
  exists o2. split; [|done]. rewrite Hh, <- Hlen. apply lookup_snoc.
Qed.

Lemma old_objects_kept_app s s' ext :
  heap s' = heap s ++ ext → old_objects_kept s s'.
Proof. intros Hh l o Ho. rewrite Hh. by apply lookup_app_l_Some. Qed.



(** A store is well formed when every object in it is. *)
Definition wf_store (h : list VarObj) : Prop := Forall (wf_var h) h.

(** The executable check of well-formedness. *)
Definition check_var (h : list VarObj) (o : VarObj) : bool :=
  forallb (λ l, bool_decide (l < length h)%nat) (children (cls o)) && class_ok (cls o).
Definition check_store (h : list VarObj) : bool := forallb (check_var h) h.

Lemma check_var_sound h o : check_var h o = true → wf_var h o.
Proof.
  unfold check_var. intros [Hc Hok]%andb_prop. split; [|done].
  apply list.Forall_forall. intros l Hl.
  rewrite forallb_forall in Hc. apply list_elem_of_In in Hl.
  specialize (Hc _ Hl). apply bool_decide_eq_true_1 in Hc.
  by apply lookup_lt_is_Some_2.
Qed.

Lemma check_store_sound h : check_store h = true → wf_store h.
Proof.
  unfold check_store, wf_store. intros Hc.
  apply list.Forall_forall. intros o Ho. apply check_var_sound.
  rewrite forallb_forall in Hc. apply Hc. by apply list_elem_of_In.
Qed.

Lemma wf_store_lookup h l o : wf_store h → h !! l = Some o → wf_var h o.
Proof.
  intros Hwf Hl. eapply list.Forall_forall; [exact Hwf|].
  by eapply list_elem_of_lookup_2.
Qed.

Lemma wf_store_items h l o items :
  wf_store h → h !! l = Some o → class_items (cls o) = Ok items →
  Forall (allocated h) (OrderedDict.values items) ∧ class_ok (cls o) = true.
Proof.
  intros Hwf Hl Hitems. destruct (wf_store_lookup _ _ _ Hwf Hl) as [Hc Hok].
  by rewrite (class_items_children _ _ Hitems) in Hc.
Qed.

Lemma find_values {V} (k : PyValue) (d : OrderedDict.t V) (x : V) :
  OrderedDict.find k d = Some x → x ∈ OrderedDict.values d.
Proof.
  induction d as [|[k' y] d IH]; cbn; [done|].
  destruct (py_eqb k' k).
  - intros [= ->]. apply list_elem_of_here.
  - intros H. apply list_elem_of_further. by apply IH.
Qed.

Lemma contains_true {V} (k : PyValue) (d : OrderedDict.t V) :
  OrderedDict.contains k d = Ok true →
  hashable k = true ∧ ∃ x, OrderedDict.find k d = Some x.
Proof.
  unfold OrderedDict.contains. destruct (hashable k); [|done].
  intros [= H]. apply bool_decide_eq_true_1 in H as [x Hx]. eauto.
Qed.

(** C2, as the code has it.  In a well-formed store whose [MutableLocal]
    counter is above every [MutableLocal] in use, take a mapping variable
    [v].  When [v] has no [MutableLocal]: [pop] of a present key and
    [update] raise the unsupported-operation signal and change nothing, but
    [__setitem__] with an accepted key that normalises to a hashable key
    does not raise: [v] is given a [MutableLocal] in place, one that no
    object of the store held, every other object is as before, and a new
    version of [v], with the key set, is returned.  When [v] is mutable:
    [__setitem__] (same keys), [pop] of a present key and [update] with a
    mapping variable each make a new version of [v], which was no object
    before, and change no object of the store.  Each call has its own
    premises only: [__setitem__] and [update] are proved for every mapping,
    the empty one included. *)
Theorem C2_mutating_calls s v o items :
  wf_store (heap s) →
  tokens_fresh s →
  heap s !! v = Some o →
  class_items (cls o) = Ok items →
  let call := ConstDictVariable_call_method global_key_name VariableBuilder v in
  let v2 := length (heap s) in
  (∀ kp nkp rest,
     is_valid_key kp s = Ok true →
     call_get_key [ArgTx; ArgVar kp] s = Ok nkp →
     OrderedDict.contains nkp items = Ok true →
     Forall (allocated (heap s)) rest →
     match mutable_local o with
     | None => call "pop" (kp :: rest) [] s = (Err (Unsupported "call_method"), s)
     | Some _ =>
         ∃ r s', call "pop" (kp :: rest) [] s = (Ok r, s') ∧
                 new_version s s' v v2 (OrderedDict.remove nkp items) ∧
                 old_objects_kept s s' ∧
                 tokens_fresh s'
     end) ∧
  (∀ other oo oitems,
     heap s !! other = Some oo →
     class_items (cls oo) = Ok oitems →
     match mutable_local o with
     | None => call "update" [other] [] s = (Err (Unsupported "call_method"), s)
     | Some _ =>
         ∃ s', call "update" [other] [] s = (Ok v2, s') ∧
               new_version s s' v v2 (OrderedDict.update items oitems) ∧
               old_objects_kept s s' ∧
               tokens_fresh s'
     end) ∧
  (∀ k nk x,
     is_valid_key k s = Ok true →
     call_get_key [ArgTx; ArgVar k] s = Ok nk →
     hashable nk = true →
     allocated (heap s) x →
     match mutable_local o with
     | None =>
         ∃ s', call "__setitem__" [k; x] [] s = (Ok v2, s') ∧
               new_version s s' v v2 (OrderedDict.set nk x items) ∧
               heap s' !! v = Some (set_mutable_local (Some (next_mutable_local s)) o) ∧
               (∀ l o', l ≠ v → heap s !! l = Some o' → heap s' !! l = Some o') ∧
               unused (heap s) (next_mutable_local s) ∧
               next_mutable_local s' = S (next_mutable_local s) ∧
               tokens_fresh s'
     | Some _ =>
         ∃ s', call "__setitem__" [k; x] [] s = (Ok v2, s') ∧
               new_version s s' v v2 (OrderedDict.set nk x items) ∧
               old_objects_kept s s' ∧
               tokens_fresh s'
     end).
Proof.
  intros Hwf Hfresh Hv Hitems call v2. subst call v2.
  destruct (wf_store_items _ _ _ _ Hwf Hv Hitems) as [Hch Hok].
  pose proof (class_items_is_ConstDictVariable _ _ Hitems) as Hdict.
  pose proof (tokens_below_lookup _ _ _ _ Hfresh Hv) as Hbo.
  split; [|split].
  - intros kp nkp rest Hvalidp Hkeyp Hpresent Hrest.
    destruct (mutable_local o) as [m|] eqn:Hm; [|by eapply pop_present_immutable_spec].
    destruct (contains_true _ _ Hpresent) as (Hhp & r & Hfind).
    assert (allocated (heap s) r) as [or Hr].
    { eapply list.Forall_forall; [exact Hch|]. by eapply find_values. }
    pose proof (wf_store_lookup _ _ _ Hwf Hr) as Hwfr.
    pose proof (tokens_below_lookup _ _ _ _ Hfresh Hr) as Hbr.
    assert (is_Some (mutable_local o)) as Hsome by (rewrite Hm; by eexists).
    eexists _, _.
    split; [by eapply (pop_present_mutable_spec s v kp rest o r or items nkp)|].
    split; [|split].
    + split; [apply lookup_length_None|]. split; [|done].
      eexists. cbn [heap set_stack set_heap]. split.
      * apply lookup_app_l_Some. apply lookup_snoc.
      * by apply items_of_constructed.
    + eapply old_objects_kept_app. cbn [heap set_stack set_heap].
      by rewrite <- app_assoc.
    + unfold tokens_fresh. cbn [heap next_mutable_local set_stack set_heap].
      apply tokens_below_snoc; [apply tokens_below_snoc; [done|]|].
      * apply tokens_below_intro; cbn.
        -- intros t Ht. by apply (tokens_below_own _ o).
        -- intros t Ht. by eapply tokens_below_contribution_at.
      * apply tokens_below_intro; cbn.
        -- intros t Ht. by apply (tokens_below_own _ or).
        -- intros t Ht. by apply (tokens_below_contained _ or).
  - intros other oo oitems Hother Hoitems.
    destruct (wf_store_items _ _ _ _ Hwf Hother Hoitems) as [Hoch _].
    pose proof (tokens_below_lookup _ _ _ _ Hfresh Hother) as Hboo.
    destruct (mutable_local o) as [m|] eqn:Hm; last first.
    { eapply update_immutable_spec; try done.
      apply Forall_cons_2; [by eexists|done]. }
    assert (is_Some (mutable_local o)) as Hsome by (rewrite Hm; by eexists).
    eexists.
    split; [by eapply (update_mutable_spec s v other [] o oo items oitems)|].
    split; [|split].
    + eapply new_version_snoc; cbn [heap stack set_stack set_heap]; try done.
      by apply items_of_constructed.
    + by eapply old_objects_kept_app.
    + unfold tokens_fresh. cbn [heap next_mutable_local set_stack set_heap].
      apply tokens_below_snoc; [done|].
      apply tokens_below_intro; cbn.
      * intros t Ht. by apply (tokens_below_own _ o).
      * intros t [Ht|Ht]%elem_of_union.
        -- by apply (tokens_below_contained _ o).
        -- by apply (tokens_below_contained _ oo).
  - intros k nk x Hvalid Hkey Hh Hx.
    destruct (mutable_local o) as [m|] eqn:Hm.
    + destruct Hx as [ox Hx].
      pose proof (tokens_below_lookup _ _ _ _ Hfresh Hx) as Hbx.
      assert (is_Some (mutable_local o)) as Hsome by (rewrite Hm; by eexists).
      eexists. split; [by eapply (setitem_mutable_spec s v k x o ox items nk)|].
      split; [|split].
      * eapply new_version_snoc; cbn [heap stack set_stack set_heap];
          rewrite ?heap_store_key, ?stack_store_key; try done.
        by apply items_of_constructed.
      * eapply old_objects_kept_app. cbn [heap set_stack set_heap]. done.
      * unfold tokens_fresh. cbn [heap next_mutable_local set_stack set_heap].
        rewrite next_mutable_local_store_key.
        apply tokens_below_snoc; [done|].
        apply tokens_below_intro; cbn.
        -- intros t Ht. by apply (tokens_below_own _ o).
        -- intros t Ht. rewrite new_rec_contains_contribution in Ht.
           apply elem_of_union in Ht as [Ht|Ht].
           ++ by apply (tokens_below_contained _ o).
           ++ by apply Hbx.
    + assert (allocated (alter (set_mutable_local (Some (next_mutable_local s))) v (heap s)) x)
        as [ox1 Hx1] by (by apply allocated_alter).
      pose proof (tokens_below_alter _ _ _ _ Hfresh Hv) as Hb1.
      eexists.
      split; [by eapply (setitem_immutable_spec s v k x o ox1 items nk)|].
      split; [|split; [|split; [|split; [|split]]]].
      * eapply new_version_snoc; cbn [heap stack set_stack set_heap]; try done.
        -- by rewrite length_alter.
        -- by apply items_of_constructed.
      * cbn [heap set_stack set_heap]. apply lookup_app_l_Some.
        by rewrite list_lookup_alter_eq, Hv.
      * intros l o' Hne Hl. cbn [heap set_stack set_heap]. apply lookup_app_l_Some.
        by rewrite list_lookup_alter_ne.
      * by apply tokens_fresh_unused.
      * cbn [next_mutable_local set_stack set_heap].
        by rewrite next_mutable_local_store_key.
      * unfold tokens_fresh. cbn [heap next_mutable_local set_stack set_heap].
        rewrite next_mutable_local_store_key. cbn [next_mutable_local set_heap
          set_next_mutable_local].
        apply tokens_below_snoc; [done|].
        apply tokens_below_intro; cbn.
        -- intros t [= <-]. lia.
        -- intros t Ht. rewrite new_rec_contains_contribution in Ht. cbn in Ht.
           apply elem_of_union in Ht as [Ht|Ht].
           ++ pose proof (tokens_below_contained _ _ _ Hbo Ht). lia.
           ++ by apply (tokens_below_lookup _ _ _ _ Hb1 Hx1).
Qed.

Lemma contribution_alter_mutable_local (h : list VarObj) (v m l : nat) o o1 :
  h !! v = Some o → mutable_local o = None →
  h !! l = Some o1 →
  ∃ o1', alter (set_mutable_local (Some m)) v h !! l = Some o1' ∧
         contribution o1 ⊆ contribution o1'.
Proof.
  intros Hv Hm Hl. destruct (decide (l = v)) as [->|Hne].
  - exists (set_mutable_local (Some m) o1).
    rewrite list_lookup_alter_eq, Hl. split; [done|].
    assert (o1 = o) as -> by congruence.
    unfold contribution. cbn. rewrite Hm.
    intros t Ht. apply elem_of_union. left.
    apply elem_of_union in Ht as [Ht|Ht]; [done|]. by apply elem_of_empty in Ht.
  - exists o1. by rewrite list_lookup_alter_ne.
Qed.

(** C3, as the code has it.  In a well-formed store, the
    [recursively_contains] of the variable derived from a mapping variable
    [v] is, for each operation on its own premises:
    - [__setitem__] (on a mutable variable or not, with an accepted key
      that normalises to a hashable key): the set of [v] united with what
      the inserted variable contributes, its own set and its [MutableLocal]
      when it has one, read after the call;
    - [update] with a mapping variable, on a mutable [v]: the set of [v]
      united with the set of the argument; so, when the set of the argument
      covers what its values contribute, the derived set covers the set of
      [v] and, for every value taken over, its set and its [MutableLocal]
      (on a [v] that is not mutable the call raises);
    - the insertion of the value of the default factory: the set of [v]
      united with what the made value contributes;
    - [pop] of a present key, on a mutable [v]: the union of what the
      remaining values contribute, computed anew, whatever the set of [v]
      was. *)
Theorem C3_recursively_contains s v o items :
  wf_store (heap s) →
  heap s !! v = Some o →
  class_items (cls o) = Ok items →
  let call := ConstDictVariable_call_method global_key_name VariableBuilder v in
  let v2 := length (heap s) in
  (∀ k nk x ox,
     is_valid_key k s = Ok true →
     call_get_key [ArgTx; ArgVar k] s = Ok nk →
     hashable nk = true →
     heap s !! x = Some ox →
     ∃ s' o2 ox',
       call "__setitem__" [k; x] [] s = (Ok v2, s') ∧
       heap s' !! v2 = Some o2 ∧
       heap s' !! x = Some ox' ∧
       contribution ox ⊆ contribution ox' ∧
       recursively_contains o2 = recursively_contains o ∪ contribution ox') ∧
  (∀ other oo oitems,
     heap s !! other = Some oo →
     class_items (cls oo) = Ok oitems →
     match mutable_local o with
     | Some _ =>
         ∃ s' o2, call "update" [other] [] s = (Ok v2, s') ∧
                  heap s' !! v2 = Some o2 ∧
                  recursively_contains o2 =
                    recursively_contains o ∪ recursively_contains oo ∧
                  (⋃ (contribution_at (heap s) <$> OrderedDict.values oitems)
                     ⊆ recursively_contains oo →
                   ∀ c oc, c ∈ OrderedDict.values oitems → heap s' !! c = Some oc →
                     recursively_contains o ∪ contribution oc ⊆ recursively_contains o2)
     | None => call "update" [other] [] s = (Err (Unsupported "call_method"), s)
     end) ∧
  (∀ k nk u f fo dobj,
     cls o = DefaultDictVariable items u (FactoryVar f) →
     heap s !! f = Some fo →
     call_function fo (next_mutable_local s) = Ok dobj →
     call_get_key [ArgTx; ArgVar k] s = Ok nk →
     hashable nk = true →
     OrderedDict.find nk items = None →
     ∃ d s' o2,
       DefaultDictVariable_call_method global_key_name VariableBuilder call_function format
         v "__getitem__" [k] [] s = (Ok d, s') ∧
       heap s' !! d = Some dobj ∧
       new_version s s' v (S d) (OrderedDict.set nk d items) ∧
       heap s' !! S d = Some o2 ∧
       recursively_contains o2 = recursively_contains o ∪ contribution dobj) ∧
  (∀ kp nkp rest,
     is_valid_key kp s = Ok true →
     call_get_key [ArgTx; ArgVar kp] s = Ok nkp →
     OrderedDict.contains nkp items = Ok true →
     Forall (allocated (heap s)) rest →
     is_Some (mutable_local o) →
     ∃ r s' o2,
       call "pop" (kp :: rest) [] s = (Ok r, s') ∧
       heap s' !! v2 = Some o2 ∧
       recursively_contains o2 =
         ⋃ (contribution_at (heap s) <$> OrderedDict.values (OrderedDict.remove nkp items))).
Proof.
  intros Hwf Hv Hitems call v2. subst call v2.
  destruct (wf_store_items _ _ _ _ Hwf Hv Hitems) as [Hch Hok].
  pose proof (class_items_is_ConstDictVariable _ _ Hitems) as Hdict.
  split; [|split; [|split]].
  - intros k nk x ox Hvalid Hkey Hh Hx.
    destruct (mutable_local o) as [m|] eqn:Hm.
    + assert (is_Some (mutable_local o)) as Hsome by (rewrite Hm; by eexists).
      eexists _, _, ox.
      split; [by eapply (setitem_mutable_spec s v k x o ox items nk)|].
      cbn [heap set_stack set_heap]. split; [apply lookup_snoc|].
      split; [by apply lookup_app_l_Some|]. split; [done|].
      cbn. by rewrite new_rec_contains_contribution.
    + destruct (contribution_alter_mutable_local _ _ (next_mutable_local s) _ _ _ Hv Hm Hx)
        as (ox1 & Hx1 & Hsub).
      eexists _, _, ox1.
      split; [by eapply (setitem_immutable_spec s v k x o ox1 items nk)|].
      cbn [heap set_stack set_heap]. split.
      { rewrite <- (length_alter (set_mutable_local (Some (next_mutable_local s)))
                     (heap s) v).
        apply lookup_snoc. }
      split; [by apply lookup_app_l_Some|]. split; [done|].
      cbn. by rewrite new_rec_contains_contribution.
  - intros other oo oitems Hother Hoitems.
    destruct (wf_store_items _ _ _ _ Hwf Hother Hoitems) as [Hoch _].
    destruct (mutable_local o) as [m|] eqn:Hm.
    + assert (is_Some (mutable_local o)) as Hsome by (rewrite Hm; by eexists).
      eexists _, _.
      split; [by eapply (update_mutable_spec s v other [] o oo items oitems)|].
      cbn [heap set_stack set_heap]. split; [apply lookup_snoc|]. split; [done|].
      intros Hcov c oc Hc Hoc t Ht. cbn.
      assert (heap s !! c = Some oc) as Hc'.
      { assert (allocated (heap s) c) as [oc' Hc'].
        { eapply list.Forall_forall; [exact Hoch|done]. }
        rewrite (lookup_app_l_Some _ _ _ _ Hc') in Hoc. congruence. }
      apply elem_of_union in Ht as [Ht|Ht]; apply elem_of_union; [by left|right].
      apply Hcov. apply elem_of_union_list.
      exists (contribution_at (heap s) c). split.
      * apply list_elem_of_fmap. by exists c.
      * unfold contribution_at. by rewrite Hc'.
    + eapply update_immutable_spec; try done.
      apply Forall_cons_2; [by eexists|done].
  - intros k nk u f fo dobj Hcls Hf Hcall Hkey Hh Hfind.
    assert (u = defaultdict_cls) as Hu.
    { rewrite Hcls in Hok. cbn in Hok. by apply bool_decide_eq_true_1 in Hok. }
    eexists _, _, _.
    split; [by eapply (getitem_factory_spec s v k [] o items u f fo dobj nk)|].
    cbn [heap stack set_stack set_heap set_calls set_next_mutable_local].
    rewrite ?heap_store_key, ?stack_store_key.
    assert (length (heap s ++ [dobj]) = S (length (heap s))) as Hlen.
    { rewrite length_app. cbn. lia. }
    split; [|split; [|split]].
    + apply lookup_app_l_Some. apply lookup_snoc.
    + split; [|split].
      * apply lookup_ge_None_2. lia.
      * eexists. split; [rewrite <- Hlen; apply lookup_snoc|].
        apply items_of_constructed. by rewrite Hcls.
      * done.
    + rewrite <- Hlen. apply lookup_snoc.
    + cbn. by rewrite new_rec_contains_contribution.
  - intros kp nkp rest Hvalidp Hkeyp Hpresent Hrest Hsome.
    destruct (contains_true _ _ Hpresent) as (Hhp & r & Hfind).
    assert (allocated (heap s) r) as [or Hr].
    { eapply list.Forall_forall; [exact Hch|]. by eapply find_values. }
    pose proof (wf_store_lookup _ _ _ Hwf Hr) as Hwfr.
    eexists _, _, _.
    split; [by eapply (pop_present_mutable_spec s v kp rest o r or items nkp)|].
    cbn [heap set_stack set_heap]. split.
    + apply lookup_app_l_Some. apply lookup_snoc.
    + cbn. by rewrite children_with_items.
Qed.

Lemma nn_modules_store_key nk s : nn_modules (store_key nk s) = nn_modules s.
Proof.
  unfold store_key, register_weakref.
  destruct (is_valid_global_ref_key nk); [|done]. by destruct (bool_decide _).
Qed.
Lemma recursion_limit_store_key nk s :
  recursion_limit (store_key nk s) = recursion_limit s.
Proof.
  unfold store_key, register_weakref.
  destruct (is_valid_global_ref_key nk); [|done]. by destruct (bool_decide _).
Qed.

Lemma wf_var_app h ext o : wf_var h o → wf_var (h ++ ext) o.
Proof.
  intros [Hc Hok]. split; [|done].
  eapply list.Forall_impl; [exact Hc|]. intros c. apply allocated_app.
Qed.

Lemma guards_at_app h ext l : allocated h l → guards_at (h ++ ext) l = guards_at h l.
Proof.
  intros [o Ho]. unfold guards_at. by rewrite (lookup_app_l_Some _ _ _ _ Ho), Ho.
Qed.

(** C5, as the code has it.  For a default-factory mapping variable [v]
    with a factory variable and a key [k] that is not in its items, the
    first [__getitem__(k)] calls the factory once, returns the value
    variable [d] it made and registers a new version [v2] of [v] whose items
    end with [k] bound to [d].  A second [__getitem__(k)], on [v2], takes the
    hit path: the factory is not called, no mapping variable is made, and
    the result is a copy of [d]: a new object with the class and contents,
    the source, the [MutableLocal] and the [recursively_contains] of [d],
    whose guards are those of [d] joined with those of [v2] and of [k]. *)
Theorem C5_default_factory_repeat s v o items f fo dobj k nk :
  wf_store (heap s) →
  heap s !! v = Some o →
  cls o = DefaultDictVariable items defaultdict_cls (FactoryVar f) →
  heap s !! f = Some fo →
  call_function fo (next_mutable_local s) = Ok dobj →
  wf_var (heap s) dobj →
  call_get_key [ArgTx; ArgVar k] s = Ok nk →
  hashable nk = true →
  OrderedDict.find nk items = None →
  let getitem self :=
    DefaultDictVariable_call_method global_key_name VariableBuilder call_function format
      self "__getitem__" [k] [] in
  ∃ d v2 s1 o2 r s2 or,
    getitem v s = (Ok d, s1) ∧
    heap s1 !! d = Some dobj ∧
    new_version s s1 v v2 (items ++ [(nk, d)]) ∧
    heap s1 !! v2 = Some o2 ∧
    calls s1 = calls s ++ [f] ∧
    getitem v2 s1 = (Ok r, s2) ∧
    calls s2 = calls s1 ∧
    stack s2 = stack s1 ∧
    heap s2 = heap s1 ++ [or] ∧
    r = length (heap s1) ∧
    cls or = cls dobj ∧
    source or = source dobj ∧
    mutable_local or = mutable_local dobj ∧
    recursively_contains or = recursively_contains dobj ∧
    guards dobj ∪ guards o2 ∪ guards_at (heap s) k ⊆ guards or.
Proof.
  intros Hwf Hv Hcls Hf Hcall Hwfd Hkey Hh Hfind getitem. subst getitem.
  assert (class_items (cls o) = Ok items) as Hitems by (by rewrite Hcls).
  destruct (wf_store_items _ _ _ _ Hwf Hv Hitems) as [Hch _].
  pose proof (call_get_key_allocated _ _ _ Hkey) as Hk.
  pose proof (getitem_factory_spec s v k [] o items defaultdict_cls f fo dobj nk
                Hv Hf (Forall_nil_2 _) Hcls eq_refl Hch Hcall Hkey Hh Hfind) as Hfirst.
  cbv zeta in Hfirst.
  set (d := length (heap s)) in *.
  set (sa := set_heap (heap s ++ [dobj]) _) in *.
  set (o2 := constructed (heap sa) _ _ _ _ _) in *.
  set (s1 := set_stack _ _) in *.
  assert (heap s1 = (heap s ++ [dobj]) ++ [o2]) as Hs1 by done.
  assert (length (heap s ++ [dobj]) = S d) as Hlen.
  { rewrite length_app. cbn. unfold d. lia. }
  assert (heap s1 !! d = Some dobj) as Hd.
  { rewrite Hs1. apply lookup_app_l_Some. apply lookup_snoc. }
  assert (heap s1 !! S d = Some o2) as Hv2.
  { rewrite Hs1, <- Hlen. apply lookup_snoc. }
  assert (items_of o2 = Ok (OrderedDict.set nk d items)) as Hi2.
  { apply items_of_constructed. by rewrite Hcls. }
  assert (call_get_key [ArgTx; ArgVar k] s1 = Ok nk) as Hkey1.
  { eapply (call_get_key_agree s); [| | |exact Hkey].
    - rewrite Hs1, <- app_assoc. apply heap_agree_app.
    - unfold s1, sa. cbn. by rewrite nn_modules_store_key.
    - unfold s1, sa. cbn. by rewrite recursion_limit_store_key. }
  assert (wf_var (heap s1) dobj) as Hwfd1.
  { rewrite Hs1, <- app_assoc. by apply wf_var_app. }
  pose proof (getitem_hit_spec s1 (S d) k [] o2 d dobj (OrderedDict.set nk d items) nk
                Hv2 Hd (Forall_nil_2 _) Hi2 Hwfd1 Hkey1 Hh (find_set_eq _ _ _ Hh))
    as Hsecond.
  destruct (with_guards_same (heap s1) dobj (⋃ (guards_at (heap s1) <$> [S d; k])))
    as (Ec & Es & Em & Er & Eg).
  eexists d, (S d), s1, o2, (length (heap s1)), _, _.
  split; [exact Hfirst|].
  split; [exact Hd|].
  split.
  { rewrite <- (set_absent _ _ _ Hfind).
    split; [apply lookup_ge_None_2; unfold d; lia|]. split; [by exists o2|].
    done. }
  split; [exact Hv2|].
  split; [done|].
  split; [exact Hsecond|].
  repeat split; try done.
  etrans; [|exact Eg].
  change (⋃ (guards_at (heap s1) <$> [S d; k]))
    with (guards_at (heap s1) (S d) ∪ (guards_at (heap s1) k ∪ ∅)).
  assert (guards_at (heap s1) (S d) = guards o2) as ->.
  { unfold guards_at. by rewrite Hv2. }
  assert (guards_at (heap s1) k = guards_at (heap s) k) as ->.
  { rewrite Hs1, <- app_assoc. by apply guards_at_app. }
  set_solver.
Qed.

(** C6. For a default-factory mapping variable with no factory, the call of
    [__getitem__] with a key that is not in its items raises [KeyError] with
    the text of the key: the exception is the result of the call, and the
    state is as before (no variable is made and none is registered). *)
Theorem C6_getitem_no_factory_raises s v o items u k nk :
  heap s !! v = Some o →
  cls o = DefaultDictVariable items u FactoryNone →
  call_get_key [ArgTx; ArgVar k] s = Ok nk →
  OrderedDict.contains nk items = Ok false →
  DefaultDictVariable_call_method global_key_name VariableBuilder call_function format
      v "__getitem__" [k] [] s =
    (Err (KeyError (PyStr (format nk))), s).
Proof.
  intros Hv Hcls Hkey Habsent.
  by eapply getitem_no_factory_spec.
Qed.


End Verification.

(** ** Key validity and normalisation *)

Lemma as_python_constant_in_unfold depth h l :
  as_python_constant_in depth h l =
    (let child (c : loc) : Res PyValue :=
       match depth with
       | O => Err RecursionError
       | S d => as_python_constant_in d h c
       end in
     o ← deref_in h l;
     match cls o with
     | ConstantVariable v => Ok v
     | TupleVariable es => PyTuple <$> res_mapM child es
     | ConstDictVariable items _
     | DefaultDictVariable items _ _
     | DataClassVariable items _ =>
         PyDict <$> res_mapM (λ e, x ← child e.2; Ok (e.1, x)) items
     | BuiltinVariable fn => Ok (PyBuiltin fn)
     | _ => Err NotImplementedError
     end).
Proof. by destruct depth. Qed.

(** The default-factory variables for which [is_python_constant] is
    overridden to answer [False]: no items, and a factory that is not one of
    the host types [list], [tuple], [dict]. *)
Definition unsupported_default (o : VarObj) : bool :=
  match cls o with
  | DefaultDictVariable items _ f => negb (in_list_tuple_dict f) && negb (truthy_items items)
  | _ => false
  end.

(** The module of a module variable is registered with the tracer. *)
Definition module_registered (s : Tx) (o : VarObj) : bool :=
  match cls o with
  | NNModuleVariable key => bool_decide (is_Some (nn_modules s !! key))
  | _ => true
  end.

Lemma is_valid_key_of_constant s x o (r : Res PyValue) :
  heap s !! x = Some o →
  as_python_constant x s = r →
  (∀ items u f, cls o = DefaultDictVariable items u f →
     negb (in_list_tuple_dict f) && negb (truthy_items items) = false) →
  is_python_constant x s =
    match r with
    | Ok _ => Ok true
    | Err NotImplementedError => Ok false
    | Err e => Err e
    end.
Proof.
  intros Hx Hr Hdef. unfold is_python_constant.
  rewrite (deref_in_Some _ _ _ Hx). cbn.
  unfold VariableTracker_is_python_constant. rewrite Hr.
  destruct (cls o) eqn:Hc; try done.
  by rewrite (Hdef _ _ _ eq_refl).
Qed.

(** C4, as the code has it.  For every symbolic value [x] other than a
    default-factory variable without items whose factory is not one of
    [list], [tuple], [dict] (and, when [x] is a module variable, with its
    module registered with the tracer), [is_valid_key(x)] is true exactly
    when [get_key(tx, x)] succeeds. *)
Theorem C4_is_valid_key_iff_get_key s x o :
  heap s !! x = Some o →
  unsupported_default o = false →
  module_registered s o = true →
  is_valid_key x s = Ok true ↔ is_Ok (call_get_key [ArgTx; ArgVar x] s).
Proof.
  intros Hx Hdef Hmod.
  unfold is_valid_key, call_get_key, get_key.
  rewrite (deref_in_Some _ _ _ Hx). cbn [mbind Res_bind].
  erewrite is_valid_key_of_constant; [|exact Hx|reflexivity|]; last first.
  { intros items u f Hc. unfold unsupported_default in Hdef. by rewrite Hc in Hdef. }
  unfold as_python_constant.
  rewrite as_python_constant_in_unfold. cbv zeta.
  rewrite (deref_in_Some _ _ _ Hx). cbn [mbind Res_bind].
  unfold module_registered in Hmod. unfold is_Ok.
  destruct (cls o) as [v|[sv|]|key|es| |items u|items u f|items u| | |];
    cbn; try (split; [intros [=]|intros [? [=]]]; fail);
    try (split; [by eauto|done]).
  - apply bool_decide_eq_true_1 in Hmod as [m ->]. split; [by eauto|done].
  - destruct (res_mapM _ es) as [ys|[]]; cbn;
      try (split; [intros [=]|intros [? [=]]]; fail); split; [by eauto|done].
  - destruct (res_mapM _ items) as [ys|[]]; cbn;
      try (split; [intros [=]|intros [? [=]]]; fail); split; [by eauto|done].
  - destruct (res_mapM _ items) as [ys|[]]; cbn;
      try (split; [intros [=]|intros [? [=]]]; fail); split; [by eauto|done].
  - destruct (res_mapM _ items) as [ys|[]]; cbn;
      try (split; [intros [=]|intros [? [=]]]; fail); split; [by eauto|done].
Qed.

(** ** The special case for [sys.modules] *)

(** [_contains_helper] calls [get_key] with the key alone, and [get_key]
    takes the tracer and the key: the call raises before the table is read. *)
Lemma _contains_helper_raises self key s :
  _contains_helper self key s =
    (Err (TypeError "get_key() missing required positional argument"), s).
Proof. reflexivity. Qed.

Lemma call_contains_raises self key s :
  call_contains self key s =
    (Err (TypeError "get_key() missing required positional argument"), s).
Proof. reflexivity. Qed.

Lemma call_get_raises VariableBuilder self key default s :
  call_get VariableBuilder self key default s =
    (Err (TypeError "get_key() missing required positional argument"), s).
Proof. reflexivity. Qed.

Lemma call_getitem_raises VariableBuilder self key s :
  call_getitem VariableBuilder self key s =
    (Err (TypeError "get_key() missing required positional argument"), s).
Proof. reflexivity. Qed.

(** * Runs on a concrete state *)

Module Runs.

(** The oracles: every key gets the same global name, a wrapped value is an
    opaque variable with its source, and the builtin [dict] called without
    arguments makes an empty mutable dictionary. *)
Definition global_key_name (k : PyValue) : string := "__dict_key".
Definition VariableBuilder (src : Source) (v : PyValue) : VarObj :=
  mkVar (OtherVariable 0) ∅ (Some src) None ∅.
Definition call_function (f : VarObj) (m : MutableLocal) : Res VarObj :=
  match cls f with
  | BuiltinVariable builtin_dict =>
      Ok (mkVar (ConstDictVariable [] dict_cls) (guards f) None (Some m) ∅)
  | BuiltinVariable builtin_tuple =>
      Ok (mkVar (TupleVariable []) (guards f) None None ∅)
  | _ => Err (Unsupported "call_function")
  end.
Definition format (v : PyValue) : string :=
  match v with
  | PyStr s => s
  | _ => "<object>"
  end.

Definition constant (v : PyValue) : VarObj := mkVar (ConstantVariable v) ∅ None None ∅.

(** A [ModelOutput] class with two fields that default to [None]. *)
Definition Output : ClassDef :=
  mkClassDef "Output" [("a", Some PyNone); ("b", Some PyNone)] true.

(** The store:
    - 0, 1, 3, 4, 11, 13, 14: the constants ["x"], [1], ["z"], [7], ["a"],
      ["alpha"], ["beta"];
    - 2: the mutable dictionary [{"x": 1}], with a guard;
    - 5: the dictionary [{"x": 1}] without a [MutableLocal];
    - 6: the builtin [dict]; 7: a mutable [defaultdict(dict)] without items,
      with a guard; 8: a [defaultdict()] without factory and without items;
    - 9: an empty mutable dictionary; 10: the mutable dictionary [{"a": <9>}];
    - 12: the [sys.modules] variable.
    The live table holds 2, 7, 10 and 2 again; [sys.modules] has the one
    entry ["alpha"]. *)
Definition tx : Tx :=
  mkTx
    [ constant (PyStr "x");
      constant (PyInt 1);
      mkVar (ConstDictVariable [(PyStr "x", 1%nat)] dict_cls) {[OtherGuard 1]} None
        (Some 0%nat) ∅;
      constant (PyStr "z");
      constant (PyInt 7);
      mkVar (ConstDictVariable [(PyStr "x", 1%nat)] dict_cls) ∅ None None ∅;
      mkVar (BuiltinVariable builtin_dict) ∅ None None ∅;
      mkVar (DefaultDictVariable [] defaultdict_cls (FactoryVar 6%nat)) {[OtherGuard 2]}
        None (Some 1%nat) ∅;
      mkVar (DefaultDictVariable [] defaultdict_cls FactoryNone) ∅ None (Some 2%nat) ∅;
      mkVar (ConstDictVariable [] dict_cls) ∅ None (Some 7%nat) ∅;
      mkVar (ConstDictVariable [(PyStr "a", 9%nat)] dict_cls) ∅ None (Some 3%nat)
        {[7%nat]};
      constant (PyStr "a");
      mkVar PythonSysModulesVariable ∅ (Some (AttrSource (LocalSource "sys") "modules"))
        None ∅;
      constant (PyStr "alpha");
      constant (PyStr "beta") ]
    [2%nat; 7%nat; 10%nat; 2%nat]
    ∅
    []
    [(PyStr "alpha", PyObject 1)]
    8%nat
    []
    1000.

Definition ConstDict_call := ConstDictVariable_call_method global_key_name VariableBuilder.
Definition DefaultDict_call :=
  DefaultDictVariable_call_method global_key_name VariableBuilder call_function format.

Lemma tx_well_formed : wf_store (heap tx).
Proof. apply check_store_sound. reflexivity. Qed.

Lemma tx_tokens_fresh : tokens_fresh tx.
Proof. apply check_tokens_sound. reflexivity. Qed.

(** The scenario of the specification: [{x: 1}.pop("z", 7)] gives [7]. *)
Example pop_missing_with_default :
  let r := ConstDict_call 2%nat "pop" [3%nat; 4%nat] [] tx in
  r.1 = Ok 15%nat ∧
  cls <$> heap r.2 !! 15%nat = Some (ConstantVariable (PyInt 7)) ∧
  stack r.2 = stack tx.
Proof. vm_compute. done. Qed.

(** [{x: 1}.update({a: <9>})] keeps the order and appends the new key. *)
Example update_appends :
  let r := ConstDict_call 2%nat "update" [10%nat] [] tx in
  r.1 = Ok 15%nat ∧
  cls <$> heap r.2 !! 15%nat =
    Some (ConstDictVariable [(PyStr "x", 1%nat); (PyStr "a", 9%nat)] dict_cls) ∧
  stack r.2 = [15%nat; 7%nat; 10%nat; 15%nat].
Proof. vm_compute. done. Qed.

(** [__contains__] reaches the call of [get_key] with one argument. *)
Example contains_raises :
  (ConstDict_call 2%nat "__contains__" [0%nat] [] tx).1 =
    Err (TypeError "get_key() missing required positional argument").
Proof. vm_compute. done. Qed.

(** *** C1 to C3 *)



(** The claim C2 fails for [__setitem__]: on the dictionary 5, which has no
    [MutableLocal], the call does not raise; it returns the new variable 15,
    and the object 5 has been given the [MutableLocal] 8 in place. *)
Lemma C2_counterexample :
  let r := ConstDict_call 5%nat "__setitem__" [3%nat; 4%nat] [] tx in
  mutable_local <$> heap tx !! 5%nat = Some None ∧
  r.1 = Ok 15%nat ∧
  mutable_local <$> heap r.2 !! 5%nat = Some (Some 8%nat).
Proof. vm_compute. done. Qed.

Lemma C2_witness :
  let call5 := ConstDict_call 5%nat in
  let call2 := ConstDict_call 2%nat in
  (call5 "pop" [0%nat] [] tx = (Err (Unsupported "call_method"), tx) ∧
   call5 "update" [10%nat] [] tx = (Err (Unsupported "call_method"), tx) ∧
   ∃ s', call5 "__setitem__" [3%nat; 4%nat] [] tx = (Ok 15%nat, s') ∧
         new_version tx s' 5%nat 15%nat [(PyStr "x", 1%nat); (PyStr "z", 4%nat)] ∧
         heap s' !! 5%nat =
           Some (mkVar (ConstDictVariable [(PyStr "x", 1%nat)] dict_cls) ∅ None
                   (Some 8%nat) ∅) ∧
         (∀ l o', l ≠ 5%nat → heap tx !! l = Some o' → heap s' !! l = Some o') ∧
         unused (heap tx) 8%nat ∧
         next_mutable_local s' = 9%nat ∧
         tokens_fresh s') ∧
  ((∃ r s', call2 "pop" [0%nat] [] tx = (Ok r, s') ∧
            new_version tx s' 2%nat 15%nat [] ∧
            old_objects_kept tx s' ∧ tokens_fresh s') ∧
   (∃ s', call2 "update" [10%nat] [] tx = (Ok 15%nat, s') ∧
          new_version tx s' 2%nat 15%nat [(PyStr "x", 1%nat); (PyStr "a", 9%nat)] ∧
          old_objects_kept tx s' ∧ tokens_fresh s') ∧
   (∃ s', call2 "__setitem__" [3%nat; 4%nat] [] tx = (Ok 15%nat, s') ∧
          new_version tx s' 2%nat 15%nat [(PyStr "x", 1%nat); (PyStr "z", 4%nat)] ∧
          old_objects_kept tx s' ∧ tokens_fresh s')).
Proof.
  pose proof (C2_mutating_calls global_key_name VariableBuilder tx 5%nat
                (mkVar (ConstDictVariable [(PyStr "x", 1%nat)] dict_cls) ∅ None None ∅)
                [(PyStr "x", 1%nat)] tx_well_formed tx_tokens_fresh eq_refl eq_refl)
    as (Hpop5 & Hupdate5 & Hset5).
  pose proof (C2_mutating_calls global_key_name VariableBuilder tx 2%nat
                (mkVar (ConstDictVariable [(PyStr "x", 1%nat)] dict_cls) {[OtherGuard 1]}
                   None (Some 0%nat) ∅)
                [(PyStr "x", 1%nat)] tx_well_formed tx_tokens_fresh eq_refl eq_refl)
    as (Hpop2 & Hupdate2 & Hset2).
  assert (allocated (heap tx) 4%nat) as H4 by (by eexists).
  split; [split; [|split]|split; [|split]].
  - exact (Hpop5 0%nat (PyStr "x") [] eq_refl eq_refl eq_refl (Forall_nil_2 _)).
  - exact (Hupdate5 10%nat _ [(PyStr "a", 9%nat)] eq_refl eq_refl).
  - exact (Hset5 3%nat (PyStr "z") 4%nat eq_refl eq_refl eq_refl H4).
  - exact (Hpop2 0%nat (PyStr "x") [] eq_refl eq_refl eq_refl (Forall_nil_2 _)).
  - exact (Hupdate2 10%nat _ [(PyStr "a", 9%nat)] eq_refl eq_refl).
  - exact (Hset2 3%nat (PyStr "z") 4%nat eq_refl eq_refl eq_refl H4).
Defined.

(** [update] takes the set of its argument as it is.  The dictionary 5 has
    no [MutableLocal] when it is put into a new version (15) of the
    dictionary 9; [__setitem__] on 5 then gives it the [MutableLocal] 8 in
    place.  After [update] of the dictionary 2 with 15, the new version 17
    holds the variable 5, which is mutable, and its set does not have 8. *)
Example update_after_change_in_place :
  let s1 := (ConstDict_call 9%nat "__setitem__" [0%nat; 5%nat] [] tx).2 in
  let s2 := (ConstDict_call 5%nat "__setitem__" [3%nat; 4%nat] [] s1).2 in
  let r := ConstDict_call 2%nat "update" [15%nat] [] s2 in
  r.1 = Ok 17%nat ∧
  (cls <$> heap r.2 !! 17%nat) =
    Some (ConstDictVariable [(PyStr "x", 5%nat)] dict_cls) ∧
  (mutable_local <$> heap r.2 !! 5%nat) = Some (Some 8%nat) ∧
  (elements ∘ recursively_contains <$> heap r.2 !! 17%nat) = Some [].
Proof. vm_compute. done. Qed.

(** The claim C3 fails for [pop]: the dictionary 10 holds the mutable
    variable 9, so its set is [{7}]; after [pop("a")] the new version 15 of
    it has the empty set. *)
Lemma C3_counterexample :
  let r := ConstDict_call 10%nat "pop" [11%nat] [] tx in
  ∃ o o2,
    heap tx !! 10%nat = Some o ∧
    r.1 = Ok 16%nat ∧
    stack r.2 = [2%nat; 7%nat; 15%nat; 2%nat] ∧
    heap r.2 !! 15%nat = Some o2 ∧
    items_of o2 = Ok [] ∧
    ¬ (recursively_contains o ⊆ recursively_contains o2).
Proof.
  cbv zeta. eexists _, _.
  split; [reflexivity|].
  split; [vm_compute; reflexivity|].
  split; [vm_compute; reflexivity|].
  split; [vm_compute; reflexivity|].
  split; [reflexivity|].
  intros H. specialize (H 7%nat). cbn in H.
  assert (7%nat ∈ ({[7%nat]} : gset nat)) as H7 by set_solver.
  apply H in H7. vm_compute in H7. done.
Qed.

Lemma C3_witness :
  let dobj := mkVar (ConstDictVariable [] dict_cls) ∅ None (Some 8%nat) ∅ in
  let o9 := mkVar (ConstDictVariable [] dict_cls) ∅ None (Some 7%nat) ∅ in
  (∃ s' o2 ox',
     ConstDict_call 2%nat "__setitem__" [3%nat; 9%nat] [] tx = (Ok 15%nat, s') ∧
     heap s' !! 15%nat = Some o2 ∧
     heap s' !! 9%nat = Some ox' ∧
     contribution o9 ⊆ contribution ox' ∧
     recursively_contains o2 = ∅ ∪ contribution ox') ∧
  (∃ s' o2, ConstDict_call 2%nat "update" [10%nat] [] tx = (Ok 15%nat, s') ∧
            heap s' !! 15%nat = Some o2 ∧
            recursively_contains o2 = ∅ ∪ {[7%nat]} ∧
            (⋃ (contribution_at (heap tx) <$> [9%nat]) ⊆ {[7%nat]} →
             ∀ c oc, c ∈ [9%nat] → heap s' !! c = Some oc →
               ∅ ∪ contribution oc ⊆ recursively_contains o2)) ∧
  (∃ d s' o2,
     DefaultDict_call 7%nat "__getitem__" [3%nat] [] tx = (Ok d, s') ∧
     heap s' !! d = Some dobj ∧
     new_version tx s' 7%nat (S d) (OrderedDict.set (PyStr "z") d []) ∧
     heap s' !! S d = Some o2 ∧
     recursively_contains o2 = ∅ ∪ contribution dobj) ∧
  (∃ r s' o2,
     ConstDict_call 10%nat "pop" [11%nat] [] tx = (Ok r, s') ∧
     heap s' !! 15%nat = Some o2 ∧
     recursively_contains o2 = ⋃ (contribution_at (heap tx) <$> [])).
Proof.
  pose proof (C3_recursively_contains global_key_name VariableBuilder call_function format
                tx 2%nat
                (mkVar (ConstDictVariable [(PyStr "x", 1%nat)] dict_cls) {[OtherGuard 1]}
                   None (Some 0%nat) ∅)
                [(PyStr "x", 1%nat)] tx_well_formed eq_refl eq_refl)
    as (Hset & Hupdate & _ & _).
  pose proof (C3_recursively_contains global_key_name VariableBuilder call_function format
                tx 7%nat
                (mkVar (DefaultDictVariable [] defaultdict_cls (FactoryVar 6%nat))
                   {[OtherGuard 2]} None (Some 1%nat) ∅)
                [] tx_well_formed eq_refl eq_refl)
    as (_ & _ & Hfactory & _).
  pose proof (C3_recursively_contains global_key_name VariableBuilder call_function format
                tx 10%nat
                (mkVar (ConstDictVariable [(PyStr "a", 9%nat)] dict_cls) ∅ None (Some 3%nat)
                   {[7%nat]})
                [(PyStr "a", 9%nat)] tx_well_formed eq_refl eq_refl)
    as (_ & _ & _ & Hpop).
  split; [|split; [|split]].
  - exact (Hset 3%nat (PyStr "z") 9%nat _ eq_refl eq_refl eq_refl eq_refl).
  - exact (Hupdate 10%nat _ [(PyStr "a", 9%nat)] eq_refl eq_refl).
  - exact (Hfactory 3%nat (PyStr "z") defaultdict_cls 6%nat
             (mkVar (BuiltinVariable builtin_dict) ∅ None None ∅) _
             eq_refl eq_refl eq_refl eq_refl eq_refl eq_refl).
  - exact (Hpop 11%nat (PyStr "a") [] eq_refl eq_refl eq_refl (Forall_nil_2 _)
             (ex_intro _ 3%nat eq_refl)).
Defined.

(** *** C4 to C6 and C8 *)

(** The claim C4 fails at the variable 8, a [defaultdict()] without items
    and without factory: [get_key] succeeds on it, with the empty
    dictionary, and [is_valid_key] is false. *)
Lemma C4_counterexample :
  ¬ (is_valid_key 8%nat tx = Ok true ↔ is_Ok (call_get_key [ArgTx; ArgVar 8%nat] tx)).
Proof.
  intros [_ H].
  assert (is_valid_key 8%nat tx = Ok true) as Hv.
  { apply H. exists (PyDict []). reflexivity. }
  vm_compute in Hv. discriminate.
Qed.

Lemma C4_witness :
  is_valid_key 0%nat tx = Ok true ↔ is_Ok (call_get_key [ArgTx; ArgVar 0%nat] tx).
Proof.
  exact (C4_is_valid_key_iff_get_key tx 0%nat (constant (PyStr "x"))
           eq_refl eq_refl eq_refl).
Defined.

(** The claim C5 fails on the identity and on the guards of the value: on
    the [defaultdict] 7, the first [__getitem__("x")] returns the variable 15
    made by the factory and registers the new version 16; the second, on 16,
    returns the variable 17, another object, which carries the guard of the
    mapping that 15 does not carry. *)
Lemma C5_counterexample :
  let r1 := DefaultDict_call 7%nat "__getitem__" [0%nat] [] tx in
  let r2 := DefaultDict_call 16%nat "__getitem__" [0%nat] [] r1.2 in
  r1.1 = Ok 15%nat ∧
  stack r1.2 = [2%nat; 16%nat; 10%nat; 2%nat] ∧
  r2.1 = Ok 17%nat ∧
  calls r2.2 = calls r1.2 ∧
  17%nat ≠ 15%nat ∧
  heap r2.2 !! 17%nat ≠ heap r2.2 !! 15%nat ∧
  elements <$> (guards <$> heap r2.2 !! 15%nat) = Some [] ∧
  elements <$> (guards <$> heap r2.2 !! 17%nat) = Some [OtherGuard 2].
Proof. vm_compute. repeat split; congruence. Qed.

Lemma C5_witness :
  let dobj := mkVar (ConstDictVariable [] dict_cls) ∅ None (Some 8%nat) ∅ in
  let getitem self := DefaultDict_call self "__getitem__" [0%nat] [] in
  ∃ d v2 s1 o2 r s2 or,
    getitem 7%nat tx = (Ok d, s1) ∧
    heap s1 !! d = Some dobj ∧
    new_version tx s1 7%nat v2 ([] ++ [(PyStr "x", d)]) ∧
    heap s1 !! v2 = Some o2 ∧
    calls s1 = calls tx ++ [6%nat] ∧
    getitem v2 s1 = (Ok r, s2) ∧
    calls s2 = calls s1 ∧
    stack s2 = stack s1 ∧
    heap s2 = heap s1 ++ [or] ∧
    r = length (heap s1) ∧
    cls or = cls dobj ∧
    source or = source dobj ∧
    mutable_local or = mutable_local dobj ∧
    recursively_contains or = recursively_contains dobj ∧
    guards dobj ∪ guards o2 ∪ guards_at (heap tx) 0%nat ⊆ guards or.
Proof.
  exact (C5_default_factory_repeat global_key_name VariableBuilder call_function format
           tx 7%nat
           (mkVar (DefaultDictVariable [] defaultdict_cls (FactoryVar 6%nat))
              {[OtherGuard 2]} None (Some 1%nat) ∅)
           [] 6%nat
           (mkVar (BuiltinVariable builtin_dict) ∅ None None ∅)
           (mkVar (ConstDictVariable [] dict_cls) ∅ None (Some 8%nat) ∅)
           0%nat (PyStr "x")
           tx_well_formed eq_refl eq_refl eq_refl eq_refl
           (conj (Forall_nil_2 _) eq_refl) eq_refl eq_refl eq_refl).
Defined.

Lemma C6_witness :
  DefaultDict_call 8%nat "__getitem__" [0%nat] [] tx = (Err (KeyError (PyStr "x")), tx).
Proof.
  exact (C6_getitem_no_factory_raises global_key_name VariableBuilder call_function format
           tx 8%nat
           (mkVar (DefaultDictVariable [] defaultdict_cls FactoryNone) ∅ None
              (Some 2%nat) ∅)
           [] defaultdict_cls 0%nat (PyStr "x")
           eq_refl eq_refl eq_refl eq_refl).
Defined.


(** *** C7, C9 and C10: what the code does at the inputs of the claims *)

(** C7. On the [sys.modules] variable 12, over a table that has ["alpha"]
    and not ["beta"], [call_contains] raises [TypeError] for both keys: it
    returns no constant and makes no guard. *)
Theorem C7_call_contains_raises :
  OrderedDict.contains (PyStr "alpha") (sys_modules tx) = Ok true ∧
  OrderedDict.contains (PyStr "beta") (sys_modules tx) = Ok false ∧
  call_contains 12%nat 13%nat tx =
    (Err (TypeError "get_key() missing required positional argument"), tx) ∧
  call_contains 12%nat 14%nat tx =
    (Err (TypeError "get_key() missing required positional argument"), tx).
Proof. repeat split. Qed.

(** C10. On the [sys.modules] variable 12, [call_get] with the absent key
    ["beta"] and no default raises [TypeError]: no constant [None] is
    returned. *)
Theorem C10_call_get_raises :
  OrderedDict.contains (PyStr "beta") (sys_modules tx) = Ok false ∧
  call_get VariableBuilder 12%nat 14%nat None tx =
    (Err (TypeError "get_key() missing required positional argument"), tx) ∧
  PythonSysModulesVariable_call_method global_key_name VariableBuilder call_function format
    12%nat "get" [14%nat] [] tx =
    (Err (TypeError "get_key() missing required positional argument"), tx).
Proof. repeat split. Qed.

(** C9. The class [Output] has the fields [a] and [b], both with the default
    [None].  Constructed with [b] alone, bound to the constant 1, the schema
    reduces to the one field [b], which is no tensor: [create] looks the
    item up under the first field, [a], and raises [KeyError], not the
    unsupported-operation signal. *)
Theorem C9_create_raises_KeyError :
  DataClassVariable_create (user_defined_cls Output) [] [("b", 1%nat)] ∅ tx =
    (Err (KeyError (PyStr "a")), tx).
Proof. reflexivity. Qed.

(** When the one field left is the first field, the restriction is
    signalled as the claim says. *)
Example create_first_field_unsupported :
  DataClassVariable_create (user_defined_cls Output) [] [("a", 1%nat)] ∅ tx =
    (Err (Unsupported "DataClassVariable iterator constructor"), tx).
Proof. reflexivity. Qed.

End Runs.

(** * Further properties of the mapping variables *)

(** ** Equality of keys *)

(** The representative of a key in its [==] class: [True] and [False] are
    [1] and [0], inside tuples too. *)
Fixpoint py_norm (v : PyValue) : PyValue :=
  match v with
  | PyBool b => PyInt (Z.b2z b)
  | PyTuple vs => PyTuple (map py_norm vs)
  | v => v
  end.

Lemma py_eqb_norm (x y : PyValue) :
  hashable x = true →
  py_eqb x y = true ↔ hashable y = true ∧ py_norm x = py_norm y.
Proof.
  revert y.
  induction x as [|a|a|a|a|a|a|a|a|xs IH|es IH] using PyValue_nested_ind;
    intros y Hx; destruct y as [|b|b|b|b|b|b|b|b|ys|fs]; cbn in *;
    try discriminate Hx;
    try (split; [intros [=]|intros [_ [=]]]; fail);
    try (split; [intros [=]|intros [[=] _]]; fail);
    try (rewrite bool_decide_eq_true; split;
         [intros ->; done|intros [_ [= ->]]; done]).
  all: try done.
  - rewrite bool_decide_eq_true. split; [by intros ->|].
    intros [_ [= H]]. by destruct a, b.
  - revert ys Hx. induction IH as [|x xs Hxy _ IHxs]; intros ys Hx.
    + destruct ys; cbn; [done|]. split; [done|intros [_ [=]]].
    + cbn in Hx. apply andb_prop in Hx as [Hx1 Hx2].
      destruct ys as [|y ys]; cbn; [split; [done|intros [_ [=]]]|].
      rewrite andb_true_iff, (Hxy y Hx1), (IHxs ys Hx2). cbn.
      rewrite andb_true_iff. split.
      * intros [[Hy E1] [Hys [= E2]]]. repeat split; try done. by rewrite E1, E2.
      * intros [[Hy Hys] [= E1 E2]]. repeat split; try done. by rewrite E2.
Qed.

Lemma py_eqb_hashable (x y : PyValue) :
  hashable x = true → py_eqb x y = true → hashable y = true.
Proof. intros Hx H. by apply (py_eqb_norm x y Hx) in H as [? _]. Qed.

Lemma py_eqb_sym (x y : PyValue) :
  hashable x = true → hashable y = true → py_eqb x y = py_eqb y x.
Proof.
  intros Hx Hy. apply eq_true_iff_eq.
  rewrite (py_eqb_norm x y Hx), (py_eqb_norm y x Hy). naive_solver.
Qed.

(** Two keys equal to a third are equal. *)
Lemma py_eqb_trans_eq (k k1 k2 : PyValue) :
  hashable k = true →
  py_eqb k k1 = true → py_eqb k k2 = py_eqb k1 k2.
Proof.
  intros Hk H1. pose proof (py_eqb_hashable _ _ Hk H1) as Hk1.
  apply eq_true_iff_eq.
  rewrite (py_eqb_norm k k2 Hk), (py_eqb_norm k1 k2 Hk1).
  apply (py_eqb_norm k k1 Hk) in H1 as [_ ->]. done.
Qed.

(** ** Dictionaries *)

(** What every Python dictionary satisfies: its keys are hashable and no
    two of them are equal. *)
Definition dict_ok {V} (d : OrderedDict.t V) : Prop :=
  Forall (λ k, hashable k = true) (OrderedDict.keys d) ∧
  NoDup (py_norm <$> OrderedDict.keys d).

(** The executable check. *)
Definition check_dict {V} (d : OrderedDict.t V) : bool :=
  forallb hashable (OrderedDict.keys d) &&
  bool_decide (NoDup (py_norm <$> OrderedDict.keys d)).

Lemma check_dict_sound {V} (d : OrderedDict.t V) : check_dict d = true → dict_ok d.
Proof.
  unfold check_dict. intros [Hh Hn]%andb_prop. split.
  - apply list.Forall_forall. intros k Hk. rewrite forallb_forall in Hh.
    apply Hh. by apply list_elem_of_In.
  - by apply bool_decide_eq_true_1 in Hn.
Qed.

Lemma find_Some_norm {V} (k : PyValue) (d : OrderedDict.t V) (x : V) :
  Forall (λ k, hashable k = true) (OrderedDict.keys d) →
  OrderedDict.find k d = Some x → py_norm k ∈ py_norm <$> OrderedDict.keys d.
Proof.
  induction d as [|[k' y] d IH]; cbn; [done|].
  intros Hh. apply Forall_cons_1 in Hh as [Hk' Hh].
  destruct (py_eqb k' k) eqn:E.
  - intros _. apply (py_eqb_norm _ _ Hk') in E as [_ <-]. apply list_elem_of_here.
  - intros H. apply list_elem_of_further. by apply IH.
Qed.

(** A key equal to the key set finds the value set. *)
Lemma find_set_eqb {V} (k k' : PyValue) (x : V) (d : OrderedDict.t V) :
  hashable k = true →
  Forall (λ k, hashable k = true) (OrderedDict.keys d) →
  py_eqb k k' = true →
  OrderedDict.find k' (OrderedDict.set k x d) = Some x.
Proof.
  intros Hk Hh E. induction d as [|[k'' y] d IH]; cbn.
  - by rewrite E.
  - cbn in Hh. apply Forall_cons_1 in Hh as [Hk'' Hh].
    destruct (py_eqb k'' k) eqn:E'; cbn.
    + by rewrite (py_eqb_trans_eq _ _ k' Hk'' E'), E.
    + assert (py_eqb k'' k' = false) as ->.
      { destruct (py_eqb k'' k') eqn:E''; [|done].
        pose proof (py_eqb_hashable _ _ Hk E) as Hk'.
        pose proof (py_eqb_trans_eq k'' k' k Hk'' E'') as Ht.
        rewrite E', (py_eqb_sym k' k Hk' Hk), E in Ht. done. }
      by apply IH.
Qed.

(** A key different from the key set finds what it found before. *)
Lemma find_set_ne {V} (k k' : PyValue) (x : V) (d : OrderedDict.t V) :
  hashable k = true → hashable k' = true →
  Forall (λ k, hashable k = true) (OrderedDict.keys d) →
  py_eqb k k' = false →
  OrderedDict.find k' (OrderedDict.set k x d) = OrderedDict.find k' d.
Proof.
  intros Hk Hk' Hh E. induction d as [|[k'' y] d IH]; cbn.
  - by rewrite E.
  - cbn in Hh. apply Forall_cons_1 in Hh as [Hk'' Hh].
    destruct (py_eqb k'' k) eqn:E'; cbn.
    + rewrite (py_eqb_trans_eq _ _ k' Hk'' E'), E. done.
    + destruct (py_eqb k'' k'); [done|]. by apply IH.
Qed.

Lemma keys_set {V} (k : PyValue) (x : V) (d : OrderedDict.t V) :
  OrderedDict.keys (OrderedDict.set k x d) =
    match OrderedDict.find k d with
    | Some _ => OrderedDict.keys d
    | None => OrderedDict.keys d ++ [k]
    end.
Proof.
  unfold OrderedDict.keys. induction d as [|[k' y] d IH]; cbn; [done|].
  destruct (py_eqb k' k); cbn; [done|]. rewrite IH.
  by destruct (OrderedDict.find k d).
Qed.

Lemma dict_ok_set {V} (k : PyValue) (x : V) (d : OrderedDict.t V) :
  hashable k = true → dict_ok d → dict_ok (OrderedDict.set k x d).
Proof.
  intros Hk [Hh Hn]. unfold dict_ok. rewrite keys_set.
  destruct (OrderedDict.find k d) as [y|] eqn:Hfind; [done|]. split.
  - apply Forall_app_2; [done|]. by apply Forall_cons_2.
  - rewrite fmap_app. apply list.NoDup_app. split; [done|].
    split; [|apply list.NoDup_singleton].
    intros n Hn1 Hn2. apply list_elem_of_singleton in Hn2 as ->.
    clear Hn. induction d as [|[k' y] d IH]; cbn in *; [by apply elem_of_nil in Hn1|].
    apply Forall_cons_1 in Hh as [Hk' Hh].
    destruct (py_eqb k' k) eqn:E; [done|].
    apply elem_of_cons in Hn1 as [Hn1|Hn1]; [|by apply IH].
    assert (py_eqb k' k = true); [|congruence].
    apply (py_eqb_norm _ _ Hk'). by split.
Qed.

Lemma keys_remove_subseteq {V} (k : PyValue) (d : OrderedDict.t V) :
  OrderedDict.keys (OrderedDict.remove k d) ⊆ OrderedDict.keys d.
Proof.
  unfold OrderedDict.keys. induction d as [|[k' y] d IH]; cbn; [done|].
  destruct (py_eqb k' k); cbn.
  - intros z Hz. by apply list_elem_of_further.
  - intros z Hz. apply elem_of_cons in Hz as [->|Hz].
    + apply list_elem_of_here.
    + apply list_elem_of_further. by apply IH.
Qed.

Lemma dict_ok_remove {V} (k : PyValue) (d : OrderedDict.t V) :
  dict_ok d → dict_ok (OrderedDict.remove k d).
Proof.
  intros [Hh Hn]. split.
  - apply list.Forall_forall. intros z Hz.
    apply (proj1 (list.Forall_forall _ _) Hh). by apply (keys_remove_subseteq k d).
  - clear Hh. pose proof (keys_remove_subseteq k d) as Hsub. revert Hn Hsub.
    unfold OrderedDict.keys.
    induction d as [|[k' y] d IH]; cbn; [done|]. intros Hn.
    apply list.NoDup_cons in Hn as [Hnot Hn].
    destruct (py_eqb k' k); cbn; [done|]. intros _.
    apply list.NoDup_cons. split.
    + intros Hin. apply Hnot.
      apply list_elem_of_fmap in Hin as (z & Ez & Hz).
      apply list_elem_of_fmap. exists z. split; [done|].
      by apply (keys_remove_subseteq k d).
    + apply IH; [done|]. apply (keys_remove_subseteq k d).
Qed.

(** The key removed is not found afterwards. *)
Lemma find_remove_eq {V} (k : PyValue) (d : OrderedDict.t V) :
  dict_ok d → OrderedDict.find k (OrderedDict.remove k d) = None.
Proof.
  intros [Hh Hn]. induction d as [|[k' y] d IH]; cbn in *; [done|].
  apply Forall_cons_1 in Hh as [Hk' Hh]. apply list.NoDup_cons in Hn as [Hnot Hn].
  destruct (py_eqb k' k) eqn:E; cbn.
  - destruct (OrderedDict.find k d) as [z|] eqn:Hf; [|done].
    exfalso. apply Hnot.
    apply (py_eqb_norm _ _ Hk') in E as [_ ->].
    by eapply find_Some_norm.
  - rewrite E. by apply IH.
Qed.

(** Another key finds what it found before the removal. *)
Lemma find_remove_ne {V} (k k' : PyValue) (d : OrderedDict.t V) :
  Forall (λ k, hashable k = true) (OrderedDict.keys d) →
  py_eqb k k' = false → hashable k = true →
  OrderedDict.find k' (OrderedDict.remove k d) = OrderedDict.find k' d.
Proof.
  intros Hh E Hk. induction d as [|[k'' y] d IH]; cbn in *; [done|].
  apply Forall_cons_1 in Hh as [Hk'' Hh].
  destruct (py_eqb k'' k) eqn:E'; cbn.
  - by rewrite (py_eqb_trans_eq _ _ k' Hk'' E'), E.
  - destruct (py_eqb k'' k'); [done|]. by apply IH.
Qed.

Lemma length_remove {V} (k : PyValue) (d : OrderedDict.t V) (x : V) :
  OrderedDict.find k d = Some x →
  S (length (OrderedDict.remove k d)) = length d.
Proof.
  induction d as [|[k' y] d IH]; cbn; [done|].
  destruct (py_eqb k' k); cbn; [done|]. intros H. by rewrite IH.
Qed.

Lemma update_cons {V} (d : OrderedDict.t V) (k : PyValue) (x : V) (other : OrderedDict.t V) :
  OrderedDict.update d ((k, x) :: other) = OrderedDict.update (OrderedDict.set k x d) other.
Proof. reflexivity. Qed.

Lemma dict_ok_update {V} (d other : OrderedDict.t V) :
  dict_ok d → Forall (λ k, hashable k = true) (OrderedDict.keys other) →
  dict_ok (OrderedDict.update d other).
Proof.
  revert d. induction other as [|[k x] other IH]; intros d Hd Ho; [done|].
  cbn in Ho. apply Forall_cons_1 in Ho as [Hk Ho].
  rewrite update_cons. apply IH; [|done]. by apply dict_ok_set.
Qed.

Lemma hashable_keys_set {V} (k : PyValue) (x : V) (d : OrderedDict.t V) :
  hashable k = true →
  Forall (λ k, hashable k = true) (OrderedDict.keys d) →
  Forall (λ k, hashable k = true) (OrderedDict.keys (OrderedDict.set k x d)).
Proof.
  intros Hk Hd. rewrite keys_set. destruct (OrderedDict.find k d); [done|].
  apply Forall_app_2; [done|]. by apply Forall_cons_2.
Qed.

(** The keys of [d] keep their places in [d.update(other)]. *)
Lemma keys_update_prefix {V} (d other : OrderedDict.t V) :
  OrderedDict.keys d `prefix_of` OrderedDict.keys (OrderedDict.update d other).
Proof.
  revert d. induction other as [|[k x] other IH]; intros d; [done|].
  rewrite update_cons. etrans; [|apply IH].
  rewrite keys_set. destruct (OrderedDict.find k d); [done|]. by apply prefix_app_r.
Qed.

(** After [d.update(other)] a key has the value of [other] when [other]
    has the key, and the value it had in [d] otherwise. *)
Lemma find_update {V} (d other : OrderedDict.t V) (k' : PyValue) :
  Forall (λ k, hashable k = true) (OrderedDict.keys d) →
  dict_ok other → hashable k' = true →
  OrderedDict.find k' (OrderedDict.update d other) =
    match OrderedDict.find k' other with
    | Some y => Some y
    | None => OrderedDict.find k' d
    end.
Proof.
  intros Hd Ho Hk'. revert d Hd.
  induction other as [|[k x] other IH]; intros d Hd; [done|].
  destruct Ho as [Hh Hn]. cbn in Hh, Hn.
  apply Forall_cons_1 in Hh as [Hk Hh]. apply list.NoDup_cons in Hn as [Hnot Hn].
  rewrite update_cons, IH; [|by split|by apply hashable_keys_set].
  cbn [OrderedDict.find].
  destruct (py_eqb k k') eqn:E.
  - destruct (OrderedDict.find k' other) as [y|] eqn:Hf.
    + exfalso. apply Hnot.
      apply (py_eqb_norm _ _ Hk) in E as [_ ->]. by eapply find_Some_norm.
    + by apply find_set_eqb.
  - destruct (OrderedDict.find k' other); [done|]. by apply find_set_ne.
Qed.

(** ** The calls of the base mapping variable *)

(** The tests on the method name are decided by computation. *)
Ltac name_dispatch :=
  cbn [elif_chain String.eqb Ascii.eqb Bool.eqb and_then orb andb];
  rewrite ?bind_ret; cbv beta iota.

(** The start of [ConstDictVariable.call_method]: the options, and the
    items of [self]. *)
Ltac start Hall Hv Hitems :=
  unfold ConstDictVariable_call_method;
  rewrite (bind_Ok _ _ _ _ _ (propagate_allocated _ _ Hall));
  rewrite (bind_deref _ _ _ _ Hv);
  rewrite (bind_lift _ _ _ _ Hitems).

(** The tests [args and is_valid_key(args[0])] and [get_key(tx, args[0]) in
    self.items], once their answers are known. *)
Ltac step_valid Hvalid :=
  rewrite ?bind_assoc; unfold args_and_is_valid_key;
  rewrite (bind_read _ _ _ true) by exact Hvalid; cbn [and_then].

Ltac step_present k nk b :=
  rewrite ?bind_assoc; unfold key_in_items;
  rewrite ?bind_assoc, (bind_lift _ _ _ k) by done;
  rewrite ?bind_assoc, (bind_read _ _ _ nk) by done;
  rewrite (bind_lift _ _ _ b) by done;
  rewrite ?bind_ret; cbn [negb andb].

(** A read made twice is a read made once. *)
Lemma bind_read_twice {A B} (g : Tx → Res A) (f : A → M B) (s : Tx) :
  bind (read g) (λ _, bind (read g) f) s = bind (read g) f s.
Proof. unfold bind, read. by destruct (g s). Qed.

Lemma bind_read_Err {A B} (g : Tx → Res A) (f : A → M B) (s : Tx) (e : Exn) :
  g s = Err e → bind (read g) f s = (Err e, s).
Proof. unfold bind, read. by intros ->. Qed.

Lemma bind_lift_Err {A B} (r : Res A) (f : A → M B) (s : Tx) (e : Exn) :
  r = Err e → bind (lift r) f s = (Err e, s).
Proof. by intros ->. Qed.

(** The method names that [ConstDictVariable.call_method] tests for. *)
Definition handled_names : list string :=
  ["__getitem__"; "items"; "keys"; "values"; "__len__"; "__setitem__"; "pop"; "get";
   "update"; "__getattr__"; "__contains__"].

Lemma eqb_not_elem (name x : string) (l : list string) :
  name ∉ l → x ∈ l → String.eqb name x = false.
Proof. intros Hn Hx. apply String.eqb_neq. intros ->. done. Qed.

Lemma Forall_allocated_call s (v : nat) (o : VarObj) (args rest : list nat) :
  heap s !! v = Some o →
  Forall (allocated (heap s)) args →
  Forall (allocated (heap s)) rest →
  Forall (allocated (heap s)) (v :: args ++ rest).
Proof.
  intros Hv Ha Hr. apply Forall_cons_2; [by eexists|]. by apply Forall_app_2.
Qed.

Lemma getitem_const_hit s v k o d od items nk :
  heap s !! v = Some o → heap s !! d = Some od →
  class_items (cls o) = Ok items → wf_var (heap s) od →
  call_get_key [ArgTx; ArgVar k] s = Ok nk →
  OrderedDict.getitem items nk = Ok d →
  getitem_const v k s =
    (Ok (length (heap s)),
     set_heap (heap s ++ [with_guards (heap s) od (⋃ (guards_at (heap s) <$> [v; k]))]) s).
Proof.
  intros Hv Hd Hitems Hwf Hkey Hget.
  pose proof (call_get_key_allocated _ _ _ Hkey) as Hk.
  unfold getitem_const.
  rewrite (bind_deref _ _ _ _ Hv).
  rewrite (bind_lift _ _ _ items) by done.
  rewrite (bind_read _ _ _ nk) by done.
  rewrite (bind_lift _ _ _ d) by done.
  erewrite bind_Ok; last first.
  { apply propagate_allocated.
    repeat first [apply Forall_nil_2 | apply Forall_cons_2]; by eauto using allocated_Some. }
  by apply add_guards_spec.
Qed.

Lemma getitem_const_miss s v k o items nk e :
  heap s !! v = Some o → class_items (cls o) = Ok items →
  call_get_key [ArgTx; ArgVar k] s = Ok nk →
  OrderedDict.getitem items nk = Err e →
  getitem_const v k s = (Err e, s).
Proof.
  intros Hv Hitems Hkey Hget.
  unfold getitem_const.
  rewrite (bind_deref _ _ _ _ Hv).
  rewrite (bind_lift _ _ _ items) by done.
  rewrite (bind_read _ _ _ nk) by done.
  by apply bind_lift_Err.
Qed.

Lemma getitem_Ok_find {V} (d : OrderedDict.t V) (k : PyValue) (x : V) :
  OrderedDict.getitem d k = Ok x ↔ hashable k = true ∧ OrderedDict.find k d = Some x.
Proof.
  unfold OrderedDict.getitem, OrderedDict.unhashable.
  destruct (hashable k); [|naive_solver].
  destruct (OrderedDict.find k d); naive_solver.
Qed.

Lemma contains_getitem_Ok {V} (d : OrderedDict.t V) (k : PyValue) (x : V) :
  OrderedDict.getitem d k = Ok x → OrderedDict.contains k d = Ok true.
Proof.
  intros [Hh Hf]%getitem_Ok_find. unfold OrderedDict.contains.
  rewrite Hh, Hf. by rewrite bool_decide_eq_true_2.
Qed.

Lemma contains_false_getitem {V} (d : OrderedDict.t V) (k : PyValue) :
  OrderedDict.contains k d = Ok false → OrderedDict.getitem d k = Err (KeyError k).
Proof.
  unfold OrderedDict.contains, OrderedDict.getitem.
  destruct (hashable k); [|done].
  destruct (OrderedDict.find k d); [|done].
  rewrite bool_decide_eq_true_2; [done|by eexists].
Qed.

Lemma wf_store_value h v o items nk d :
  wf_store h → h !! v = Some o → class_items (cls o) = Ok items →
  OrderedDict.getitem items nk = Ok d →
  ∃ od, h !! d = Some od ∧ wf_var h od.
Proof.
  intros Hwf Hv Hitems [_ Hf]%getitem_Ok_find.
  destruct (wf_store_items _ _ _ _ Hwf Hv Hitems) as [Hch _].
  assert (allocated h d) as [od Hd].
  { eapply list.Forall_forall; [exact Hch|]. by eapply find_values. }
  exists od. split; [done|]. by eapply wf_store_lookup.
Qed.

(** The copy that [add_options] makes of a variable. *)
Definition copy_of (od or : VarObj) : Prop :=
  cls or = cls od ∧ source or = source od ∧
  mutable_local or = mutable_local od ∧
  recursively_contains or = recursively_contains od ∧
  guards od ⊆ guards or.

Lemma copy_of_with_guards h od g :
  copy_of od (with_guards h od g) ∧ g ⊆ guards (with_guards h od g).
Proof.
  destruct (with_guards_same h od g) as (Ec & Es & Em & Er & Eg).
  split; [repeat split; try done|].
  - etrans; [|exact Eg]. apply union_subseteq_l.
  - etrans; [|exact Eg]. apply union_subseteq_r.
Qed.

Lemma propagate_self s v o :
  heap s !! v = Some o →
  propagate (v :: [] ++ (@nil (string * nat)).*2) s = (Ok (guards o), s).
Proof.
  intros Hv. rewrite propagate_call by (apply Forall_cons_2; [by eexists|done]).
  do 2 f_equal. cbn. unfold guards_at. rewrite Hv. cbn.
  by rewrite (right_id_L ∅ (∪)).
Qed.

Lemma propagate_single s v o :
  heap s !! v = Some o → propagate [v] s = (Ok (guards o), s).
Proof. exact (propagate_self s v o). Qed.

(** [s'] is [s] with more objects in the store. *)
Definition extends (s s' : Tx) : Prop := ∃ ext, s' = set_heap (heap s ++ ext) s.

Lemma extends_refl s : extends s s.
Proof. exists []. rewrite app_nil_r. by destruct s. Qed.

Lemma extends_trans s1 s2 s3 : extends s1 s2 → extends s2 s3 → extends s1 s3.
Proof.
  intros [e1 ->] [e2 ->]. exists (e1 ++ e2). cbn. by rewrite app_assoc.
Qed.

Lemma extends_alloc s o : extends s (set_heap (heap s ++ [o]) s).
Proof. by exists [o]. Qed.

Lemma extends_heap_agree s s' : extends s s' → heap_agree (heap s) (heap s').
Proof. intros [ext ->]. apply heap_agree_app. Qed.

Lemma extends_lookup s s' l o : extends s s' → heap s !! l = Some o → heap s' !! l = Some o.
Proof. intros [ext ->] Hl. cbn. by apply lookup_app_l_Some. Qed.

Lemma extends_allocated s s' l : extends s s' → allocated (heap s) l → allocated (heap s') l.
Proof. intros [ext ->]. apply allocated_app. Qed.

Lemma extends_fresh s0 s : extends s0 s → heap s0 !! length (heap s) = None.
Proof.
  intros [ext ->]. apply lookup_ge_None_2. cbn. rewrite length_app. lia.
Qed.

Lemma extends_call_get_key s s' l k :
  extends s s' →
  call_get_key [ArgTx; ArgVar l] s = Ok k → call_get_key [ArgTx; ArgVar l] s' = Ok k.
Proof.
  intros Hext. apply call_get_key_agree.
  - by apply extends_heap_agree.
  - by destruct Hext as [ext ->].
  - by destruct Hext as [ext ->].
Qed.

Lemma extends_guards_at s s' l :
  extends s s' → allocated (heap s) l → guards_at (heap s') l = guards_at (heap s) l.
Proof. intros [ext ->]. apply guards_at_app. Qed.

(** A key that is kept as a constant: a literal that needs no weak
    reference. *)
Definition plain_key (k : PyValue) : Prop :=
  is_valid_global_ref_key k = false ∧ is_literal k = true.

Lemma constant_get_key s l o k :
  heap s !! l = Some o → cls o = ConstantVariable k →
  call_get_key [ArgTx; ArgVar l] s = Ok k ∧ is_valid_key l s = Ok true.
Proof.
  intros Hl Hc.
  assert (as_python_constant l s = Ok k) as Hconst.
  { unfold as_python_constant. rewrite as_python_constant_in_unfold. cbv zeta.
    rewrite (deref_in_Some _ _ _ Hl). cbn. by rewrite Hc. }
  split.
  - cbn. rewrite (deref_in_Some _ _ _ Hl). cbn. by rewrite Hc.
  - unfold is_valid_key, is_python_constant.
    rewrite (deref_in_Some _ _ _ Hl). cbn. rewrite Hc.
    unfold VariableTracker_is_python_constant. by rewrite Hconst.
Qed.

Lemma tx_mapM_extends {A B} (f : A → M B) (Pre : Tx → A → Prop) (Q : Tx → A → B → Prop)
    (l : list A) (s : Tx) :
  (∀ s s' x, extends s s' → Pre s x → Pre s' x) →
  (∀ s s' x y, extends s s' → Q s x y → Q s' x y) →
  (∀ s x, Pre s x → ∃ y s', f x s = (Ok y, s') ∧ extends s s' ∧ Q s' x y) →
  Forall (Pre s) l →
  ∃ ys s', tx_mapM f l s = (Ok ys, s') ∧ extends s s' ∧ Forall2 (Q s') l ys.
Proof.
  intros HPre HQ Hf. revert s.
  induction l as [|x l IH]; intros s Hl.
  - exists [], s. split; [done|]. split; [apply extends_refl|constructor].
  - apply Forall_cons_1 in Hl as [Hx Hl].
    destruct (Hf _ _ Hx) as (y & s1 & Hfx & He1 & Hq).
    destruct (IH s1) as (ys & s2 & Hm & He2 & Hqs).
    { eapply list.Forall_impl; [exact Hl|]. intros z. by apply HPre. }
    exists (y :: ys), s2. split; [|split].
    + cbn [tx_mapM]. rewrite (bind_Ok _ _ _ _ _ Hfx), (bind_Ok _ _ _ _ _ Hm). done.
    + by eapply extends_trans.
    + constructor; [by eapply HQ|done].
Qed.

(** The variable [l] made for the key [k] of a mapping, from the state
    [s0]: a new object of [s'], the constant [k] with the guards [g]. *)
Definition key_var (s0 : Tx) (g : gset Guard) (s' : Tx) (k : PyValue) (l : nat) : Prop :=
  heap s0 !! l = None ∧
  heap s' !! l = Some (mkVar (ConstantVariable k) g None None ∅).

Lemma key_var_extends s0 g s s' k l :
  extends s s' → key_var s0 g s k l → key_var s0 g s' k l.
Proof. intros He [Hn Hl]. split; [done|]. by eapply extends_lookup. Qed.

(** What a key variable gives back: the key. *)
Definition normalises_to (s0 : Tx) (g : gset Guard) (s' : Tx) (k : PyValue) (l : nat) : Prop :=
  heap s0 !! l = None ∧
  guards_at (heap s') l = g ∧
  call_get_key [ArgTx; ArgVar l] s' = Ok k ∧
  is_valid_key l s' = Ok true.

Lemma key_var_normalises s0 g s' k l :
  key_var s0 g s' k l → normalises_to s0 g s' k l.
Proof.
  intros [Hn Hl]. split; [done|]. split.
  - unfold guards_at. by rewrite Hl.
  - by eapply constant_get_key.
Qed.

(** The pair made for an entry: a new tuple of the key variable and the
    value of the entry. *)
Definition pair_var (s0 : Tx) (g : gset Guard) (s' : Tx) (e : PyValue * nat) (p : nat) : Prop :=
  heap s0 !! p = None ∧
  ∃ kv op, heap s' !! p = Some op ∧ cls op = TupleVariable [kv; e.2] ∧ guards op = g ∧
           key_var s0 g s' e.1 kv.

(** [h'] keeps the objects of [h]; only their [MutableLocal] may differ. *)
Definition heap_kept (h h' : list VarObj) : Prop :=
  ∀ l o, h !! l = Some o →
    ∃ o', h' !! l = Some o' ∧ cls o' = cls o ∧ guards o' = guards o ∧
          source o' = source o ∧ recursively_contains o' = recursively_contains o.

Lemma heap_kept_agree h h' : heap_kept h h' → heap_agree h h'.
Proof. intros H l o Ho. destruct (H _ _ Ho) as (o' & ? & ? & _). eauto. Qed.

Lemma heap_kept_app h ext : heap_kept h (h ++ ext).
Proof. intros l o Ho. exists o. split; [by apply lookup_app_l_Some|done]. Qed.

Lemma heap_kept_alter h v m : heap_kept h (alter (set_mutable_local m) v h).
Proof.
  intros l o Ho. destruct (decide (l = v)) as [->|Hne].
  - exists (set_mutable_local m o). split; [|done].
    by rewrite list_lookup_alter_eq, Ho.
  - exists o. split; [|done]. by rewrite list_lookup_alter_ne.
Qed.

Lemma heap_kept_trans h1 h2 h3 : heap_kept h1 h2 → heap_kept h2 h3 → heap_kept h1 h3.
Proof.
  intros H12 H23 l o Ho.
  destruct (H12 _ _ Ho) as (o2 & Ho2 & ? & ? & ? & ?).
  destruct (H23 _ _ Ho2) as (o3 & Ho3 & ? & ? & ? & ?).
  exists o3. repeat split; congruence.
Qed.

Lemma wf_store_alter h v m : wf_store h → wf_store (alter (set_mutable_local m) v h).
Proof.
  intros Hwf. unfold wf_store.
  assert (∀ o, wf_var h o → wf_var (alter (set_mutable_local m) v h) o) as Hstep.
  { intros o [Hc Hok]. split; [|done].
    eapply list.Forall_impl; [exact Hc|]. intros c. by apply allocated_alter. }
  apply Forall_alter.
  - eapply list.Forall_impl; [exact Hwf|]. exact Hstep.
  - intros o _ Ho. exact Ho.
Qed.

Lemma wf_store_snoc h o : wf_store h → wf_var (h ++ [o]) o → wf_store (h ++ [o]).
Proof.
  intros Hwf Ho. apply Forall_app_2.
  - eapply list.Forall_impl; [exact Hwf|]. intros o'. apply wf_var_app.
  - by apply Forall_cons_2.
Qed.

Lemma constructed_dict h c items g src ml rc :
  is_ConstDictVariable c = true →
  let o2 := constructed h (with_items items c) g src ml rc in
  cls o2 = with_items items c ∧ source o2 = src ∧ mutable_local o2 = ml ∧
  guards o2 = g ∪ ⋃ (guards_at h <$> OrderedDict.values items).
Proof. intros Hc. by destruct c. Qed.

Lemma wf_var_constructed h h' c items g src ml rc :
  is_ConstDictVariable c = true → class_ok c = true →
  Forall (allocated h') (OrderedDict.values items) →
  wf_var h' (constructed h (with_items items c) g src ml rc).
Proof.
  intros Hc Hok Hch. split; cbn.
  - by rewrite children_with_items.
  - by rewrite class_ok_with_items.
Qed.

Lemma Forall_allocated_set h nk x items :
  allocated h x → Forall (allocated h) (OrderedDict.values items) →
  Forall (allocated h) (OrderedDict.values (OrderedDict.set nk x items)).
Proof.
  intros Hx Hch. apply list.Forall_forall. intros c Hc.
  apply values_set_subseteq in Hc. apply elem_of_cons in Hc as [->|Hc]; [done|].
  by eapply list.Forall_forall in Hch.
Qed.

Lemma guards_at_Some h l o : h !! l = Some o → guards_at h l = guards o.
Proof. intros H. unfold guards_at. by rewrite H. Qed.

Lemma length_snoc (h : list VarObj) (o : VarObj) : length (h ++ [o]) = S (length h).
Proof. rewrite length_app. cbn. lia. Qed.

Section Coverage.

Variable global_key_name : PyValue → string.
Variable VariableBuilder : Source → PyValue → VarObj.

Local Open Scope tx_scope.

(** X1. The call of [__contains__] on a base mapping variable never returns
    a variable, whatever the state and the arguments: with a valid key the
    branch calls [get_key] with the key alone and raises [TypeError], with
    any other key it is not implemented, and without an argument [args[0]]
    fails.  The state is as before the call. *)
Theorem X1_contains_never_answers s v args kwargs :
  ∃ e, ConstDictVariable_call_method global_key_name VariableBuilder
         v "__contains__" args kwargs s = (Err e, s).
Proof using Type.
  unfold ConstDictVariable_call_method, propagate.
  destruct (propagate_in (heap s) (v :: args ++ kwargs.*2)) as [options|e] eqn:Hp;
    [|eexists; by apply bind_read_Err].
  rewrite (bind_read _ _ _ _ Hp). unfold deref.
  destruct (deref_in (heap s) v) as [o|e] eqn:Hv;
    [|eexists; by apply bind_read_Err].
  rewrite (bind_read _ _ _ _ Hv).
  destruct (items_of o) as [val|e]; [|eexists; by apply bind_lift_Err].
  rewrite (bind_lift _ _ _ val) by done.
  name_dispatch.
  destruct args as [|a rest]; cbn [args_and_is_valid_key].
  - name_dispatch. eexists. reflexivity.
  - destruct (is_valid_key a s) as [[|]|e] eqn:Ha.
    + rewrite (bind_read _ _ _ _ Ha). eexists. reflexivity.
    + rewrite (bind_read _ _ _ _ Ha). name_dispatch. eexists. reflexivity.
    + eexists. by apply bind_read_Err.
Qed.

(** X2. A method name that [call_method] does not test for is passed to
    the base class, with the arguments and the state unchanged. *)
Theorem X2_unknown_method_falls_through s v o items name args kwargs :
  heap s !! v = Some o →
  class_items (cls o) = Ok items →
  Forall (allocated (heap s)) (args ++ kwargs.*2) →
  name ∉ handled_names →
  ConstDictVariable_call_method global_key_name VariableBuilder v name args kwargs s =
    VariableTracker_call_method v name args kwargs s.
Proof using Type.
  intros Hv Hitems Hargs Hname.
  assert (Forall (allocated (heap s)) (v :: args ++ kwargs.*2)) as Hall.
  { apply Forall_cons_2; [by eexists|done]. }
  start Hall Hv Hitems.
  cbn [elif_chain].
  rewrite !(eqb_not_elem name _ _ Hname) by (apply list_elem_of_In; cbn; tauto).
  name_dispatch. done.
Qed.

(** X3. [__setitem__], [pop], [get] and [__getattr__] called without a
    positional argument, or with a key that [is_valid_key] rejects, are
    passed to the base class: nothing is stored and the state is unchanged. *)
Theorem X3_invalid_key_falls_through s v o items name args kwargs :
  heap s !! v = Some o →
  class_items (cls o) = Ok items →
  Forall (allocated (heap s)) (args ++ kwargs.*2) →
  name ∈ ["__setitem__"; "pop"; "get"; "__getattr__"] →
  match args with
  | [] => True
  | k :: _ => is_valid_key k s = Ok false
  end →
  ConstDictVariable_call_method global_key_name VariableBuilder v name args kwargs s =
    VariableTracker_call_method v name args kwargs s.
Proof using Type.
  intros Hv Hitems Hargs Hname Hkey.
  assert (Forall (allocated (heap s)) (v :: args ++ kwargs.*2)) as Hall.
  { apply Forall_cons_2; [by eexists|done]. }
  assert (args_and_is_valid_key args s = (Ok false, s)) as Hvalid.
  { destruct args as [|k rest]; [done|]. cbn. unfold read. by rewrite Hkey. }
  start Hall Hv Hitems.
  repeat (apply elem_of_cons in Hname as [->|Hname]); [| | | |by apply elem_of_nil in Hname].
  all: name_dispatch.
  all: repeat (rewrite ?bind_assoc, ?(bind_Ok _ _ _ _ _ Hvalid); name_dispatch).
  all: done.
Qed.

(** X4. [__getitem__] on a base mapping variable looks the normalised key
    up in the items.  A hit returns a copy of the stored variable (same
    class and contents, source, [MutableLocal] and [recursively_contains])
    that also carries the guards of the mapping and of the key; it is a new
    object and nothing else changes.  A miss, or a key that cannot be
    hashed, raises the error of the lookup ([KeyError], [TypeError]) and
    leaves the state as it was. *)
Theorem X4_base_getitem s v o items k rest kwargs nk :
  wf_store (heap s) →
  heap s !! v = Some o →
  class_items (cls o) = Ok items →
  Forall (allocated (heap s)) (rest ++ kwargs.*2) →
  call_get_key [ArgTx; ArgVar k] s = Ok nk →
  let call := ConstDictVariable_call_method global_key_name VariableBuilder in
  match OrderedDict.getitem items nk with
  | Ok d =>
      ∃ od or,
        heap s !! d = Some od ∧
        call v "__getitem__" (k :: rest) kwargs s =
          (Ok (length (heap s)), set_heap (heap s ++ [or]) s) ∧
        copy_of od or ∧
        guards o ∪ guards_at (heap s) k ⊆ guards or
  | Err e => call v "__getitem__" (k :: rest) kwargs s = (Err e, s)
  end.
Proof using Type.
  intros Hwf Hv Hitems Hrest Hkey call. subst call.
  pose proof (call_get_key_allocated _ _ _ Hkey) as Hk.
  assert (Forall (allocated (heap s)) (v :: (k :: rest) ++ kwargs.*2)) as Hall.
  { apply Forall_cons_2; [by eexists|]. by apply Forall_cons_2. }
  destruct (OrderedDict.getitem items nk) as [d|e] eqn:Hget.
  - destruct (wf_store_value _ _ _ _ _ _ Hwf Hv Hitems Hget) as (od & Hd & Hwfd).
    exists od, (with_guards (heap s) od (⋃ (guards_at (heap s) <$> [v; k]))).
    split; [done|]. split.
    + start Hall Hv Hitems. name_dispatch.
      rewrite (bind_lift _ _ _ k) by done.
      by eapply getitem_const_hit.
    + destruct (copy_of_with_guards (heap s) od (⋃ (guards_at (heap s) <$> [v; k])))
        as [Hc Hg].
      split; [done|]. etrans; [|exact Hg].
      change (⋃ (guards_at (heap s) <$> [v; k]))
        with (guards_at (heap s) v ∪ (guards_at (heap s) k ∪ ∅)).
      assert (guards_at (heap s) v = guards o) as ->.
      { unfold guards_at. by rewrite Hv. }
      by rewrite (right_id_L ∅ (∪)).
  - start Hall Hv Hitems. name_dispatch.
    rewrite (bind_lift _ _ _ k) by done.
    by eapply getitem_const_miss.
Qed.

(** X5. [get] and [__getattr__] with a valid key that is in the items
    return a copy of the stored variable carrying the guards of all the
    operands of the call, whatever further arguments are given; the only
    new object is the result. *)
Theorem X5_get_present s v o items name k rest kwargs nk d :
  wf_store (heap s) →
  heap s !! v = Some o →
  class_items (cls o) = Ok items →
  Forall (allocated (heap s)) (rest ++ kwargs.*2) →
  is_valid_key k s = Ok true →
  call_get_key [ArgTx; ArgVar k] s = Ok nk →
  OrderedDict.getitem items nk = Ok d →
  name = "get" ∨ name = "__getattr__" →
  ∃ od or,
    heap s !! d = Some od ∧
    ConstDictVariable_call_method global_key_name VariableBuilder v name (k :: rest) kwargs s =
      (Ok (length (heap s)), set_heap (heap s ++ [or]) s) ∧
    copy_of od or ∧
    ⋃ (guards_at (heap s) <$> v :: (k :: rest) ++ kwargs.*2) ⊆ guards or.
Proof using Type.
  intros Hwf Hv Hitems Hrest Hvalid Hkey Hget Hname.
  pose proof (call_get_key_allocated _ _ _ Hkey) as Hk.
  assert (Forall (allocated (heap s)) (v :: (k :: rest) ++ kwargs.*2)) as Hall.
  { apply Forall_cons_2; [by eexists|]. by apply Forall_cons_2. }
  pose proof (contains_getitem_Ok _ _ _ Hget) as Hcont.
  destruct (wf_store_value _ _ _ _ _ _ Hwf Hv Hitems Hget) as (od & Hd & Hwfd).
  set (options := ⋃ (guards_at (heap s) <$> v :: (k :: rest) ++ kwargs.*2)).
  exists od, (with_guards (heap s) od options).
  split; [done|]. split.
  - destruct Hname as [-> | ->]; start Hall Hv Hitems; fold options; name_dispatch.
    + step_valid Hvalid. step_present k nk true. name_dispatch.
      step_valid Hvalid. step_present k nk true.
      rewrite (bind_lift _ _ _ k) by done.
      rewrite (bind_read _ _ _ nk) by done.
      rewrite (bind_lift _ _ _ d) by done.
      by apply add_guards_spec.
    + step_valid Hvalid. step_present k nk true.
      rewrite (bind_lift _ _ _ k) by done.
      rewrite (bind_read _ _ _ nk) by done.
      rewrite (bind_lift _ _ _ d) by done.
      by apply add_guards_spec.
  - apply copy_of_with_guards.
Qed.

(** X6. With a valid key that is not in the items and no default (the
    call does not have exactly two positional arguments), [get] and
    [__getattr__] are passed to the base class; [pop] raises [KeyError]
    with the key on a mutable variable and is passed to the base class on a
    variable without a [MutableLocal].  The state is unchanged in each
    case. *)
Theorem X6_missing_key_without_default s v o items k rest kwargs nk :
  heap s !! v = Some o →
  class_items (cls o) = Ok items →
  Forall (allocated (heap s)) (rest ++ kwargs.*2) →
  is_valid_key k s = Ok true →
  call_get_key [ArgTx; ArgVar k] s = Ok nk →
  OrderedDict.contains nk items = Ok false →
  length rest ≠ 1%nat →
  let call name :=
    ConstDictVariable_call_method global_key_name VariableBuilder v name (k :: rest) kwargs s in
  let base name := VariableTracker_call_method v name (k :: rest) kwargs s in
  call "get" = base "get" ∧
  call "__getattr__" = base "__getattr__" ∧
  call "pop" =
    match mutable_local o with
    | Some _ => (Err (KeyError nk), s)
    | None => base "pop"
    end.
Proof using Type.
  intros Hv Hitems Hrest Hvalid Hkey Hcont Hlen call base. subst call base.
  pose proof (call_get_key_allocated _ _ _ Hkey) as Hk.
  assert (Forall (allocated (heap s)) (v :: (k :: rest) ++ kwargs.*2)) as Hall.
  { apply Forall_cons_2; [by eexists|]. by apply Forall_cons_2. }
  assert (bool_decide (length (k :: rest) = 2%nat) = false) as Hlen2.
  { apply bool_decide_eq_false_2. cbn. lia. }
  split; [|split].
  - start Hall Hv Hitems. name_dispatch.
    step_valid Hvalid. step_present k nk false. rewrite Hlen2. name_dispatch.
    step_valid Hvalid. step_present k nk false. name_dispatch. done.
  - start Hall Hv Hitems. name_dispatch.
    step_valid Hvalid. step_present k nk false. name_dispatch. done.
  - start Hall Hv Hitems. name_dispatch.
    step_valid Hvalid. step_present k nk false. rewrite Hlen2. name_dispatch.
    step_valid Hvalid. rewrite bind_ret.
    destruct (mutable_local o) as [m|] eqn:Hm.
    + rewrite bool_decide_eq_true_2 by (by eexists). cbn [andb].
      rewrite (bind_lift _ _ _ k) by done.
      rewrite (bind_read _ _ _ nk) by done.
      apply bind_lift_Err.
      unfold OrderedDict.pop. unfold OrderedDict.contains in Hcont.
      destruct (hashable nk); [|done].
      destruct (OrderedDict.find nk items); [|done].
      rewrite bool_decide_eq_true_2 in Hcont; [done|by eexists].
    + rewrite bool_decide_eq_false_2 by (by intros [? ?]). cbn [andb].
      name_dispatch. done.
Qed.

(** X7. [items], [keys], [values] and [__len__] take no argument: called
    with a positional or a keyword argument they fail their assertion, and
    the state is unchanged. *)
Theorem X7_no_argument_methods s v o items name args kwargs :
  heap s !! v = Some o →
  class_items (cls o) = Ok items →
  Forall (allocated (heap s)) (args ++ kwargs.*2) →
  name ∈ ["items"; "keys"; "values"; "__len__"] →
  args ≠ [] ∨ kwargs ≠ [] →
  ConstDictVariable_call_method global_key_name VariableBuilder v name args kwargs s =
    (Err AssertionError, s).
Proof using Type.
  intros Hv Hitems Hargs Hname Hne.
  assert (Forall (allocated (heap s)) (v :: args ++ kwargs.*2)) as Hall.
  { apply Forall_cons_2; [by eexists|done]. }
  assert (bool_decide (args = []) && bool_decide (kwargs = []) = false) as Hno.
  { destruct Hne as [Hne|Hne].
    - by rewrite (bool_decide_eq_false_2 _ Hne).
    - by rewrite (bool_decide_eq_false_2 _ Hne), andb_false_r. }
  start Hall Hv Hitems.
  repeat (apply elem_of_cons in Hname as [->|Hname]); [| | | |by apply elem_of_nil in Hname].
  all: name_dispatch; by rewrite Hno.
Qed.

(** X8. [__len__] makes the constant of the number of items, and [values]
    the tuple of the stored variables themselves, in the order of the
    items; each result is one new object carrying the guards of the
    mapping. *)
Theorem X8_len_and_values s v o items :
  wf_store (heap s) →
  heap s !! v = Some o →
  class_items (cls o) = Ok items →
  let call name :=
    ConstDictVariable_call_method global_key_name VariableBuilder v name [] [] s in
  let made obj := (Ok (length (heap s)), set_heap (heap s ++ [obj]) s) in
  call "__len__" =
    made (mkVar (ConstantVariable (PyInt (Z.of_nat (length items)))) (guards o)
            None None ∅) ∧
  call "values" =
    made (mkVar (TupleVariable (OrderedDict.values items)) (guards o) None None
            (⋃ (contribution_at (heap s) <$> OrderedDict.values items))).
Proof using Type.
  intros Hwf Hv Hitems call made. subst call made.
  destruct (wf_store_items _ _ _ _ Hwf Hv Hitems) as [Hch _].
  split.
  - unfold ConstDictVariable_call_method.
    rewrite (bind_Ok _ _ _ _ _ (propagate_self _ _ _ Hv)).
    rewrite (bind_deref _ _ _ _ Hv), (bind_lift _ _ _ _ Hitems).
    name_dispatch. unfold assert. rewrite !bool_decide_eq_true_2 by done. cbn [andb].
    unfold ConstantVariable_create. by rewrite construct_spec.
  - unfold ConstDictVariable_call_method.
    rewrite (bind_Ok _ _ _ _ _ (propagate_self _ _ _ Hv)).
    rewrite (bind_deref _ _ _ _ Hv), (bind_lift _ _ _ _ Hitems).
    name_dispatch. unfold assert. rewrite !bool_decide_eq_true_2 by done. cbn [andb].
    by rewrite construct_spec.
Qed.

(** ** Key variables *)

Lemma key_to_var_plain s k g :
  plain_key k →
  _key_to_var global_key_name VariableBuilder k g s =
    (Ok (length (heap s)),
     set_heap (heap s ++ [mkVar (ConstantVariable k) g None None ∅]) s).
Proof using Type.
  intros [Hg Hl]. unfold _key_to_var. rewrite Hg. unfold assert. rewrite Hl.
  unfold ConstantVariable_create. by rewrite construct_spec.
Qed.

(** X9. For a key that needs no weak reference, [_key_to_var] and [get_key]
    are inverse: a literal key becomes a new constant variable with the
    given guards, which [is_valid_key] accepts and [get_key] normalises back
    to the key; a key that is no literal fails the assertion. *)
Theorem X9_key_to_var_get_key s k g :
  is_valid_global_ref_key k = false →
  if is_literal k then
    ∃ l s' ol,
      _key_to_var global_key_name VariableBuilder k g s = (Ok l, s') ∧
      extends s s' ∧
      heap s !! l = None ∧
      heap s' !! l = Some ol ∧
      guards ol = g ∧
      call_get_key [ArgTx; ArgVar l] s' = Ok k ∧
      is_valid_key l s' = Ok true
  else
    _key_to_var global_key_name VariableBuilder k g s = (Err AssertionError, s).
Proof using Type.
  intros Hg. destruct (is_literal k) eqn:Hl.
  - eexists _, _, _. split; [by apply key_to_var_plain|].
    split; [apply extends_alloc|].
    split; [apply lookup_length_None|].
    split; [apply lookup_snoc|].
    split; [done|].
    eapply constant_get_key; [apply lookup_snoc|done].
  - unfold _key_to_var. rewrite Hg. unfold assert. by rewrite Hl.
Qed.

Lemma key_vars_spec s0 s g ks :
  extends s0 s →
  Forall plain_key ks →
  ∃ ls s', tx_mapM (λ k, _key_to_var global_key_name VariableBuilder k g) ks s = (Ok ls, s') ∧
           extends s s' ∧ Forall2 (key_var s0 g s') ks ls.
Proof using Type.
  intros He0 Hks.
  apply (tx_mapM_extends _ (λ s k, extends s0 s ∧ plain_key k) (key_var s0 g)).
  - intros s1 s2 k He [He1 Hk]. split; [by eapply extends_trans|done].
  - intros s1 s2 k l He. by apply key_var_extends.
  - intros s1 k [He1 Hk]. eexists _, _. split; [by apply key_to_var_plain|].
    split; [apply extends_alloc|]. split.
    + by apply extends_fresh.
    + apply lookup_snoc.
  - eapply list.Forall_impl; [exact Hks|]. done.
Qed.

(** The key variables hold no [MutableLocal]: the counter stays above every
    one in use. *)
Lemma key_vars_tokens s g ks ls s' :
  Forall plain_key ks →
  tx_mapM (λ k, _key_to_var global_key_name VariableBuilder k g) ks s = (Ok ls, s') →
  tokens_fresh s → tokens_fresh s'.
Proof using Type.
  intros Hks. revert s ls.
  induction Hks as [|k ks Hk Hks IH]; intros s ls Hrun Hf.
  - cbn in Hrun. by injection Hrun as _ <-.
  - cbn [tx_mapM] in Hrun.
    rewrite (bind_Ok _ _ _ _ _ (key_to_var_plain s k g Hk)) in Hrun.
    unfold bind in Hrun.
    destruct (tx_mapM _ ks _) as [[ys|e] s2] eqn:Hm; [|done].
    injection Hrun as _ <-. eapply IH; [exact Hm|].
    unfold tokens_fresh. cbn [heap next_mutable_local set_heap].
    apply tokens_below_snoc; [done|].
    apply tokens_below_intro; cbn; [done|].
    intros m Hm'. by apply elem_of_empty in Hm'.
Qed.

(** X10. [unpack_var_sequence] of a mapping whose keys are literals makes
    one new variable per key, in the order of the keys; each carries the
    guards of the mapping and normalises back to its key.  Nothing but the
    store grows. *)
Theorem X10_unpack_var_sequence_keys s v o items :
  heap s !! v = Some o →
  class_items (cls o) = Ok items →
  Forall plain_key (OrderedDict.keys items) →
  ∃ ls s',
    unpack_var_sequence global_key_name VariableBuilder v s = (Ok ls, s') ∧
    extends s s' ∧
    Forall2 (normalises_to s (guards o) s') (OrderedDict.keys items) ls.
Proof using Type.
  intros Hv Hitems Hks.
  destruct (key_vars_spec s s (guards o) _ (extends_refl s) Hks) as (ls & s' & Hm & He & Hq).
  exists ls, s'. split; [|split; [done|]].
  - unfold unpack_var_sequence.
    rewrite (bind_Ok _ _ _ _ _ (propagate_single _ _ _ Hv)).
    rewrite (bind_deref _ _ _ _ Hv), (bind_lift _ _ _ _ Hitems). exact Hm.
  - eapply list.Forall2_impl; [exact Hq|]. intros k l. apply key_var_normalises.
Qed.

(** X11. In a store whose [MutableLocal] counter is above every
    [MutableLocal] in use, [keys] of a mapping whose keys are literals
    returns a new set variable with a [MutableLocal] that no object of the
    store held, and the counter stays above every [MutableLocal] in use;
    the elements of the set are one new variable per key, in order, each
    normalising back to its key; the live table and the objects of the
    store are as before. *)
Theorem X11_keys_method s v o items :
  tokens_fresh s →
  heap s !! v = Some o →
  class_items (cls o) = Ok items →
  Forall plain_key (OrderedDict.keys items) →
  ∃ ls r s' or,
    ConstDictVariable_call_method global_key_name VariableBuilder v "keys" [] [] s =
      (Ok r, s') ∧
    heap s !! r = None ∧
    heap s' !! r = Some or ∧
    cls or = SetVariable ls ∧
    mutable_local or = Some (next_mutable_local s) ∧
    unused (heap s) (next_mutable_local s) ∧
    (∀ l o', heap s' !! l = Some o' → l ≠ r →
       mutable_local o' ≠ Some (next_mutable_local s)) ∧
    tokens_fresh s' ∧
    next_mutable_local s' = S (next_mutable_local s) ∧
    guards or = guards o ∧
    stack s' = stack s ∧
    old_objects_kept s s' ∧
    Forall2 (normalises_to s (guards o) s') (OrderedDict.keys items) ls.
Proof using Type.
  intros Hfresh Hv Hitems Hks.
  destruct (key_vars_spec s s (guards o) _ (extends_refl s) Hks) as (ls & s1 & Hm & He & Hq).
  pose proof (key_vars_tokens _ _ _ _ _ Hks Hm Hfresh) as Hfresh1.
  set (m := next_mutable_local s).
  set (s2 := set_next_mutable_local (S m) s1).
  set (or := constructed (heap s2) (SetVariable ls) (guards o) None (Some m) None).
  assert (next_mutable_local s1 = m) as Hm1 by (by destruct He as [ext ->]).
  unfold tokens_fresh in Hfresh1. rewrite Hm1 in Hfresh1.
  assert (Forall (allocated (heap s1)) ls) as Hls.
  { apply list.Forall_forall. intros l Hl.
    apply list_elem_of_lookup_1 in Hl as [i Hi].
    destruct (Forall2_lookup_r _ _ _ _ _ Hq Hi) as (k & _ & [_ Hk]). by eexists. }
  exists ls, (length (heap s1)), (set_heap (heap s2 ++ [or]) s2), or.
  split; [|split; [|split; [|split; [|split; [|split; [|split; [|split; [|split;
    [|split; [|split; [|split]]]]]]]]]]].
  - unfold ConstDictVariable_call_method.
    rewrite (bind_Ok _ _ _ _ _ (propagate_self _ _ _ Hv)).
    rewrite (bind_deref _ _ _ _ Hv), (bind_lift _ _ _ _ Hitems).
    name_dispatch. unfold assert. rewrite !bool_decide_eq_true_2 by done. cbn [andb].
    rewrite (bind_Ok _ _ _ _ _ Hm).
    unfold new_MutableLocal at 1. unfold bind at 1. cbv beta iota.
    rewrite Hm1. fold s2.
    by rewrite construct_spec.
  - by apply extends_fresh.
  - apply lookup_snoc.
  - done.
  - done.
  - by apply tokens_fresh_unused.
  - intros l o' Hl Hne Hown. cbn [heap set_heap] in Hl.
    apply lookup_app_Some in Hl as [Hl|[Hge Hl]].
    + pose proof (tokens_below_own _ _ _ (tokens_below_lookup _ _ _ _ Hfresh1 Hl) Hown).
      lia.
    + cbn [heap s2 set_next_mutable_local] in Hge, Hl.
      destruct (l - length (heap s1))%nat as [|i] eqn:Hi; [|by destruct i].
      apply Hne. lia.
  - unfold tokens_fresh. cbn [heap next_mutable_local set_heap s2 set_next_mutable_local].
    apply tokens_below_snoc.
    + eapply list.Forall_impl; [exact Hfresh1|].
      intros o'. apply tokens_below_mono. lia.
    + apply tokens_below_intro; cbn.
      * intros t [= <-]. lia.
      * intros t Ht.
        pose proof (tokens_below_contribution_at _ _ _ _ Hfresh1 Ht). lia.
  - done.
  - done.
  - by destruct He as [ext ->].
  - intros l ol Hl. cbn. apply lookup_app_l_Some. by eapply extends_lookup.
  - eapply list.Forall2_impl; [exact Hq|]. intros k l Hkv. apply key_var_normalises.
    destruct Hkv as [Hn Hl]. split; [done|]. cbn. by apply lookup_app_l_Some.
Qed.

(** X12. [items] of a mapping whose keys are literals returns a new tuple
    of pairs, one per entry and in order: each pair is a new tuple of a new
    key variable, which normalises back to the key of the entry, and of the
    stored variable of the entry itself. *)
Theorem X12_items_method s v o items :
  wf_store (heap s) →
  heap s !! v = Some o →
  class_items (cls o) = Ok items →
  Forall plain_key (OrderedDict.keys items) →
  ∃ ps r s' or,
    ConstDictVariable_call_method global_key_name VariableBuilder v "items" [] [] s =
      (Ok r, s') ∧
    heap s !! r = None ∧
    heap s' !! r = Some or ∧
    cls or = TupleVariable ps ∧
    guards or = guards o ∧
    stack s' = stack s ∧
    old_objects_kept s s' ∧
    Forall2 (λ e p, ∃ kv op, heap s !! p = None ∧ heap s' !! p = Some op ∧
                             cls op = TupleVariable [kv; e.2] ∧
                             normalises_to s (guards o) s' e.1 kv) items ps.
Proof using Type.
  intros Hwf Hv Hitems Hks.
  destruct (wf_store_items _ _ _ _ Hwf Hv Hitems) as [Hch _].
  set (g := guards o).
  set (f := λ e : PyValue * nat,
         (let* kv := _key_to_var global_key_name VariableBuilder e.1 g in
          construct (TupleVariable [kv; e.2]) g None None None)%tx).
  assert (∃ ps s1, tx_mapM f items s = (Ok ps, s1) ∧ extends s s1 ∧
                   Forall2 (pair_var s g s1) items ps) as (ps & s1 & Hm & He & Hq).
  { apply (tx_mapM_extends f (λ s1 e, extends s s1 ∧ plain_key e.1 ∧ allocated (heap s1) e.2)).
    - intros s1 s2 e He (He1 & Hk & Ha).
      split; [by eapply extends_trans|]. split; [done|]. by eapply extends_allocated.
    - intros s1 s2 e p He (Hn & kv & op & Hp & Hc & Hg & Hkv).
      split; [done|]. exists kv, op. split; [by eapply extends_lookup|].
      split; [done|]. split; [done|]. by eapply key_var_extends.
    - intros s1 e (He1 & Hk & Ha). unfold f.
      rewrite (bind_Ok _ _ _ _ _ (key_to_var_plain s1 e.1 g Hk)).
      set (s2 := set_heap _ s1).
      assert (extends s1 s2) as He2 by apply extends_alloc.
      eexists _, _. split.
      { apply construct_spec; [|done]. cbn [children].
        apply Forall_cons_2; [eexists; apply lookup_snoc|].
        apply Forall_cons_2; [|done]. by eapply (extends_allocated s1 s2). }
      split.
      { eapply extends_trans; [exact He2|]. apply extends_alloc. }
      split.
      { apply extends_fresh. by eapply extends_trans. }
      eexists _, _. split; [apply lookup_snoc|]. split; [done|]. split; [done|].
      split; [by apply extends_fresh|].
      cbn. apply lookup_app_l_Some. apply lookup_snoc.
    - clear -Hch Hks. unfold OrderedDict.keys, OrderedDict.values in *.
      induction items as [|[k x] items IH]; [constructor|].
      cbn in *. apply Forall_cons_1 in Hch as [Hx Hch]. apply Forall_cons_1 in Hks as [Hk Hks].
      apply Forall_cons_2; [|by apply IH].
      split; [apply extends_refl|]. done. }
  assert (Forall (allocated (heap s1)) ps) as Hps.
  { apply list.Forall_forall. intros p Hp.
    apply list_elem_of_lookup_1 in Hp as [i Hi].
    destruct (Forall2_lookup_r _ _ _ _ _ Hq Hi) as (e & _ & _ & kv & op & Hop & _).
    by eexists. }
  set (or := constructed (heap s1) (TupleVariable ps) g None None None).
  exists ps, (length (heap s1)), (set_heap (heap s1 ++ [or]) s1), or.
  split; [|split; [|split; [|split; [|split; [|split; [|split]]]]]].
  - unfold ConstDictVariable_call_method.
    rewrite (bind_Ok _ _ _ _ _ (propagate_self _ _ _ Hv)).
    rewrite (bind_deref _ _ _ _ Hv), (bind_lift _ _ _ _ Hitems).
    name_dispatch. unfold assert. rewrite !bool_decide_eq_true_2 by done. cbn [andb].
    fold g. fold f. rewrite (bind_Ok _ _ _ _ _ Hm).
    by rewrite construct_spec.
  - by apply extends_fresh.
  - apply lookup_snoc.
  - done.
  - done.
  - by destruct He as [ext ->].
  - intros l ol Hl. cbn. apply lookup_app_l_Some. by eapply extends_lookup.
  - eapply list.Forall2_impl; [exact Hq|].
    intros e p (Hn & kv & op & Hp & Hc & Hg & Hkv).
    exists kv, op. split; [done|].
    split; [cbn; by apply lookup_app_l_Some|]. split; [done|].
    apply key_var_normalises. eapply key_var_extends; [apply extends_alloc|done].
Qed.

(** ** The mutating calls *)

(** What [__setitem__] leaves behind, mutable receiver or not. *)
Definition setitem_post (s s' : Tx) (v : nat) (o : VarObj) (args : list nat)
    (nk : PyValue) (newitems : OrderedDict.t nat) : Prop :=
  let v2 := length (heap s) in
  wf_store (heap s') ∧ heap_kept (heap s) (heap s') ∧ length (heap s') = S v2 ∧
  stack s' = subst_loc v v2 <$> stack s ∧
  global_weakrefs s' = global_weakrefs (store_key global_key_name nk s) ∧
  nn_modules s' = nn_modules s ∧ recursion_limit s' = recursion_limit s ∧
  calls s' = calls s ∧
  ∃ o2, heap s' !! v2 = Some o2 ∧
        cls o2 = with_items newitems (cls o) ∧ source o2 = source o ∧
        is_Some (mutable_local o2) ∧
        ⋃ (guards_at (heap s) <$> v :: args) ⊆ guards o2.

(** The registry after the key is stored: one registration more when the
    key needs one and has none yet. *)
Definition registered_with (nk : PyValue) (w : list (string * PyValue))
    : list (string * PyValue) :=
  if is_valid_global_ref_key nk && negb (bool_decide ((global_key_name nk, nk) ∈ w))
  then w ++ [(global_key_name nk, nk)]
  else w.

Lemma weakrefs_store_key nk s :
  global_weakrefs (store_key global_key_name nk s) = registered_with nk (global_weakrefs s).
Proof using Type.
  unfold store_key, register_weakref, registered_with.
  destruct (is_valid_global_ref_key nk); [|done]. by destruct (bool_decide _).
Qed.

Lemma setitem_effect s v k x o items nk :
  wf_store (heap s) →
  heap s !! v = Some o →
  class_items (cls o) = Ok items →
  allocated (heap s) x →
  is_valid_key k s = Ok true →
  call_get_key [ArgTx; ArgVar k] s = Ok nk →
  hashable nk = true →
  ∃ s',
    ConstDictVariable_call_method global_key_name VariableBuilder v "__setitem__" [k; x] [] s =
      (Ok (length (heap s)), s') ∧
    setitem_post s s' v o [k; x] nk (OrderedDict.set nk x items).
Proof using Type.
  intros Hwf Hv Hitems Hxa Hvalid Hkey Hh.
  destruct (wf_store_items _ _ _ _ Hwf Hv Hitems) as [Hch Hok].
  pose proof (class_items_is_ConstDictVariable _ _ Hitems) as Hdict.
  destruct (mutable_local o) as [m|] eqn:Hm.
  - destruct Hxa as [ox Hx].
    assert (is_Some (mutable_local o)) as Hsome by (rewrite Hm; by eexists).
    eexists. split; [by eapply (setitem_mutable_spec _ _ s v k x o ox items nk)|].
    unfold setitem_post. cbn [heap stack set_stack set_heap global_weakrefs nn_modules
      recursion_limit calls].
    rewrite ?heap_store_key, ?stack_store_key, ?nn_modules_store_key,
      ?recursion_limit_store_key, ?calls_store_key.
    destruct (constructed_dict (heap s) (cls o) (OrderedDict.set nk x items)
                (⋃ (guards_at (heap s) <$> [v; k; x])) (source o) (mutable_local o)
                (Some (new_rec_contains o ox)) Hdict) as (Ec & Es & Em & Eg).
    split.
    { apply wf_store_snoc; [done|]. apply wf_var_constructed; try done.
      eapply list.Forall_impl; [|intros c; apply allocated_app].
      apply Forall_allocated_set; [by eexists|done]. }
    split; [apply heap_kept_app|].
    split; [rewrite length_app; cbn; lia|].
    repeat (split; [done|]).
    eexists. split; [apply lookup_snoc|]. unfold setitem_result.
    split; [done|]. split; [done|]. split; [by rewrite Em|].
    rewrite Eg. apply union_subseteq_l.
  - set (mnew := next_mutable_local s).
    set (h1 := alter (set_mutable_local (Some mnew)) v (heap s)).
    assert (allocated h1 x) as [ox1 Hx1] by (by apply allocated_alter).
    eexists. split; [by eapply (setitem_immutable_spec _ _ s v k x o ox1 items nk)|].
    unfold setitem_post. cbn [heap stack set_stack set_heap global_weakrefs nn_modules
      recursion_limit calls].
    rewrite ?heap_store_key, ?stack_store_key, ?nn_modules_store_key,
      ?recursion_limit_store_key, ?calls_store_key.
    fold mnew. fold h1.
    destruct (constructed_dict h1 (cls (set_mutable_local (Some mnew) o))
                (OrderedDict.set nk x items)
                (⋃ (guards_at (heap s) <$> [v; k; x]))
                (source (set_mutable_local (Some mnew) o))
                (mutable_local (set_mutable_local (Some mnew) o))
                (Some (new_rec_contains (set_mutable_local (Some mnew) o) ox1)) Hdict)
      as (Ec & Es & Em & Eg).
    split.
    { apply wf_store_snoc; [by apply wf_store_alter|].
      apply wf_var_constructed; try done.
      eapply list.Forall_impl; [|intros c; apply allocated_app].
      apply Forall_allocated_set; [by eexists|].
      eapply list.Forall_impl; [exact Hch|]. intros c. by apply allocated_alter. }
    split.
    { eapply heap_kept_trans; [apply heap_kept_alter|apply heap_kept_app]. }
    split; [rewrite length_app; unfold h1; rewrite length_alter; cbn; lia|].
    split; [done|].
    split.
    { by rewrite !weakrefs_store_key. }
    repeat (split; [done|]).
    eexists. split.
    { rewrite <- (length_alter (set_mutable_local (Some mnew)) (heap s) v).
      apply lookup_snoc. }
    unfold setitem_result.
    split; [done|]. split; [done|]. split; [rewrite Em; by eexists|].
    rewrite Eg. apply union_subseteq_l.
Qed.

Lemma new_version_of_post s s' v o args nk newitems :
  is_ConstDictVariable (cls o) = true →
  setitem_post s s' v o args nk newitems →
  new_version s s' v (length (heap s)) newitems.
Proof using Type.
  intros Hd (_ & _ & _ & Hst & _ & _ & _ & _ & o2 & Ho2 & Hc & _).
  split; [apply lookup_length_None|]. split; [|done].
  exists o2. split; [done|]. unfold items_of. rewrite Hc.
  by apply class_items_with_items.
Qed.

(** X13. What [__setitem__] stores, [__getitem__] finds.  In a well-formed
    store, take a base mapping variable, mutable or not, a key [k] that
    [is_valid_key] accepts and that [get_key] normalises to a hashable key,
    and a value [x] of the store: [__setitem__(k, x)] returns a new
    version, and [__getitem__(k)] on that version returns a new variable
    with the class and contents, the source and the guards of [x], and
    registers no further version. *)
Theorem X13_setitem_then_getitem s v k x o ox items nk :
  wf_store (heap s) →
  heap s !! v = Some o →
  class_items (cls o) = Ok items →
  heap s !! x = Some ox →
  is_valid_key k s = Ok true →
  call_get_key [ArgTx; ArgVar k] s = Ok nk →
  hashable nk = true →
  let call := ConstDictVariable_call_method global_key_name VariableBuilder in
  ∃ v2 s1 r s2 or,
    call v "__setitem__" [k; x] [] s = (Ok v2, s1) ∧
    call v2 "__getitem__" [k] [] s1 = (Ok r, s2) ∧
    heap s1 !! r = None ∧
    heap s2 !! r = Some or ∧
    cls or = cls ox ∧ source or = source ox ∧
    recursively_contains or = recursively_contains ox ∧
    guards ox ⊆ guards or ∧
    stack s2 = stack s1.
Proof using Type.
  intros Hwf Hv Hitems Hx Hvalid Hkey Hh call. subst call.
  pose proof (class_items_is_ConstDictVariable _ _ Hitems) as Hdict.
  destruct (setitem_effect s v k x o items nk Hwf Hv Hitems (allocated_Some _ _ _ Hx)
              Hvalid Hkey Hh) as (s1 & Hcall & Hpost).
  destruct Hpost as (Hwf1 & Hkept & Hlen & Hst & _ & Hnn & Hrl & _ & o2 & Ho2 & Hc2 & _).
  destruct (Hkept _ _ Hx) as (ox1 & Hx1 & Ecls & Eg & Esrc & Erc).
  assert (class_items (cls o2) = Ok (OrderedDict.set nk x items)) as Hitems2.
  { rewrite Hc2. by apply class_items_with_items. }
  assert (call_get_key [ArgTx; ArgVar k] s1 = Ok nk) as Hkey1.
  { eapply (call_get_key_agree s); [|done|done|exact Hkey]. by apply heap_kept_agree. }
  pose proof (call_get_key_allocated _ _ _ Hkey1) as Hk1.
  assert (OrderedDict.getitem (OrderedDict.set nk x items) nk = Ok x) as Hget.
  { unfold OrderedDict.getitem. by rewrite Hh, find_set_eq. }
  pose proof (wf_store_lookup _ _ _ Hwf1 Hx1) as Hwfx.
  set (g := ⋃ (guards_at (heap s1) <$> [length (heap s); k])).
  destruct (copy_of_with_guards (heap s1) ox1 g) as [(Ec & Es & Em & Er & Egs) _].
  exists (length (heap s)), s1, (length (heap s1)),
    (set_heap (heap s1 ++ [with_guards (heap s1) ox1 g]) s1), (with_guards (heap s1) ox1 g).
  split; [exact Hcall|]. split.
  { assert (Forall (allocated (heap s1)) (length (heap s) :: [k] ++ (@nil (string * nat)).*2))
      as Hall.
    { apply Forall_cons_2; [by eexists|]. by apply Forall_cons_2. }
    start Hall Ho2 Hitems2. name_dispatch.
    rewrite (bind_lift _ _ _ k) by done.
    by eapply getitem_const_hit. }
  cbn [heap stack set_heap].
  split; [apply lookup_length_None|].
  split; [apply lookup_snoc|].
  split; [congruence|]. split; [congruence|]. split; [congruence|].
  split; [by rewrite <- Eg|]. done.
Qed.

(** X14. The items of the version that [__setitem__(k, x)] makes: a key
    equal to the normalised key finds [x], any other key finds what it
    found before; an existing key keeps its place and a new key goes last;
    the keys stay hashable and pairwise different; and the version carries
    the guards of the mapping, of the key and of the value. *)
Theorem X14_setitem_items s v k x o items nk :
  wf_store (heap s) →
  heap s !! v = Some o →
  class_items (cls o) = Ok items →
  allocated (heap s) x →
  is_valid_key k s = Ok true →
  call_get_key [ArgTx; ArgVar k] s = Ok nk →
  hashable nk = true →
  dict_ok items →
  ∃ s' o2 items2,
    ConstDictVariable_call_method global_key_name VariableBuilder v "__setitem__" [k; x] [] s =
      (Ok (length (heap s)), s') ∧
    heap s' !! length (heap s) = Some o2 ∧
    items_of o2 = Ok items2 ∧
    dict_ok items2 ∧
    (∀ k', hashable k' = true →
       OrderedDict.find k' items2 =
         if py_eqb nk k' then Some x else OrderedDict.find k' items) ∧
    OrderedDict.keys items2 =
      match OrderedDict.find nk items with
      | Some _ => OrderedDict.keys items
      | None => OrderedDict.keys items ++ [nk]
      end ∧
    guards o ∪ guards_at (heap s) k ∪ guards_at (heap s) x ⊆ guards o2.
Proof using Type.
  intros Hwf Hv Hitems Hx Hvalid Hkey Hh Hok.
  pose proof (class_items_is_ConstDictVariable _ _ Hitems) as Hdict.
  destruct (setitem_effect s v k x o items nk Hwf Hv Hitems Hx Hvalid Hkey Hh)
    as (s1 & Hcall & Hpost).
  destruct Hpost as (_ & _ & _ & _ & _ & _ & _ & _ & o2 & Ho2 & Hc2 & _ & _ & Hg).
  exists s1, o2, (OrderedDict.set nk x items).
  split; [done|]. split; [done|].
  split; [unfold items_of; rewrite Hc2; by apply class_items_with_items|].
  split; [by apply dict_ok_set|].
  split.
  { intros k' Hk'. destruct Hok as [Hhs _].
    destruct (py_eqb nk k') eqn:E.
    - by apply find_set_eqb.
    - by apply find_set_ne. }
  split; [apply keys_set|].
  etrans; [|exact Hg].
  change (⋃ (guards_at (heap s) <$> [v; k; x]))
    with (guards_at (heap s) v ∪ (guards_at (heap s) k ∪ (guards_at (heap s) x ∪ ∅))).
  rewrite (guards_at_Some _ _ _ Hv), (right_id_L ∅ (∪)), (assoc_L (∪)). done.
Qed.

(** The keys that need a weak reference are registered with the tracer
    under their global names. *)
Definition keys_registered (s : Tx) (items : OrderedDict.t nat) : Prop :=
  ∀ k, k ∈ OrderedDict.keys items → is_valid_global_ref_key k = true →
       (global_key_name k, k) ∈ global_weakrefs s.

(** X15. [__setitem__] keeps the keys registered.  For a key that
    [is_valid_key] accepts and that normalises to a hashable key other than
    a tuple (the host makes no weak reference to a tuple): when every key
    of the mapping that needs a weak reference is registered with the
    tracer under its global name, so is every key of the new version.  The
    registry gains the one registration of the key when the key needs one
    and has none yet, and is unchanged otherwise. *)
Theorem X15_setitem_registers_key s v k x o items nk :
  wf_store (heap s) →
  heap s !! v = Some o →
  class_items (cls o) = Ok items →
  allocated (heap s) x →
  is_valid_key k s = Ok true →
  call_get_key [ArgTx; ArgVar k] s = Ok nk →
  hashable nk = true →
  (∀ elts, nk ≠ PyTuple elts) →
  keys_registered s items →
  ∃ s' o2 items2,
    ConstDictVariable_call_method global_key_name VariableBuilder v "__setitem__" [k; x] [] s =
      (Ok (length (heap s)), s') ∧
    heap s' !! length (heap s) = Some o2 ∧
    items_of o2 = Ok items2 ∧
    keys_registered s' items2 ∧
    global_weakrefs s' =
      if is_valid_global_ref_key nk &&
         negb (bool_decide ((global_key_name nk, nk) ∈ global_weakrefs s))
      then global_weakrefs s ++ [(global_key_name nk, nk)]
      else global_weakrefs s.
Proof using Type.
  intros Hwf Hv Hitems Hx Hvalid Hkey Hh _ Hreg.
  pose proof (class_items_is_ConstDictVariable _ _ Hitems) as Hdict.
  destruct (setitem_effect s v k x o items nk Hwf Hv Hitems Hx Hvalid Hkey Hh)
    as (s1 & Hcall & Hpost).
  destruct Hpost as (_ & _ & _ & _ & Hw & _ & _ & _ & o2 & Ho2 & Hc2 & _).
  rewrite weakrefs_store_key in Hw. unfold registered_with in Hw.
  exists s1, o2, (OrderedDict.set nk x items).
  split; [done|]. split; [done|].
  split; [unfold items_of; rewrite Hc2; by apply class_items_with_items|].
  split; [|done].
  assert (∀ p, p ∈ global_weakrefs s → p ∈ global_weakrefs s1) as Hgrow.
  { intros p Hp. rewrite Hw. destruct (_ && _); [|done]. apply elem_of_app. by left. }
  intros k' Hk' Hg'. rewrite keys_set in Hk'.
  assert (k' ∈ OrderedDict.keys items ∨
          (k' = nk ∧ OrderedDict.find nk items = None)) as [Hin|[-> _]].
  { destruct (OrderedDict.find nk items); [by left|].
    apply elem_of_app in Hk' as [?|Hk']; [by left|].
    apply list_elem_of_singleton in Hk'. by right. }
  - apply Hgrow. by apply Hreg.
  - rewrite Hw, Hg'. cbn [andb].
    destruct (bool_decide _) eqn:E; cbn [negb].
    + by apply bool_decide_eq_true_1 in E.
    + apply elem_of_app. right. by apply list_elem_of_singleton.
Qed.

(** [pop] of a present key on a mutable variable. *)
Lemma pop_effect s v k rest kwargs o items nk d od :
  let options := ⋃ (guards_at (heap s) <$> v :: (k :: rest) ++ kwargs.*2) in
  let o2 := constructed (heap s) (with_items (OrderedDict.remove nk items) (cls o))
              options (source o) (mutable_local o) None in
  let s2 := set_stack (subst_loc v (length (heap s)) <$> stack s)
              (set_heap (heap s ++ [o2]) s) in
  wf_store (heap s) →
  heap s !! v = Some o → heap s !! d = Some od →
  Forall (allocated (heap s)) (rest ++ kwargs.*2) →
  class_items (cls o) = Ok items →
  is_Some (mutable_local o) →
  is_valid_key k s = Ok true →
  call_get_key [ArgTx; ArgVar k] s = Ok nk →
  OrderedDict.getitem items nk = Ok d →
  ConstDictVariable_call_method global_key_name VariableBuilder v "pop" (k :: rest) kwargs s =
    (Ok (S (length (heap s))),
     set_heap (heap s2 ++ [with_guards (heap s2) od options]) s2).
Proof using Type.
  intros options o2 s2 Hwf Hv Hd Hrest Hitems Hm Hvalid Hkey Hget.
  pose proof (call_get_key_allocated _ _ _ Hkey) as Hk.
  destruct (wf_store_items _ _ _ _ Hwf Hv Hitems) as [Hch Hok].
  pose proof (wf_store_lookup _ _ _ Hwf Hd) as Hwfd.
  pose proof (contains_getitem_Ok _ _ _ Hget) as Hcont.
  apply getitem_Ok_find in Hget as [Hh Hfind].
  assert (Forall (allocated (heap s)) (v :: (k :: rest) ++ kwargs.*2)) as Hall.
  { apply Forall_cons_2; [by eexists|]. by apply Forall_cons_2. }
  start Hall Hv Hitems. fold options. name_dispatch.
  step_valid Hvalid. step_present k nk true. name_dispatch.
  step_valid Hvalid. rewrite bind_ret, (bool_decide_eq_true_2 _ Hm). cbn [andb].
  rewrite (bind_lift _ _ _ k) by done.
  rewrite (bind_read _ _ _ nk) by done.
  rewrite (bind_lift _ _ _ (d, OrderedDict.remove nk items)); last first.
  { unfold OrderedDict.pop. by rewrite Hh, Hfind. }
  erewrite bind_Ok; last first.
  { apply (modifed_spec _ _ o); try done.
    - by eapply class_items_is_ConstDictVariable.
    - apply list.Forall_forall. intros c Hc.
      apply values_remove_subseteq in Hc.
      by eapply list.Forall_forall in Hch. }
  fold o2. rewrite (bind_Ok _ _ _ _ _ (replace_all_spec _ _ _)).
  change (set_stack _ _) with s2.
  unfold add_options. rewrite (add_guards_spec _ _ od).
  - do 2 f_equal. unfold s2. cbn. by rewrite length_snoc.
  - unfold s2. cbn. by apply lookup_app_l_Some.
  - unfold s2. cbn. by apply wf_var_app.
Qed.

(** X16. [pop] of a present key on a mutable variable returns a copy of the
    stored variable and registers a new version without the key: the key
    is no longer found, every other key finds what it found before, there
    is one item less, and no object of the store is changed. *)
Theorem X16_pop_present s v k rest kwargs o items nk d :
  wf_store (heap s) →
  heap s !! v = Some o →
  class_items (cls o) = Ok items →
  is_Some (mutable_local o) →
  Forall (allocated (heap s)) (rest ++ kwargs.*2) →
  is_valid_key k s = Ok true →
  call_get_key [ArgTx; ArgVar k] s = Ok nk →
  OrderedDict.getitem items nk = Ok d →
  dict_ok items →
  ∃ od r s' or items2,
    heap s !! d = Some od ∧
    ConstDictVariable_call_method global_key_name VariableBuilder v "pop" (k :: rest) kwargs s =
      (Ok r, s') ∧
    heap s !! r = None ∧
    heap s' !! r = Some or ∧
    copy_of od or ∧
    new_version s s' v (length (heap s)) items2 ∧
    old_objects_kept s s' ∧
    dict_ok items2 ∧
    OrderedDict.contains nk items2 = Ok false ∧
    (∀ k', py_eqb nk k' = false → OrderedDict.find k' items2 = OrderedDict.find k' items) ∧
    S (length items2) = length items.
Proof using Type.
  intros Hwf Hv Hitems Hm Hrest Hvalid Hkey Hget Hok.
  pose proof (class_items_is_ConstDictVariable _ _ Hitems) as Hdict.
  destruct (wf_store_value _ _ _ _ _ _ Hwf Hv Hitems Hget) as (od & Hd & Hwfd).
  pose proof (pop_effect s v k rest kwargs o items nk d od Hwf Hv Hd Hrest Hitems Hm
                Hvalid Hkey Hget) as Hcall.
  cbv zeta in Hcall.
  set (options := ⋃ (guards_at (heap s) <$> v :: (k :: rest) ++ kwargs.*2)) in *.
  set (o2 := constructed (heap s) _ options _ _ None) in *.
  set (s2 := set_stack _ _) in *.
  apply getitem_Ok_find in Hget as [Hh Hfind].
  exists od, (S (length (heap s))),
    (set_heap (heap s2 ++ [with_guards (heap s2) od options]) s2),
    (with_guards (heap s2) od options), (OrderedDict.remove nk items).
  split; [done|]. split; [exact Hcall|].
  cbn [heap set_heap set_stack stack].
  split; [apply lookup_ge_None_2; lia|].
  split; [rewrite <- (length_snoc (heap s) o2); apply lookup_snoc|].
  split; [apply copy_of_with_guards|].
  split.
  { split; [apply lookup_length_None|]. split; [|done].
    exists o2. split; [apply lookup_app_l_Some, lookup_snoc|].
    by apply items_of_constructed. }
  split.
  { eapply old_objects_kept_app. unfold s2. cbn [heap set_heap set_stack].
    by rewrite <- app_assoc. }
  split; [by apply dict_ok_remove|].
  split.
  { unfold OrderedDict.contains. rewrite Hh, (find_remove_eq _ _ Hok).
    rewrite bool_decide_eq_false_2; [done|]. by intros [? ?]. }
  split.
  { intros k' E. destruct Hok as [Hhs _]. by apply find_remove_ne. }
  by eapply length_remove.
Qed.

(** [update] on a mutable variable: only the first argument is read. *)
Lemma update_effect s v other rest kwargs o oo items oitems :
  let options := ⋃ (guards_at (heap s) <$> v :: (other :: rest) ++ kwargs.*2) in
  let o2 := constructed (heap s) (with_items (OrderedDict.update items oitems) (cls o))
              options (source o) (mutable_local o)
              (Some (recursively_contains o ∪ recursively_contains oo)) in
  wf_store (heap s) →
  heap s !! v = Some o → heap s !! other = Some oo →
  Forall (allocated (heap s)) (rest ++ kwargs.*2) →
  class_items (cls o) = Ok items →
  class_items (cls oo) = Ok oitems →
  is_Some (mutable_local o) →
  ConstDictVariable_call_method global_key_name VariableBuilder v "update"
      (other :: rest) kwargs s =
    (Ok (length (heap s)),
     set_stack (subst_loc v (length (heap s)) <$> stack s)
       (set_heap (heap s ++ [o2]) s)).
Proof using Type.
  intros options o2 Hwf Hv Ho Hrest Hitems Hoitems Hm.
  destruct (wf_store_items _ _ _ _ Hwf Hv Hitems) as [Hch Hok].
  destruct (wf_store_items _ _ _ _ Hwf Ho Hoitems) as [Hoch _].
  assert (Forall (allocated (heap s)) (v :: (other :: rest) ++ kwargs.*2)) as Hall.
  { apply Forall_cons_2; [by eexists|]. apply Forall_cons_2; [by eexists|done]. }
  start Hall Hv Hitems. fold options. name_dispatch.
  rewrite bind_assoc. unfold args_and_isinstance_ConstDictVariable.
  rewrite bind_assoc, (bind_deref _ _ _ _ Ho), !bind_ret.
  unfold isinstance_ConstDictVariable.
  rewrite (class_items_is_ConstDictVariable _ _ Hoitems).
  rewrite (bool_decide_eq_true_2 _ Hm). cbn [andb].
  rewrite (bind_lift _ _ _ other) by done.
  rewrite (bind_deref _ _ _ _ Ho).
  rewrite (bind_lift _ _ _ oitems) by done.
  erewrite bind_Ok; last first.
  { apply (modifed_spec _ _ o); try done.
    - by eapply class_items_is_ConstDictVariable.
    - apply list.Forall_forall. intros c Hc.
      apply values_update_subseteq in Hc. apply elem_of_app in Hc as [Hc|Hc].
      + by eapply list.Forall_forall in Hch.
      + by eapply list.Forall_forall in Hoch. }
  done.
Qed.

(** X17. [update] on a mutable variable reads its first argument only:
    whatever further positional and keyword arguments are given, the new
    version has, for every key, the value of the argument when the argument
    has the key and its own value otherwise; its own keys keep their
    places; and it carries the guards of both mappings. *)
Theorem X17_update_items s v other rest kwargs o oo items oitems :
  wf_store (heap s) →
  heap s !! v = Some o →
  heap s !! other = Some oo →
  Forall (allocated (heap s)) (rest ++ kwargs.*2) →
  class_items (cls o) = Ok items →
  class_items (cls oo) = Ok oitems →
  is_Some (mutable_local o) →
  dict_ok items → dict_ok oitems →
  ∃ s' o2 items2,
    ConstDictVariable_call_method global_key_name VariableBuilder v "update"
      (other :: rest) kwargs s = (Ok (length (heap s)), s') ∧
    new_version s s' v (length (heap s)) items2 ∧
    old_objects_kept s s' ∧
    heap s' !! length (heap s) = Some o2 ∧
    guards o ∪ guards oo ⊆ guards o2 ∧
    dict_ok items2 ∧
    (∀ k', hashable k' = true →
       OrderedDict.find k' items2 =
         match OrderedDict.find k' oitems with
         | Some y => Some y
         | None => OrderedDict.find k' items
         end) ∧
    OrderedDict.keys items `prefix_of` OrderedDict.keys items2.
Proof using Type.
  intros Hwf Hv Ho Hrest Hitems Hoitems Hm Hok Hook.
  pose proof (class_items_is_ConstDictVariable _ _ Hitems) as Hdict.
  pose proof (update_effect s v other rest kwargs o oo items oitems Hwf Hv Ho Hrest
                Hitems Hoitems Hm) as Hcall.
  cbv zeta in Hcall.
  set (options := ⋃ (guards_at (heap s) <$> v :: (other :: rest) ++ kwargs.*2)) in *.
  set (o2 := constructed (heap s) _ options _ _ _) in *.
  destruct (constructed_dict (heap s) (cls o) (OrderedDict.update items oitems) options
              (source o) (mutable_local o)
              (Some (recursively_contains o ∪ recursively_contains oo)) Hdict)
    as (_ & _ & _ & Eg).
  eexists _, o2, (OrderedDict.update items oitems).
  split; [exact Hcall|].
  split.
  { eapply new_version_snoc; cbn [heap stack set_stack set_heap]; try done.
    by apply items_of_constructed. }
  split; [by eapply old_objects_kept_app|].
  split; [apply lookup_snoc|].
  split.
  { fold o2 in Eg. rewrite Eg. etrans; [|apply union_subseteq_l].
    unfold options.
    change (⋃ (guards_at (heap s) <$> v :: (other :: rest) ++ kwargs.*2))
      with (guards_at (heap s) v ∪ (guards_at (heap s) other ∪
              ⋃ (guards_at (heap s) <$> rest ++ kwargs.*2))).
    rewrite (guards_at_Some _ _ _ Hv), (guards_at_Some _ _ _ Ho), (assoc_L (∪)).
    apply union_subseteq_l. }
  split; [apply dict_ok_update; [done|by destruct Hook]|].
  split; [|apply keys_update_prefix].
  intros k' Hk'. destruct Hok as [Hhs _]. by apply find_update.
Qed.

End Coverage.

(** ** Default-factory variables and [sys.modules] *)

Section DefaultCoverage.

Variable global_key_name : PyValue → string.
Variable VariableBuilder : Source → PyValue → VarObj.
Variable call_function : VarObj → MutableLocal → Res VarObj.
Variable format : PyValue → string.

Local Open Scope tx_scope.

(** Every name but [__getitem__] goes to the base mapping variable. *)
Lemma default_dict_delegates s v name args kwargs :
  name ≠ "__getitem__" →
  DefaultDictVariable_call_method global_key_name VariableBuilder call_function format
      v name args kwargs s =
    ConstDictVariable_call_method global_key_name VariableBuilder v name args kwargs s.
Proof using Type.
  intros Hname. unfold DefaultDictVariable_call_method.
  apply String.eqb_neq in Hname. rewrite Hname.
  unfold ConstDictVariable_call_method, propagate. apply bind_read_twice.
Qed.

(** X18. In a well-formed store, for a key that [is_valid_key] accepts and
    that [get_key] normalises to a hashable key, and a value of the store,
    [__setitem__] on a default-factory mapping variable goes through the
    base class and keeps the class: the new version is a default-factory
    mapping variable with the same host class and the same factory, the key
    is set in its items, and the factory is not called. *)
Theorem X18_default_dict_setitem_keeps_factory s v k x o items u f nk :
  wf_store (heap s) →
  heap s !! v = Some o →
  cls o = DefaultDictVariable items u f →
  allocated (heap s) x →
  is_valid_key k s = Ok true →
  call_get_key [ArgTx; ArgVar k] s = Ok nk →
  hashable nk = true →
  ∃ s' o2,
    DefaultDictVariable_call_method global_key_name VariableBuilder call_function format
      v "__setitem__" [k; x] [] s = (Ok (length (heap s)), s') ∧
    heap s !! length (heap s) = None ∧
    heap s' !! length (heap s) = Some o2 ∧
    cls o2 = DefaultDictVariable (OrderedDict.set nk x items) u f ∧
    stack s' = subst_loc v (length (heap s)) <$> stack s ∧
    calls s' = calls s.
Proof using Type.
  intros Hwf Hv Hcls Hx Hvalid Hkey Hh.
  assert (class_items (cls o) = Ok items) as Hitems by (by rewrite Hcls).
  destruct (setitem_effect global_key_name VariableBuilder s v k x o items nk
              Hwf Hv Hitems Hx Hvalid Hkey Hh) as (s1 & Hcall & Hpost).
  destruct Hpost as (_ & _ & _ & Hst & _ & _ & _ & Hcalls & o2 & Ho2 & Hc2 & _).
  exists s1, o2. split.
  { rewrite default_dict_delegates by done. exact Hcall. }
  split; [apply lookup_length_None|]. split; [done|].
  split; [by rewrite Hc2, Hcls|]. done.
Qed.

(** X21. On the [sys.modules] variable, [__getitem__], [get] and
    [__contains__] raise [TypeError] for every state and all arguments:
    either the arguments do not fit the method, or [_contains_helper] calls
    [get_key] with the key alone.  No guard is made and the state is
    unchanged. *)
Theorem X21_sys_modules_lookups_raise s self args kwargs :
  let call name :=
    PythonSysModulesVariable_call_method global_key_name VariableBuilder call_function format
      self name args kwargs s in
  (∃ msg, call "__getitem__" = (Err (TypeError msg), s)) ∧
  (∃ msg, call "get" = (Err (TypeError msg), s)) ∧
  (∃ msg, call "__contains__" = (Err (TypeError msg), s)).
Proof using Type.
  cbv zeta. unfold PythonSysModulesVariable_call_method.
  cbn [String.eqb Ascii.eqb Bool.eqb].
  destruct args as [|a [|b [|c args]]], kwargs as [|kw kwargs];
    repeat split; eexists; reflexivity.
Qed.

End DefaultCoverage.

(** ** Record variables *)

Section RecordCoverage.

Variable global_key_name : PyValue → string.
Variable VariableBuilder : Source → PyValue → VarObj.
Variable TupleVariable_call_method :
  loc → string → list loc → list (string * loc) → M loc.

Local Open Scope tx_scope.

(** [__setattr__] is passed on as [__setitem__]. *)
Lemma setattr_is_setitem s v args kwargs :
  DataClassVariable_call_method global_key_name VariableBuilder TupleVariable_call_method
      v "__setattr__" args kwargs s =
    ConstDictVariable_call_method global_key_name VariableBuilder
      v "__setitem__" args kwargs s.
Proof using Type.
  unfold DataClassVariable_call_method. cbn [String.eqb Ascii.eqb Bool.eqb].
  unfold ConstDictVariable_call_method, propagate. apply bind_read_twice.
Qed.

(** X20. [__getitem__] on a record variable with an index that is a string
    constant looks the field up in the items: a field that is there gives a
    copy of its variable carrying the guards of the record and of the
    index, a field that is not (one left out because it was [None]) raises
    [KeyError]; the tuple path is not taken. *)
Theorem X20_record_getitem s v o items a name :
  wf_store (heap s) →
  heap s !! v = Some o →
  class_items (cls o) = Ok items →
  as_python_constant a s = Ok (PyStr name) →
  let call :=
    DataClassVariable_call_method global_key_name VariableBuilder TupleVariable_call_method in
  match OrderedDict.find (PyStr name) items with
  | Some d =>
      ∃ od or,
        heap s !! d = Some od ∧
        call v "__getitem__" [a] [] s = (Ok (length (heap s)), set_heap (heap s ++ [or]) s) ∧
        copy_of od or ∧
        guards o ∪ guards_at (heap s) a ⊆ guards or
  | None => call v "__getitem__" [a] [] s = (Err (KeyError (PyStr name)), s)
  end.
Proof using Type.
  intros Hwf Hv Hitems Hconst call. subst call.
  assert (allocated (heap s) a) as Ha.
  { unfold as_python_constant in Hconst. rewrite as_python_constant_in_unfold in Hconst.
    cbv zeta in Hconst. unfold deref_in, allocated in *.
    destruct (heap s !! a); [by eexists|done]. }
  assert (Forall (allocated (heap s)) [v; a]) as Hall.
  { apply Forall_cons_2; [by eexists|]. by apply Forall_cons_2. }
  assert (DataClassVariable_call_method global_key_name VariableBuilder
            TupleVariable_call_method v "__getitem__" [a] [] s =
          bind (lift (OrderedDict.getitem items (PyStr name)))
            (λ x, add_options x (⋃ (guards_at (heap s) <$> [v; a]))) s) as Hcall.
  { unfold DataClassVariable_call_method.
    rewrite (bind_Ok _ _ _ _ _ (propagate_call _ _ _ Hall)).
    cbn [String.eqb Ascii.eqb Bool.eqb]. unfold assert.
    rewrite !bool_decide_eq_true_2 by done. cbn [andb].
    rewrite (bind_lift _ _ _ a) by done.
    rewrite (bind_read _ _ _ _ Hconst).
    rewrite (bind_deref _ _ _ _ Hv), (bind_lift _ _ _ _ Hitems). done. }
  destruct (OrderedDict.find (PyStr name) items) as [d|] eqn:Hfind.
  - assert (OrderedDict.getitem items (PyStr name) = Ok d) as Hget.
    { apply getitem_Ok_find. by split. }
    destruct (wf_store_value _ _ _ _ _ _ Hwf Hv Hitems Hget) as (od & Hd & Hwfd).
    set (g := ⋃ (guards_at (heap s) <$> [v; a])) in *.
    exists od, (with_guards (heap s) od g).
    split; [done|]. split.
    + rewrite Hcall, (bind_lift _ _ _ _ Hget). by apply add_guards_spec.
    + destruct (copy_of_with_guards (heap s) od g) as [Hc Hg].
      split; [done|]. etrans; [|exact Hg]. unfold g.
      change (⋃ (guards_at (heap s) <$> [v; a]))
        with (guards_at (heap s) v ∪ (guards_at (heap s) a ∪ ∅)).
      by rewrite (guards_at_Some _ _ _ Hv), (right_id_L ∅ (∪)).
  - rewrite Hcall. apply bind_lift_Err.
    unfold OrderedDict.getitem. cbn [hashable]. by rewrite Hfind.
Qed.

(** X19. In a well-formed store, for a name variable that [is_valid_key]
    accepts and that [get_key] normalises to a hashable key, and a value of
    the store, [__setattr__] on a record variable is stored as an item: the
    call returns a new version, a record variable of the same class whose
    items have the normalised name set to the value, and the new version
    replaces the record in the live table. *)
Theorem X19_record_setattr s v k x o items u nk :
  wf_store (heap s) →
  heap s !! v = Some o →
  cls o = DataClassVariable items u →
  allocated (heap s) x →
  is_valid_key k s = Ok true →
  call_get_key [ArgTx; ArgVar k] s = Ok nk →
  hashable nk = true →
  ∃ s' o2,
    DataClassVariable_call_method global_key_name VariableBuilder TupleVariable_call_method
      v "__setattr__" [k; x] [] s = (Ok (length (heap s)), s') ∧
    heap s !! length (heap s) = None ∧
    heap s' !! length (heap s) = Some o2 ∧
    cls o2 = DataClassVariable (OrderedDict.set nk x items) u ∧
    stack s' = subst_loc v (length (heap s)) <$> stack s.
Proof using Type.
  intros Hwf Hv Hcls Hx Hvalid Hkey Hh.
  assert (class_items (cls o) = Ok items) as Hitems by (by rewrite Hcls).
  destruct (setitem_effect global_key_name VariableBuilder s v k x o items nk
              Hwf Hv Hitems Hx Hvalid Hkey Hh) as (s1 & Hcall & Hpost).
  destruct Hpost as (_ & _ & _ & Hst & _ & _ & _ & _ & o2 & Ho2 & Hc2 & _).
  exists s1, o2. split.
  { rewrite setattr_is_setitem. exact Hcall. }
  split; [apply lookup_length_None|]. split; [done|].
  split; [by rewrite Hc2, Hcls|]. done.
Qed.

End RecordCoverage.

(** ** The construction of record variables *)

(** [create_items] only reads: with [include_none] false it makes no
    variable. *)
Lemma create_items_pure keys bound acc s :
  ∃ r, create_items keys bound acc s = (r, s).
Proof.
  revert acc. induction keys as [|key keys IH]; intros acc; cbn [create_items].
  - by eexists.
  - destruct (bound_argument key bound) as [[l|v]|e] eqn:Hb.
    + rewrite (bind_lift _ _ _ _ eq_refl).
      unfold OrderedDict.setitem. cbn [hashable].
      rewrite (bind_lift _ _ _ _ eq_refl). apply IH.
    + rewrite (bind_lift _ _ _ _ eq_refl). cbn [include_none]. unfold assert.
      destruct (bool_decide (v = PyNone)).
      * rewrite bind_ret. apply IH.
      * by eexists.
    + by eexists.
Qed.

(** The binding of positional arguments alone: the first fields take the
    arguments, the others their defaults. *)
Fixpoint bound_positional (fields : list (string * option PyValue)) (args : list nat)
    : list (string * BoundValue) :=
  match fields with
  | [] => []
  | (n, d) :: ps =>
      match args with
      | a :: args' => (n, BoundVar a) :: bound_positional ps args'
      | [] => (n, BoundDefault (default PyNone d)) :: bound_positional ps []
      end
  end.

Lemma bound_positional_names fields args : (bound_positional fields args).*1 = fields.*1.
Proof.
  revert args. induction fields as [|[n d] ps IH]; intros args; [done|].
  destruct args; cbn; by rewrite IH.
Qed.

Lemma bind_signature_positional fields args :
  (length args ≤ length fields)%nat →
  Forall (λ f, is_Some f.2) (drop (length args) fields) →
  bind_signature fields args [] = Ok (bound_positional fields args).
Proof.
  revert args. induction fields as [|[n d] ps IH]; intros args Hlen Hdef.
  - destruct args; [done|]. cbn in Hlen. lia.
  - destruct args as [|a args]; cbn in *.
    + apply Forall_cons_1 in Hdef as [[v Hv] Hdef]. cbn in Hv. subst d.
      rewrite (IH []); [done|cbn; lia|done].
    + rewrite (IH args); [done|lia|done].
Qed.

Lemma bound_argument_positional fields args key b :
  NoDup fields.*1 →
  (key, b) ∈ bound_positional fields args →
  bound_argument key (bound_positional fields args) = Ok b.
Proof.
  intros Hnd Hin.
  assert (NoDup (bound_positional fields args).*1) as Hnd'
    by (by rewrite bound_positional_names).
  clear Hnd. induction (bound_positional fields args) as [|[n b'] l IH]; cbn in *.
  - by apply elem_of_nil in Hin.
  - apply list.NoDup_cons in Hnd' as [Hn Hnd'].
    apply elem_of_cons in Hin as [[= -> ->]|Hin].
    + by rewrite String.eqb_refl.
    + destruct (String.eqb n key) eqn:E; [|by apply IH].
      apply String.eqb_eq in E as ->. exfalso. apply Hn.
      apply list_elem_of_fmap. by exists (key, b).
Qed.

(** What the loop of [create] computes from a list of bound fields. *)
Fixpoint fill (kbs : list (string * BoundValue)) (acc : OrderedDict.t nat)
    : Res (OrderedDict.t nat) :=
  match kbs with
  | [] => Ok acc
  | (key, BoundVar l) :: r => fill r (OrderedDict.set (PyStr key) l acc)
  | (key, BoundDefault v) :: r =>
      if bool_decide (v = PyNone) then fill r acc else Err AssertionError
  end.

Lemma create_items_fill kbs bound acc s :
  Forall (λ kb, bound_argument kb.1 bound = Ok kb.2) kbs →
  create_items kbs.*1 bound acc s = (fill kbs acc, s).
Proof.
  revert acc. induction kbs as [|[key b] kbs IH]; intros acc Hall; [done|].
  apply Forall_cons_1 in Hall as [Hb Hall]. cbn in Hb.
  cbn [fmap list_fmap fst create_items fill].
  rewrite (bind_lift _ _ _ _ Hb). destruct b as [l|v].
  - unfold OrderedDict.setitem. cbn [hashable].
    rewrite (bind_lift _ _ _ _ eq_refl). by apply IH.
  - cbn [include_none]. unfold assert. destruct (bool_decide (v = PyNone)).
    + rewrite bind_ret. by apply IH.
    + done.
Qed.

Lemma create_items_positional fields args acc s :
  NoDup fields.*1 →
  create_items fields.*1 (bound_positional fields args) acc s =
    (fill (bound_positional fields args) acc, s).
Proof.
  intros Hnd. rewrite <- (bound_positional_names fields args) at 1.
  apply create_items_fill.
  apply list.Forall_forall. intros [key b] Hin. cbn.
  by apply bound_argument_positional.
Qed.

Lemma find_app_None {V} (k : PyValue) (d d' : OrderedDict.t V) :
  OrderedDict.find k d = None → OrderedDict.find k (d ++ d') = OrderedDict.find k d'.
Proof.
  induction d as [|[k' y] d IH]; cbn; [done|]. by destruct (py_eqb k' k).
Qed.

Lemma fill_positional fields args acc :
  NoDup fields.*1 →
  (∀ n, n ∈ fields.*1 → OrderedDict.find (PyStr n) acc = None) →
  Forall (λ f, f.2 = Some PyNone) (drop (length args) fields) →
  fill (bound_positional fields args) acc = Ok (acc ++ zip (PyStr <$> fields.*1) args).
Proof.
  revert args acc. induction fields as [|[n d] ps IH]; intros args acc Hnd Hacc Hdef.
  - cbn. by rewrite app_nil_r.
  - cbn in Hnd. apply list.NoDup_cons in Hnd as [Hn Hnd].
    destruct args as [|a args]; cbn in Hdef |- *.
    + apply Forall_cons_1 in Hdef as [Hd Hdef]. cbn in Hd. subst d. cbn.
      rewrite (IH [] acc); [|done| |done].
      * by destruct ps.
      * intros m Hm. apply Hacc. cbn. by apply list_elem_of_further.
    + rewrite set_absent by (apply Hacc; cbn; apply list_elem_of_here).
      rewrite (IH args); [by rewrite <- app_assoc|done| |done].
      intros m Hm. rewrite find_app_None by (apply Hacc; cbn; by apply list_elem_of_further).
      cbn. rewrite bool_decide_eq_false_2; [done|]. by intros ->.
Qed.

Lemma fill_positional_fails fields args acc :
  Exists (λ f, ∃ v, f.2 = Some v ∧ v ≠ PyNone) (drop (length args) fields) →
  fill (bound_positional fields args) acc = Err AssertionError.
Proof.
  revert args acc. induction fields as [|[n d] ps IH]; intros args acc Hex.
  - rewrite drop_nil in Hex. by apply Exists_nil in Hex.
  - destruct args as [|a args]; cbn in Hex |- *.
    + apply Exists_cons in Hex as [(v & Hv & Hne)|Hex].
      * cbn in Hv. subst d. cbn. by rewrite bool_decide_eq_false_2.
      * destruct (bool_decide (default PyNone d = PyNone)); [|done].
        by apply (IH []).
    + by apply IH.
Qed.

Lemma construct_in_not_matching h items u g src ml rc :
  is_matching_cls u = false →
  ∃ e, construct_in h (DataClassVariable items u) g src ml rc = Err e.
Proof.
  intros Hu. unfold construct_in.
  destruct (match rc with Some r => Ok r | None => _ end) as [rc'|e]; [|by eexists].
  cbn. destruct (propagate_in h (OrderedDict.values items)) as [gi|e]; [|by eexists].
  cbn. rewrite Hu. by eexists.
Qed.

(** X22. [DataClassVariable.create] returns a variable only for a subclass
    of [ModelOutput]: for any other class, whatever the arguments, the call
    raises (at the latest in the assertion of the constructor), and the
    state is unchanged. *)
Theorem X22_create_requires_model_output s u args kwargs options :
  is_matching_cls u = false →
  ∃ e, DataClassVariable_create u args kwargs options s = (Err e, s).
Proof.
  intros Hu. unfold DataClassVariable_create.
  destruct u as [| | |c]; try (by eexists).
  destruct (bind_signature (cls_fields c) args kwargs) as [bound|e];
    [|eexists; by apply bind_lift_Err].
  rewrite (bind_lift _ _ _ bound) by done.
  unfold assert. destruct (bool_decide _); [|by eexists].
  destruct (create_items_pure (cls_fields c).*1 bound [] s) as [[items|e] Hitems];
    [|eexists; by apply bind_Err].
  rewrite (bind_Ok _ _ _ _ _ Hitems).
  assert (∃ r, (bool_decide (length items = 1%nat) &&&
                 (let* k0 := lift (index (cls_fields c).*1 0) in
                  let* x := lift (OrderedDict.getitem items (PyStr k0)) in
                  let* ox := deref x in ret (negb (isinstance_TensorVariable ox))))%tx s
               = (r, s)) as [[b|e] Hr].
  { destruct (bool_decide (length items = 1%nat)); cbn [and_then]; [|by eexists].
    destruct (index (cls_fields c).*1 0) as [k0|]; [|by eexists].
    rewrite (bind_lift _ _ _ k0) by done.
    destruct (OrderedDict.getitem items (PyStr k0)) as [x|]; [|by eexists].
    rewrite (bind_lift _ _ _ x) by done.
    unfold deref. destruct (deref_in (heap s) x) as [ox|] eqn:Hx.
    - rewrite (bind_read _ _ _ _ Hx). by eexists.
    - eexists. by apply bind_read_Err. }
  - rewrite (bind_Ok _ _ _ _ _ Hr). destruct b; [by eexists|].
    destruct (construct_in_not_matching (heap s) items (user_defined_cls c)
                (opt_guards options) (opt_source options) (opt_mutable_local options)
                (opt_recursively_contains options) Hu) as [e He].
    exists e. unfold construct. by apply bind_read_Err.
  - eexists. by apply bind_Err.
Qed.

Lemma zip_values (ks : list PyValue) (args : list nat) :
  (length args ≤ length ks)%nat → OrderedDict.values (zip ks args) = args.
Proof. intros H. unfold OrderedDict.values. by apply snd_zip. Qed.

(** X23. [create] with positional arguments alone, for a [ModelOutput]
    class with distinct field names whose fields beyond the arguments all
    default to [None], on arguments of the store: unless the one argument of
    a one-argument call is no tensor, the call returns a new record variable
    whose items are the first fields, in order, bound to the arguments
    themselves; the fields left to their default [None] are no items.  The
    options of the call reach the constructor: the variable has the source
    and the [MutableLocal] given there, if any, the [recursively_contains]
    given there or else the set computed from the arguments, and the guards
    given there joined with those of the arguments. *)
Theorem X23_create_positional s c args options :
  let fields := cls_fields c in
  NoDup fields.*1 →
  (length args ≤ length fields)%nat →
  Forall (λ f, f.2 = Some PyNone) (drop (length args) fields) →
  Forall (allocated (heap s)) args →
  cls_is_model_output c = true →
  match args with
  | [a] => ∃ oa, heap s !! a = Some oa ∧ isinstance_TensorVariable oa = true
  | _ => True
  end →
  ∃ or,
    DataClassVariable_create (user_defined_cls c) args [] options s =
      (Ok (length (heap s)), set_heap (heap s ++ [or]) s) ∧
    cls or = DataClassVariable (zip (PyStr <$> fields.*1) args) (user_defined_cls c) ∧
    guards or = opt_guards options ∪ ⋃ (guards_at (heap s) <$> args) ∧
    source or = opt_source options ∧
    mutable_local or = opt_mutable_local options ∧
    recursively_contains or =
      default (⋃ (contribution_at (heap s) <$> args)) (opt_recursively_contains options).
Proof.
  intros fields Hnd Hlen Hdef Hargs Hmo Hone.
  set (items := zip (PyStr <$> fields.*1) args).
  assert (OrderedDict.values items = args) as Hvals.
  { apply zip_values. by rewrite !length_fmap. }
  exists (constructed (heap s) (DataClassVariable items (user_defined_cls c))
            (opt_guards options) (opt_source options) (opt_mutable_local options)
            (opt_recursively_contains options)).
  split; [|split; [done|]; split; [|split; [done|]; split; [done|]]].
  - unfold DataClassVariable_create. fold fields.
    rewrite (bind_lift _ _ _ (bound_positional fields args)); last first.
    { apply bind_signature_positional; [done|].
      eapply list.Forall_impl; [exact Hdef|]. intros f ->. by eexists. }
    unfold assert. rewrite bool_decide_eq_true_2 by (by rewrite bound_positional_names).
    cbv zeta. fold fields.
    pose proof (create_items_positional fields args [] s Hnd) as Hfill.
    rewrite fill_positional in Hfill by done. cbn [app] in Hfill. fold items in Hfill.
    rewrite (bind_Ok _ _ _ _ _ Hfill).
    assert ((bool_decide (length items = 1%nat) &&&
              (let* k0 := lift (index fields.*1 0) in
               let* x := lift (OrderedDict.getitem items (PyStr k0)) in
               let* ox := deref x in ret (negb (isinstance_TensorVariable ox))))%tx s
            = (Ok false, s)) as Hun.
    { assert (length items = length args) as ->.
      { unfold items. rewrite length_zip, !length_fmap. lia. }
      destruct args as [|a [|b args]]; [done| |done].
      destruct Hone as (oa & Ha & Ht).
      rewrite bool_decide_eq_true_2 by done. cbn [and_then].
      destruct fields as [|[n d] ps] eqn:Hf; [cbn in Hlen; lia|].
      cbn [fmap list_fmap fst index lookup list_lookup].
      rewrite (bind_lift _ _ _ n) by done.
      rewrite (bind_lift _ _ _ a); last first.
      { unfold items. cbn. by rewrite bool_decide_eq_true_2. }
      rewrite (bind_deref _ _ _ _ Ha). by rewrite Ht. }
    rewrite (bind_Ok _ _ _ _ _ Hun).
    apply construct_spec; [cbn [children]; by rewrite Hvals|done].
  - cbn. by rewrite Hvals.
  - cbn. rewrite Hvals. by destruct (opt_recursively_contains options).
Qed.

(** X24. [create] with positional arguments alone fails its assertion when
    a field beyond the arguments has a default that is not [None]; the state
    is unchanged. *)
Theorem X24_create_default_not_none s c args options :
  let fields := cls_fields c in
  NoDup fields.*1 →
  (length args ≤ length fields)%nat →
  Forall (λ f, is_Some f.2) (drop (length args) fields) →
  Exists (λ f, ∃ v, f.2 = Some v ∧ v ≠ PyNone) (drop (length args) fields) →
  DataClassVariable_create (user_defined_cls c) args [] options s =
    (Err AssertionError, s).
Proof.
  intros fields Hnd Hlen Hdef Hex.
  unfold DataClassVariable_create. fold fields.
  rewrite (bind_lift _ _ _ (bound_positional fields args))
    by (by apply bind_signature_positional).
  unfold assert. rewrite bool_decide_eq_true_2 by (by rewrite bound_positional_names).
  cbv zeta. fold fields.
  pose proof (create_items_positional fields args [] s Hnd) as Hfill.
  rewrite fill_positional_fails in Hfill by done.
  by rewrite (bind_Err _ _ _ _ _ Hfill).
Qed.

(** * More runs on a concrete state *)

Module MoreRuns.

(** The mutable dictionary [{"x": 1}] at the address 2 of the store of
    [Runs]. *)
Definition dict2 : VarObj :=
  mkVar (ConstDictVariable [(PyStr "x", 1%nat)] dict_cls) {[OtherGuard 1]} None
    (Some 0%nat) ∅.

(** The store of [Runs] with two more objects: at 15 the tuple [("x", 1)],
    at 16 a mutable record of the class [Output] with the one item [a]. *)
Definition record16 : VarObj :=
  mkVar (DataClassVariable [(PyStr "a", 1%nat)] (user_defined_cls Runs.Output)) ∅ None
    (Some 9%nat) ∅.
Definition tx2 : Tx :=
  set_heap (heap Runs.tx ++ [mkVar (TupleVariable [0%nat; 1%nat]) ∅ None None ∅; record16])
    Runs.tx.

Lemma tx2_well_formed : wf_store (heap tx2).
Proof. apply check_store_sound. reflexivity. Qed.

(** A class with a third field that defaults to [None], a class with a
    default that is not [None], and a class that is no [ModelOutput]. *)
Definition Output3 : ClassDef :=
  mkClassDef "Output3" [("a", None); ("b", None); ("c", Some PyNone)] true.
Definition Config : ClassDef :=
  mkClassDef "Config" [("a", None); ("flag", Some (PyBool true))] true.
Definition Plain : ClassDef := mkClassDef "Plain" [("a", None)] false.

(** The tuple's own methods are not needed in these runs. *)
Definition no_tuple_call (self : loc) (name : string) (args : list loc)
    (kwargs : list (string * loc)) : M loc := raise NotImplementedError.

Definition Record_call :=
  DataClassVariable_call_method Runs.global_key_name Runs.VariableBuilder no_tuple_call.

Ltac allocated_args :=
  repeat first [apply Forall_nil_2 | apply Forall_cons_2]; by eexists.

Lemma X2_witness :
  Runs.ConstDict_call 2%nat "clear" [] [] Runs.tx =
    VariableTracker_call_method 2%nat "clear" [] [] Runs.tx.
Proof.
  refine (X2_unknown_method_falls_through Runs.global_key_name Runs.VariableBuilder
            Runs.tx 2%nat dict2 [(PyStr "x", 1%nat)] "clear" [] [] eq_refl eq_refl
            (Forall_nil_2 _) _).
  intros H. repeat (apply elem_of_cons in H as [H|H]; [discriminate H|]).
  by apply elem_of_nil in H.
Defined.

(** The key 8, a [defaultdict()] without items and without factory, is
    rejected by [is_valid_key]. *)
Lemma X3_witness :
  Runs.ConstDict_call 2%nat "__setitem__" [8%nat; 4%nat] [] Runs.tx =
    VariableTracker_call_method 2%nat "__setitem__" [8%nat; 4%nat] [] Runs.tx.
Proof.
  refine (X3_invalid_key_falls_through Runs.global_key_name Runs.VariableBuilder
            Runs.tx 2%nat dict2 [(PyStr "x", 1%nat)] "__setitem__" [8%nat; 4%nat] []
            eq_refl eq_refl _ _ eq_refl).
  - allocated_args.
  - apply list_elem_of_here.
Defined.

Lemma X4_witness :
  ∃ od or,
    heap Runs.tx !! 1%nat = Some od ∧
    Runs.ConstDict_call 2%nat "__getitem__" [0%nat] [] Runs.tx =
      (Ok 15%nat, set_heap (heap Runs.tx ++ [or]) Runs.tx) ∧
    copy_of od or ∧
    guards dict2 ∪ guards_at (heap Runs.tx) 0%nat ⊆ guards or.
Proof.
  exact (X4_base_getitem Runs.global_key_name Runs.VariableBuilder
           Runs.tx 2%nat dict2 [(PyStr "x", 1%nat)] 0%nat [] [] (PyStr "x")
           Runs.tx_well_formed eq_refl eq_refl (Forall_nil_2 _) eq_refl).
Defined.

Lemma X5_witness :
  ∃ od or,
    heap Runs.tx !! 1%nat = Some od ∧
    Runs.ConstDict_call 2%nat "get" [0%nat; 4%nat] [] Runs.tx =
      (Ok 15%nat, set_heap (heap Runs.tx ++ [or]) Runs.tx) ∧
    copy_of od or ∧
    ⋃ (guards_at (heap Runs.tx) <$> [2%nat; 0%nat; 4%nat]) ⊆ guards or.
Proof.
  refine (X5_get_present Runs.global_key_name Runs.VariableBuilder
            Runs.tx 2%nat dict2 [(PyStr "x", 1%nat)] "get" 0%nat [4%nat] [] (PyStr "x")
            1%nat Runs.tx_well_formed eq_refl eq_refl _ eq_refl eq_refl eq_refl
            (or_introl eq_refl)).
  allocated_args.
Defined.

Lemma X6_witness :
  Runs.ConstDict_call 2%nat "get" [3%nat] [] Runs.tx =
    VariableTracker_call_method 2%nat "get" [3%nat] [] Runs.tx ∧
  Runs.ConstDict_call 2%nat "__getattr__" [3%nat] [] Runs.tx =
    VariableTracker_call_method 2%nat "__getattr__" [3%nat] [] Runs.tx ∧
  Runs.ConstDict_call 2%nat "pop" [3%nat] [] Runs.tx =
    (Err (KeyError (PyStr "z")), Runs.tx).
Proof.
  refine (X6_missing_key_without_default Runs.global_key_name Runs.VariableBuilder
            Runs.tx 2%nat dict2 [(PyStr "x", 1%nat)] 3%nat [] [] (PyStr "z")
            eq_refl eq_refl (Forall_nil_2 _) eq_refl eq_refl eq_refl _).
  discriminate.
Defined.

Lemma X7_witness :
  Runs.ConstDict_call 2%nat "keys" [0%nat] [] Runs.tx = (Err AssertionError, Runs.tx).
Proof.
  refine (X7_no_argument_methods Runs.global_key_name Runs.VariableBuilder
            Runs.tx 2%nat dict2 [(PyStr "x", 1%nat)] "keys" [0%nat] []
            eq_refl eq_refl _ _ (or_introl _)).
  - allocated_args.
  - apply list_elem_of_further, list_elem_of_here.
  - discriminate.
Defined.

Lemma X8_witness :
  Runs.ConstDict_call 2%nat "__len__" [] [] Runs.tx =
    (Ok 15%nat,
     set_heap (heap Runs.tx ++
                 [mkVar (ConstantVariable (PyInt 1)) {[OtherGuard 1]} None None ∅])
       Runs.tx) ∧
  Runs.ConstDict_call 2%nat "values" [] [] Runs.tx =
    (Ok 15%nat,
     set_heap (heap Runs.tx ++
                 [mkVar (TupleVariable [1%nat]) {[OtherGuard 1]} None None
                    (⋃ (contribution_at (heap Runs.tx) <$> [1%nat]))])
       Runs.tx).
Proof.
  exact (X8_len_and_values Runs.global_key_name Runs.VariableBuilder
           Runs.tx 2%nat dict2 [(PyStr "x", 1%nat)] Runs.tx_well_formed eq_refl eq_refl).
Defined.

Lemma X9_witness :
  ∃ l s' ol,
    _key_to_var Runs.global_key_name Runs.VariableBuilder (PyStr "x") ∅ Runs.tx =
      (Ok l, s') ∧
    extends Runs.tx s' ∧
    heap Runs.tx !! l = None ∧
    heap s' !! l = Some ol ∧
    guards ol = ∅ ∧
    call_get_key [ArgTx; ArgVar l] s' = Ok (PyStr "x") ∧
    is_valid_key l s' = Ok true.
Proof.
  exact (X9_key_to_var_get_key Runs.global_key_name Runs.VariableBuilder
           Runs.tx (PyStr "x") ∅ eq_refl).
Defined.

Lemma plain_x : Forall plain_key [PyStr "x"].
Proof. by repeat constructor. Qed.

Lemma X10_witness :
  ∃ ls s',
    unpack_var_sequence Runs.global_key_name Runs.VariableBuilder 2%nat Runs.tx =
      (Ok ls, s') ∧
    extends Runs.tx s' ∧
    Forall2 (normalises_to Runs.tx {[OtherGuard 1]} s') [PyStr "x"] ls.
Proof.
  exact (X10_unpack_var_sequence_keys Runs.global_key_name Runs.VariableBuilder
           Runs.tx 2%nat dict2 [(PyStr "x", 1%nat)] eq_refl eq_refl plain_x).
Defined.

Lemma X11_witness :
  ∃ ls r s' or,
    Runs.ConstDict_call 2%nat "keys" [] [] Runs.tx = (Ok r, s') ∧
    heap Runs.tx !! r = None ∧
    heap s' !! r = Some or ∧
    cls or = SetVariable ls ∧
    mutable_local or = Some 8%nat ∧
    unused (heap Runs.tx) 8%nat ∧
    (∀ l o', heap s' !! l = Some o' → l ≠ r → mutable_local o' ≠ Some 8%nat) ∧
    tokens_fresh s' ∧
    next_mutable_local s' = 9%nat ∧
    guards or = {[OtherGuard 1]} ∧
    stack s' = stack Runs.tx ∧
    old_objects_kept Runs.tx s' ∧
    Forall2 (normalises_to Runs.tx {[OtherGuard 1]} s') [PyStr "x"] ls.
Proof.
  exact (X11_keys_method Runs.global_key_name Runs.VariableBuilder
           Runs.tx 2%nat dict2 [(PyStr "x", 1%nat)] Runs.tx_tokens_fresh eq_refl eq_refl
           plain_x).
Defined.

Lemma X12_witness :
  ∃ ps r s' or,
    Runs.ConstDict_call 2%nat "items" [] [] Runs.tx = (Ok r, s') ∧
    heap Runs.tx !! r = None ∧
    heap s' !! r = Some or ∧
    cls or = TupleVariable ps ∧
    guards or = {[OtherGuard 1]} ∧
    stack s' = stack Runs.tx ∧
    old_objects_kept Runs.tx s' ∧
    Forall2 (λ e p, ∃ kv op, heap Runs.tx !! p = None ∧ heap s' !! p = Some op ∧
                             cls op = TupleVariable [kv; e.2] ∧
                             normalises_to Runs.tx {[OtherGuard 1]} s' e.1 kv)
      [(PyStr "x", 1%nat)] ps.
Proof.
  exact (X12_items_method Runs.global_key_name Runs.VariableBuilder
           Runs.tx 2%nat dict2 [(PyStr "x", 1%nat)] Runs.tx_well_formed eq_refl eq_refl
           plain_x).
Defined.

Lemma X13_witness :
  ∃ v2 s1 r s2 or,
    Runs.ConstDict_call 2%nat "__setitem__" [3%nat; 4%nat] [] Runs.tx = (Ok v2, s1) ∧
    Runs.ConstDict_call v2 "__getitem__" [3%nat] [] s1 = (Ok r, s2) ∧
    heap s1 !! r = None ∧
    heap s2 !! r = Some or ∧
    cls or = ConstantVariable (PyInt 7) ∧ source or = None ∧
    recursively_contains or = ∅ ∧
    ∅ ⊆ guards or ∧
    stack s2 = stack s1.
Proof.
  exact (X13_setitem_then_getitem Runs.global_key_name Runs.VariableBuilder
           Runs.tx 2%nat 3%nat 4%nat dict2 (Runs.constant (PyInt 7)) [(PyStr "x", 1%nat)]
           (PyStr "z") Runs.tx_well_formed eq_refl eq_refl eq_refl eq_refl eq_refl eq_refl).
Defined.

Lemma dict_ok_x : dict_ok [(PyStr "x", 1%nat)].
Proof. apply check_dict_sound. reflexivity. Qed.

Lemma X14_witness :
  ∃ s' o2 items2,
    Runs.ConstDict_call 2%nat "__setitem__" [3%nat; 4%nat] [] Runs.tx = (Ok 15%nat, s') ∧
    heap s' !! 15%nat = Some o2 ∧
    items_of o2 = Ok items2 ∧
    dict_ok items2 ∧
    (∀ k', hashable k' = true →
       OrderedDict.find k' items2 =
         if py_eqb (PyStr "z") k' then Some 4%nat
         else OrderedDict.find k' [(PyStr "x", 1%nat)]) ∧
    OrderedDict.keys items2 = [PyStr "x"; PyStr "z"] ∧
    {[OtherGuard 1]} ∪ guards_at (heap Runs.tx) 3%nat ∪ guards_at (heap Runs.tx) 4%nat
      ⊆ guards o2.
Proof.
  refine (X14_setitem_items Runs.global_key_name Runs.VariableBuilder
            Runs.tx 2%nat 3%nat 4%nat dict2 [(PyStr "x", 1%nat)] (PyStr "z")
            Runs.tx_well_formed eq_refl eq_refl _ eq_refl eq_refl eq_refl dict_ok_x).
  by eexists.
Defined.

(** The store of [Runs] with, at 15, a tensor specialised to the tensor 1. *)
Definition tx3 : Tx :=
  set_heap (heap Runs.tx ++ [mkVar (TensorVariable (Some (PyTensor 1))) ∅ None None ∅])
    Runs.tx.

Lemma tx3_well_formed : wf_store (heap tx3).
Proof. apply check_store_sound. reflexivity. Qed.

Lemma X15_witness :
  ∃ s' o2 items2,
    Runs.ConstDict_call 2%nat "__setitem__" [15%nat; 4%nat] [] tx3 = (Ok 16%nat, s') ∧
    heap s' !! 16%nat = Some o2 ∧
    items_of o2 = Ok items2 ∧
    keys_registered Runs.global_key_name s' items2 ∧
    global_weakrefs s' = global_weakrefs tx3 ++ [("__dict_key", PyTensor 1)].
Proof.
  refine (X15_setitem_registers_key Runs.global_key_name Runs.VariableBuilder
            tx3 2%nat 15%nat 4%nat dict2 [(PyStr "x", 1%nat)] (PyTensor 1)
            tx3_well_formed eq_refl eq_refl _ eq_refl eq_refl eq_refl _ _).
  - by eexists.
  - discriminate.
  - intros k Hk Hg. cbn in Hk. apply list_elem_of_singleton in Hk as ->. discriminate Hg.
Defined.

Lemma X16_witness :
  ∃ od r s' or items2,
    heap Runs.tx !! 1%nat = Some od ∧
    Runs.ConstDict_call 2%nat "pop" [0%nat] [] Runs.tx = (Ok r, s') ∧
    heap Runs.tx !! r = None ∧
    heap s' !! r = Some or ∧
    copy_of od or ∧
    new_version Runs.tx s' 2%nat 15%nat items2 ∧
    old_objects_kept Runs.tx s' ∧
    dict_ok items2 ∧
    OrderedDict.contains (PyStr "x") items2 = Ok false ∧
    (∀ k', py_eqb (PyStr "x") k' = false →
       OrderedDict.find k' items2 = OrderedDict.find k' [(PyStr "x", 1%nat)]) ∧
    S (length items2) = 1%nat.
Proof.
  refine (X16_pop_present Runs.global_key_name Runs.VariableBuilder
            Runs.tx 2%nat 0%nat [] [] dict2 [(PyStr "x", 1%nat)] (PyStr "x") 1%nat
            Runs.tx_well_formed eq_refl eq_refl _ (Forall_nil_2 _) eq_refl eq_refl eq_refl
            dict_ok_x).
  by eexists.
Defined.

Lemma X17_witness :
  ∃ s' o2 items2,
    Runs.ConstDict_call 2%nat "update" [10%nat] [("y", 4%nat)] Runs.tx = (Ok 15%nat, s') ∧
    new_version Runs.tx s' 2%nat 15%nat items2 ∧
    old_objects_kept Runs.tx s' ∧
    heap s' !! 15%nat = Some o2 ∧
    {[OtherGuard 1]} ∪ ∅ ⊆ guards o2 ∧
    dict_ok items2 ∧
    (∀ k', hashable k' = true →
       OrderedDict.find k' items2 =
         match OrderedDict.find k' [(PyStr "a", 9%nat)] with
         | Some y => Some y
         | None => OrderedDict.find k' [(PyStr "x", 1%nat)]
         end) ∧
    [PyStr "x"] `prefix_of` OrderedDict.keys items2.
Proof.
  refine (X17_update_items Runs.global_key_name Runs.VariableBuilder
            Runs.tx 2%nat 10%nat [] [("y", 4%nat)] dict2
            (mkVar (ConstDictVariable [(PyStr "a", 9%nat)] dict_cls) ∅ None (Some 3%nat)
               {[7%nat]})
            [(PyStr "x", 1%nat)] [(PyStr "a", 9%nat)]
            Runs.tx_well_formed eq_refl eq_refl _ eq_refl eq_refl _ dict_ok_x _).
  - allocated_args.
  - by eexists.
  - apply check_dict_sound. reflexivity.
Defined.

Lemma X18_witness :
  ∃ s' o2,
    Runs.DefaultDict_call 7%nat "__setitem__" [0%nat; 1%nat] [] Runs.tx = (Ok 15%nat, s') ∧
    heap Runs.tx !! 15%nat = None ∧
    heap s' !! 15%nat = Some o2 ∧
    cls o2 = DefaultDictVariable [(PyStr "x", 1%nat)] defaultdict_cls (FactoryVar 6%nat) ∧
    stack s' = subst_loc 7%nat 15%nat <$> stack Runs.tx ∧
    calls s' = calls Runs.tx.
Proof.
  refine (X18_default_dict_setitem_keeps_factory Runs.global_key_name Runs.VariableBuilder
            Runs.call_function Runs.format Runs.tx 7%nat 0%nat 1%nat
            (mkVar (DefaultDictVariable [] defaultdict_cls (FactoryVar 6%nat))
               {[OtherGuard 2]} None (Some 1%nat) ∅)
            [] defaultdict_cls (FactoryVar 6%nat) (PyStr "x")
            Runs.tx_well_formed eq_refl eq_refl _ eq_refl eq_refl eq_refl).
  by eexists.
Defined.

Lemma X19_witness :
  ∃ s' o2,
    Record_call 16%nat "__setattr__" [3%nat; 4%nat] [] tx2 = (Ok 17%nat, s') ∧
    heap tx2 !! 17%nat = None ∧
    heap s' !! 17%nat = Some o2 ∧
    cls o2 = DataClassVariable [(PyStr "a", 1%nat); (PyStr "z", 4%nat)]
               (user_defined_cls Runs.Output) ∧
    stack s' = subst_loc 16%nat 17%nat <$> stack tx2.
Proof.
  refine (X19_record_setattr Runs.global_key_name Runs.VariableBuilder no_tuple_call
            tx2 16%nat 3%nat 4%nat record16 [(PyStr "a", 1%nat)]
            (user_defined_cls Runs.Output) (PyStr "z")
            tx2_well_formed eq_refl eq_refl _ eq_refl eq_refl eq_refl).
  by eexists.
Defined.

Lemma X20_witness :
  ∃ od or,
    heap tx2 !! 1%nat = Some od ∧
    Record_call 16%nat "__getitem__" [11%nat] [] tx2 =
      (Ok 17%nat, set_heap (heap tx2 ++ [or]) tx2) ∧
    copy_of od or ∧
    guards record16 ∪ guards_at (heap tx2) 11%nat ⊆ guards or.
Proof.
  exact (X20_record_getitem Runs.global_key_name Runs.VariableBuilder no_tuple_call
           tx2 16%nat record16 [(PyStr "a", 1%nat)] 11%nat "a"
           tx2_well_formed eq_refl eq_refl eq_refl).
Defined.

Lemma X22_witness :
  ∃ e, DataClassVariable_create (user_defined_cls Plain) [1%nat] [] ∅ Runs.tx =
         (Err e, Runs.tx).
Proof.
  exact (X22_create_requires_model_output Runs.tx (user_defined_cls Plain) [1%nat] [] ∅
           eq_refl).
Defined.

Lemma X23_witness :
  let options := mkOptions {[OtherGuard 3]} (Some (LocalSource "out")) (Some 8%nat) None in
  ∃ or,
    DataClassVariable_create (user_defined_cls Output3) [1%nat; 4%nat] [] options Runs.tx =
      (Ok 15%nat, set_heap (heap Runs.tx ++ [or]) Runs.tx) ∧
    cls or = DataClassVariable [(PyStr "a", 1%nat); (PyStr "b", 4%nat)]
               (user_defined_cls Output3) ∧
    guards or = {[OtherGuard 3]} ∪ ⋃ (guards_at (heap Runs.tx) <$> [1%nat; 4%nat]) ∧
    source or = Some (LocalSource "out") ∧
    mutable_local or = Some 8%nat ∧
    recursively_contains or = ⋃ (contribution_at (heap Runs.tx) <$> [1%nat; 4%nat]).
Proof.
  refine (X23_create_positional Runs.tx Output3 [1%nat; 4%nat]
            (mkOptions {[OtherGuard 3]} (Some (LocalSource "out")) (Some 8%nat) None)
            _ _ _ _ eq_refl I).
  - apply (bool_decide_unpack _). reflexivity.
  - cbn. lia.
  - by repeat constructor.
  - allocated_args.
Defined.

Lemma X24_witness :
  DataClassVariable_create (user_defined_cls Config) [1%nat] [] ∅ Runs.tx =
    (Err AssertionError, Runs.tx).
Proof.
  refine (X24_create_default_not_none Runs.tx Config [1%nat] ∅ _ _ _ _).
  - apply (bool_decide_unpack _). reflexivity.
  - cbn. lia.
  - repeat constructor. by eexists.
  - apply Exists_cons_hd. by exists (PyBool true).
Defined.

End MoreRuns.
